(** * pathfinder-rag: retrieval, context assembly and output recovery

    A shallow embedding of [src/config.py], [src/ingest.py],
    [src/retrieval.py], [src/generator.py] and [src/pipeline.py], and
    the properties of ingestion, the context assembler, the leakage
    filter, the ranking step, the parse/repair cascade and the
    pipeline as a whole.

    Conventions of the embedding.
    - A Python [str] is a [string] holding its UTF-8 bytes.  Substring
      search and replacement on the bytes agree with the same operations
      on code points; the operations that count characters ([len(text)]
      and slices such as [text[:600]]) count UTF-8 lead bytes.
    - [str.strip()] and [str.split()] take for white space what
      [str.isspace] accepts, in one, two or three bytes.  [str.lower()]
      lowers the letters of ASCII and leaves other characters as they
      are: it is exact on ASCII text and on the comparisons with ASCII
      words the code makes; a statement that reads more of a lowered
      text says so for ASCII text.
    - A chunk is a Python dict: a [gmap] from keys to values.
    - Third-party code (json, requests, rank_bm25, numpy,
      sentence_transformers, python-docx) is taken as a parameter of the
      sections that call it, with the exceptions it may raise.  A float
      is the rational it stands for, and [np.dot] a parameter like the
      rest, so no rounding is assumed away.
    - Exceptions are results: a computation of type [M A] takes the
      process state and returns [Ok a] or [Raise e] and the next state.
    - Ingestion works on the paragraphs python-docx gives and takes the
      three calls of [re] as a parameter; [Ingest.re_ascii] is what they
      do on ASCII text. *)

From Stdlib Require Import String Ascii List ZArith QArith Lia Bool.
From Stdlib Require Import DecimalString DecimalNat.
From stdpp Require Import base gmap strings list sorting.

Set Warnings "-register-all,-clear-no-such-hyp".

Open Scope string_scope.
Open Scope list_scope.
Open Scope Z_scope.

(** * Python strings *)

Module PyStr.

Definition nl : string := String (ascii_of_nat 10) "".
Definition dq : string := String (ascii_of_nat 34) "".

Definition is_upper (c : ascii) : bool :=
  let n := nat_of_ascii c in (65 <=? n)%nat && (n <=? 90)%nat.

Definition lower_char (c : ascii) : ascii :=
  if is_upper c then ascii_of_nat (nat_of_ascii c + 32) else c.

(** [s.lower()], on the letters of ASCII; other characters are left
    as they are. *)
Fixpoint lower (s : string) : string :=
  match s with
  | "" => ""
  | String c r => String (lower_char c) (lower r)
  end.

(** [sub in s] *)
Fixpoint contains (sub s : string) : bool :=
  String.prefix sub s ||
  match s with
  | "" => false
  | String _ r => contains sub r
  end.

Fixpoint drop (n : nat) (s : string) : string :=
  match n, s with
  | O, _ => s
  | S _, "" => ""
  | S k, String _ r => drop k r
  end.

(** [s.replace(old, new)] for a non-empty [old]: scan from the left,
    [skip] counts the bytes of the match that is being replaced. *)
Fixpoint replace_scan (old new : string) (skip : nat) (s : string) : string :=
  match s with
  | "" => ""
  | String c r =>
      match skip with
      | S k => replace_scan old new k r
      | O =>
          if String.prefix old s
          then new +:+ replace_scan old new (String.length old - 1) r
          else String c (replace_scan old new O r)
      end
  end.

(** [s.replace("", new)] puts [new] around every character. *)
Fixpoint interleave (new s : string) : string :=
  match s with
  | "" => new
  | String c r => new +:+ String c (interleave new r)
  end.

Definition replace (old new s : string) : string :=
  match old with
  | "" => interleave new s
  | _ => replace_scan old new O s
  end.

(** [s.split(sep, 1)] when [sep] occurs in [s]: the text before the
    first occurrence and the text after it. *)
Fixpoint split_once (sep s : string) : option (string * string) :=
  if String.prefix sep s then Some ("", drop (String.length sep) s)
  else match s with
       | "" => None
       | String c r =>
           match split_once sep r with
           | Some (a, b) => Some (String c a, b)
           | None => None
           end
       end.

(** The white space of [str.strip] and [str.split]: the characters
    [str.isspace] accepts.  Those of one byte are U+0009 to U+000D,
    U+001C to U+001F and the space. *)
Definition is_space (c : ascii) : bool :=
  let n := nat_of_ascii c in
  ((9 <=? n)%nat && (n <=? 13)%nat) || ((28 <=? n)%nat && (n <=? 32)%nat).

(** Those of two bytes: U+0085 and U+00A0. *)
Definition is_space2 (c d : ascii) : bool :=
  (nat_of_ascii c =? 194)%nat &&
  ((nat_of_ascii d =? 133)%nat || (nat_of_ascii d =? 160)%nat).

(** Those of three bytes: U+1680, U+2000 to U+200A, U+2028, U+2029,
    U+202F, U+205F and U+3000. *)
Definition is_space3 (c d e : ascii) : bool :=
  let m := nat_of_ascii c in
  let n := nat_of_ascii d in
  let k := nat_of_ascii e in
  ((m =? 225) && (n =? 154) && (k =? 128))%nat
  || ((m =? 226) && (n =? 128) &&
      (((128 <=? k) && (k <=? 138)) || (k =? 168) || (k =? 169) || (k =? 175)))%nat
  || ((m =? 226) && (n =? 129) && (k =? 159))%nat
  || ((m =? 227) && (n =? 128) && (k =? 128))%nat.

(** What follows the white-space character [s] starts with, if it
    starts with one. *)
Definition after_space (s : string) : option string :=
  match s with
  | String c r =>
      if is_space c then Some r
      else match r with
           | String d r2 =>
               if is_space2 c d then Some r2
               else match r2 with
                    | String e r3 => if is_space3 c d e then Some r3 else None
                    | "" => None
                    end
           | "" => None
           end
  | "" => None
  end.

(** A word that ends: it is listed unless it is empty. *)
Definition end_word (cur : string) (rest : list string) : list string :=
  if String.eqb cur "" then rest else cur :: rest.

Fixpoint split_scan (s cur : string) : list string :=
  match s with
  | "" => end_word cur []
  | String c r =>
      if is_space c then end_word cur (split_scan r "")
      else match r with
           | String d r2 =>
               if is_space2 c d then end_word cur (split_scan r2 "")
               else match r2 with
                    | String e r3 =>
                        if is_space3 c d e then end_word cur (split_scan r3 "")
                        else split_scan r (cur +:+ String c "")
                    | "" => split_scan r (cur +:+ String c "")
                    end
           | "" => split_scan r (cur +:+ String c "")
           end
  end.

(** [s.split()] *)
Definition split (s : string) : list string := split_scan s "".

(** [s.lstrip()] *)
Fixpoint lstrip (s : string) : string :=
  match s with
  | "" => ""
  | String c r =>
      if is_space c then lstrip r
      else match r with
           | String d r2 =>
               if is_space2 c d then lstrip r2
               else match r2 with
                    | String e r3 => if is_space3 c d e then lstrip r3 else s
                    | "" => s
                    end
           | "" => s
           end
  end.

(** [s.rstrip()]: cut where only white space follows. *)
Fixpoint rstrip (s : string) : string :=
  match s with
  | "" => ""
  | String c r => if String.eqb (lstrip s) "" then "" else String c (rstrip r)
  end.

(** [s.strip()] *)
Definition strip (s : string) : string := rstrip (lstrip s).

(** [s.find(sub)]: the first index, or -1. *)
Fixpoint find_from (sub s : string) (i : Z) : Z :=
  if String.prefix sub s then i
  else match s with
       | "" => -1
       | String _ r => find_from sub r (i + 1)
       end.

Definition find (sub s : string) : Z := find_from sub s 0.

(** [s.rfind(sub)]: the last index, or -1. *)
Fixpoint rfind_from (sub s : string) (i : Z) : Z :=
  match s with
  | "" => if String.prefix sub "" then i else -1
  | String _ r =>
      let later := rfind_from sub r (i + 1) in
      if later =? -1 then (if String.prefix sub s then i else -1) else later
  end.

Definition rfind (sub s : string) : Z := rfind_from sub s 0.

(** The bound of a slice: negative counts from the end, then clamp. *)
Definition clamp (len i : Z) : Z :=
  if i <? 0 then Z.max 0 (len + i) else Z.min i len.

(** [s[start:stop]] *)
Definition slice (s : string) (start stop : Z) : string :=
  let len := Z.of_nat (String.length s) in
  let a := clamp len start in
  let b := clamp len stop in
  String.substring (Z.to_nat a) (Z.to_nat (b - a)) s.

Definition is_continuation (c : ascii) : bool :=
  let n := nat_of_ascii c in (128 <=? n)%nat && (n <? 192)%nat.

(** [s[:n]] for [n >= 0], counting characters, not bytes. *)
Fixpoint take_chars (n : nat) (s : string) : string :=
  match s with
  | "" => ""
  | String c r =>
      if is_continuation c then String c (take_chars n r)
      else match n with
           | O => ""
           | S k => String c (take_chars k r)
           end
  end.

(** A text in ASCII: no byte above 127.  On such a text [lower] is
    [str.lower]. *)
Fixpoint is_ascii_text (s : string) : bool :=
  match s with
  | "" => true
  | String c r => (nat_of_ascii c <? 128)%nat && is_ascii_text r
  end.

(** [sep.join(l)] *)
Definition join (sep : string) (l : list string) : string :=
  String.concat sep l.

End PyStr.

(** * Python lists *)

Module PyList.

Section Slices.
Context {A : Type}.

(** [l[:k]] *)
Definition slice_to (k : Z) (l : list A) : list A :=
  if k <? 0 then firstn (Z.to_nat (Z.of_nat (length l) + k)) l
  else firstn (Z.to_nat k) l.

(** [l[k:]] *)
Definition slice_from (k : Z) (l : list A) : list A :=
  if k <? 0 then skipn (Z.to_nat (Z.of_nat (length l) + k)) l
  else skipn (Z.to_nat k) l.

End Slices.

End PyList.

(** * Configuration ([src/config.py]) *)

Module Config.

Definition SUPPORTED_AGE_RANGES : list string :=
  ["18-24"; "25-34"; "35-44"; "45-54"; "55-64"; "65+"].

Definition SUPPORTED_INCOME_TYPES : list string :=
  ["Salary"; "Salary + Bonus"; "Hourly + Overtime"; "Commission";
   "Self-Employed"; "Other Employment Income"].

Definition TOP_K : Z := 5.
Definition BM25_TOP_N : Z := 10.

End Config.

(** * Chunks *)

(** The values a chunk holds under its keys: [None] or a [str]. *)
Inductive pyval : Type :=
| VNone
| VStr (s : string).

#[global] Instance pyval_eq_dec : EqDecision pyval.
Proof. solve_decision. Defined.

(** A chunk is a dict with the keys [chunk_id], [heading] and [text]. *)
Abbreviation chunk := (gmap string pyval).

Definition mk_chunk (cid heading text : string) : chunk :=
  <["chunk_id" := VStr cid]> (<["heading" := VStr heading]> (<["text" := VStr text]> ∅)).

(** [str(v)], as an f-string prints a value. *)
Definition py_str (v : pyval) : string :=
  match v with
  | VNone => "None"
  | VStr s => s
  end.

(** [c.get(k, dflt)] *)
Definition get_default (c : chunk) (k : string) (dflt : pyval) : pyval :=
  match c !! k with
  | Some v => v
  | None => dflt
  end.

(** [c.get(k) or ""] *)
Definition get_or_empty (c : chunk) (k : string) : string :=
  match c !! k with
  | Some (VStr s) => s
  | _ => ""
  end.

(** * Context assembly: the pure part of [src/pipeline.py] *)

Module Assembler.
Import PyStr.

Definition _age_variants (age_range : string) : list string :=
  if contains "-" age_range then
    match split_once "-" age_range with
    | Some (a, b) =>
        [ age_range;
          replace "-" "–" age_range;
          a +:+ " to " +:+ b;
          a +:+ " to " +:+ b +:+ " years";
          a +:+ "-" +:+ b +:+ " years";
          a +:+ "–" +:+ b +:+ " years" ]
    | None => [age_range]
    end
  else [age_range].

Definition _matches_any (haystack : string) (needles : list string) : bool :=
  let h := lower haystack in
  existsb (fun n => contains (lower n) h) needles.

(** The text [_best_chunk_by_text] searches: the f-string [heading\ntext]. *)
Definition heading_text (c : chunk) : string :=
  py_str (get_default c "heading" (VStr "")) +:+ nl +:+
  py_str (get_default c "text" (VStr "")).

Fixpoint _best_chunk_by_text (chunks : list chunk) (needles : list string)
  : option chunk :=
  match chunks with
  | [] => None
  | c :: rest =>
      if _matches_any (heading_text c) needles then Some c
      else _best_chunk_by_text rest needles
  end.

Definition dash_variants : list string := ["–"; "—"; "−"; "‒"; "―"].

Definition _normalize_age_text (s : string) : string :=
  let t := lower s in
  let t := fold_left (fun t ch => replace ch "-" t) dash_variants t in
  replace " to " "-" t.

Definition age_bands : list string :=
  ["18-24"; "25-34"; "35-44"; "45-54"; "55-64"; "65+"].

(** The [haystack] of [_is_other_age_chunk]. *)
Definition haystack_of (c : chunk) : string :=
  _normalize_age_text (get_or_empty c "heading") +:+ nl +:+
  _normalize_age_text (get_or_empty c "text").

Definition requested_variants (age_range : string) : list string :=
  map _normalize_age_text (_age_variants age_range).

Definition _is_other_age_chunk (c : chunk) (age_range : string) : bool :=
  let haystack := haystack_of c in
  if negb (existsb (fun band => contains band haystack) age_bands) then false
  else
    let matches_requested :=
      existsb (fun v => contains v haystack) (requested_variants age_range) in
    negb matches_requested.

(** The two locals of [_safe_context_set] that [add] updates. *)
Record acc : Type := Acc { final : list chunk; seen : gset string }.

Definition add (ch : option chunk) (st : acc) : acc :=
  match ch with
  | None => st
  | Some c =>
      if bool_decide (c = ∅) then st
      else match c !! "chunk_id" with
           | Some (VStr cid) =>
               if negb (String.eqb cid "") && bool_decide (cid ∉ seen st)
               then Acc (final st ++ [c]) ({[cid]} ∪ seen st)
               else st
           | _ => st
           end
  end.

(** The loop over [retrieved], with its [break]. *)
Fixpoint fill (retrieved : list chunk) (top_k : Z) (st : acc) : acc :=
  match retrieved with
  | [] => st
  | c :: rest =>
      let st' := add (Some c) st in
      if Z.of_nat (length (final st')) >=? top_k then st'
      else fill rest top_k st'
  end.

Definition _safe_context_set (retrieved : list chunk)
    (age_chunk income_chunk rationale_chunk : option chunk) (top_k : Z)
  : list chunk :=
  let st := Acc [] ∅ in
  let st := add age_chunk st in
  let st := add income_chunk st in
  let st := add rationale_chunk st in
  let st := fill retrieved top_k st in
  PyList.slice_to top_k (final st).

End Assembler.

(** * Values, exceptions and the process state *)

(** What [json.loads] returns.  A [JObj] lists the items of the dict in
    insertion order. *)
Inductive json : Type :=
| JNull
| JBool (b : bool)
| JNum (n : Z)
| JStr (s : string)
| JArr (items : list json)
| JObj (fields : list (string * json)).

Inductive exn : Type :=
| JSONDecodeError
| ValueError (msg : string)
| RuntimeError (msg : string)
| RequestException
| KeyError (key : string)
| AttributeError
| TypeError
| IndexError
| ZeroDivisionError
| RecursionError
| OSError.

Inductive outcome (A : Type) : Type :=
| Ok (a : A)
| Raise (e : exn).
Arguments Ok {A} a.
Arguments Raise {A} e.

(** The body of the request [_llm_generate] posts. *)
Record payload : Type := Payload {
  model : string;
  prompt : string;
  stream : bool;
  temperature : Z;
  keep_alive : string;
  num_predict : Z;
  num_ctx : Z;
  format : option string
}.

(** The calls that leave the process or build the index, in the order
    they happen. *)
Inductive event : Type :=
| EvIngest
| EvBuildRetriever
| EvRetrieve (query : string) (top_k bm25_top_n : Z)
| EvRepair (bad_text : string)
| EvPost (url : string) (body : payload) (timeout : Z).

Record HybridRetriever : Type := Retriever {
  chunks : list chunk;
  texts : list pyval;
  bm25 : list string -> list Q;
  embeddings : list (list Q)
}.

(** The module globals of [src/pipeline.py], and the calls made so far. *)
Record World : Type := MkWorld {
  _chunks_cache : option (list chunk);
  _retriever_cache : option HybridRetriever;
  trace : list event
}.

Definition log (e : event) (w : World) : World :=
  MkWorld (_chunks_cache w) (_retriever_cache w) (trace w ++ [e]).

(** Third-party code and the environment. *)
Record Externals : Type := {
  (** [os.getenv(name)] *)
  getenv : string -> option string;
  (** [json.loads]: the value, or what it raises, [JSONDecodeError] on
      a text that is not JSON, [ValueError] on a number past the digit
      limit, [RecursionError] on a nesting too deep *)
  json_loads : string -> outcome json;
  (** [requests.post(url, json=body, timeout=t)], [raise_for_status()] and
      [.json().get("response")]; the answer may depend on the calls so far *)
  requests_post : list event -> string -> payload -> Z -> outcome pyval;
  (** [ingest_docx(DOC_PATH)] *)
  ingest_docx : outcome (list chunk);
  (** [BM25Okapi(corpus)]; the index is its [get_scores] *)
  BM25Okapi : list (list string) -> outcome (list string -> list Q);
  (** [np.argsort] *)
  argsort : list Q -> list nat;
  (** [SentenceTransformer(name)]: the model loads, or the call raises *)
  SentenceTransformer : string -> outcome unit;
  (** [embedder.encode(text, normalize_embeddings=True)] *)
  encode : string -> list Q;
  (** what [embedder.encode(texts, normalize_embeddings=True)] raises on
      the texts of a corpus, if it does; its rows are otherwise the
      [encode] of the texts *)
  encode_raises : list string -> option exn;
  (** [np.dot] of two embeddings: a finite float, read as the rational
      it is *)
  np_dot : list Q -> list Q -> Q
}.

(** * The state and exception monad *)

Definition M (A : Type) : Type := World -> outcome A * World.

Definition ret {A} (a : A) : M A := fun w => (Ok a, w).

Definition raise {A} (e : exn) : M A := fun w => (Raise e, w).

Definition bind {A B} (m : M A) (k : A -> M B) : M B :=
  fun w =>
    match m w with
    | (Ok a, w') => k a w'
    | (Raise e, w') => (Raise e, w')
    end.

Definition lift {A} (o : outcome A) : M A := fun w => (o, w).

(** [try: body  except <catches>: handler] *)
Definition try_except {A} (body : M A) (catches : exn -> bool) (handler : M A)
  : M A :=
  fun w =>
    match body w with
    | (Ok a, w') => (Ok a, w')
    | (Raise e, w') => if catches e then handler w' else (Raise e, w')
    end.

Definition emit (e : event) : M unit := fun w => (Ok tt, log e w).

Notation "'do' x <- m ; k" := (bind m (fun x => k))
  (at level 10, x name, m at level 100, k at level 200).
Notation "'run' m ; k" := (bind m (fun _ => k))
  (at level 10, m at level 100, k at level 200).

Definition obind {A B} (o : outcome A) (k : A -> outcome B) : outcome B :=
  match o with
  | Ok a => k a
  | Raise e => Raise e
  end.

Fixpoint omapM {A B} (f : A -> outcome B) (l : list A) : outcome (list B) :=
  match l with
  | [] => Ok []
  | x :: r => obind (f x) (fun y => obind (omapM f r) (fun ys => Ok (y :: ys)))
  end.

Definition is_JSONDecodeError (e : exn) : bool :=
  match e with
  | JSONDecodeError => true
  | _ => false
  end.

(** [except Exception] *)
Definition any_Exception (e : exn) : bool := true.

(** * Generation and output recovery ([src/generator.py]) *)

Module Generator.
Import PyStr.

Definition _extract_json_object (text : string) : outcome string :=
  let start := find "{" text in
  let stop := rfind "}" text in
  if (start =? -1) || (stop =? -1) || (stop <=? start)
  then Raise (ValueError "No JSON object found in model response.")
  else Ok (slice text start (stop + 1)).

Section WithExternals.
Variable X : Externals.

(** [src/config.py]: the settings read from the environment. *)
Definition env_or (name dflt : string) : string :=
  match getenv X name with
  | Some v => v
  | None => dflt
  end.

Definition LLM_PROVIDER : string := lower (strip (env_or "LLM_PROVIDER" "ollama")).
Definition OLLAMA_BASE_URL : string := strip (env_or "OLLAMA_BASE_URL" "http://localhost:11434").
Definition OLLAMA_MODEL : string := strip (env_or "OLLAMA_MODEL" "llama3:8b").

(** [json.loads(s)] as a computation. *)
Definition loads (s : string) : M json := lift (json_loads X s).

(** [json.loads(_extract_json_object(text))], when both succeed. *)
Definition extract_loads (text : string) : option json :=
  match _extract_json_object text with
  | Ok extracted =>
      match json_loads X extracted with
      | Ok v => Some v
      | Raise _ => None
      end
  | Raise _ => None
  end.

Definition post (url : string) (body : payload) (timeout : Z) : M pyval :=
  fun w => (requests_post X (trace w) url body timeout, log (EvPost url body timeout) w).

Definition _llm_generate (prompt : string) (timeout : Z) (force_json : bool)
  : M string :=
  let provider := lower (if String.eqb LLM_PROVIDER "" then "ollama" else LLM_PROVIDER) in
  if String.eqb provider "ollama" then
    let body :=
      Payload OLLAMA_MODEL prompt false 0 "10m" 450 2048
              (if force_json then Some "json" else None) in
    do r <- post (OLLAMA_BASE_URL +:+ "/api/generate") body timeout;
    ret (strip (match r with VStr t => t | VNone => "" end))
  else raise (RuntimeError ("Unsupported LLM_PROVIDER: " +:+ provider)).

Definition repair_prompt (bad_text : string) : string :=
  strip (join nl
    [ "";
      "Fix the following into VALID JSON.";
      "";
      "Rules:";
      "- Output ONLY valid JSON (no markdown, no commentary).";
      "- Keep exactly these keys only: suggestions, follow_up_questions";
      "- suggestions must be a JSON array of exactly 5 objects, each with keys: title, why";
      "- follow_up_questions must be a JSON array of strings (3 to 7 items)";
      "- Use double quotes for all strings.";
      "- Escape any internal quotes inside strings.";
      "";
      "INPUT (may be invalid JSON):";
      bad_text;
      "" ]).

Definition _repair_json_with_llm (bad_text : string) : M string :=
  run emit (EvRepair bad_text);
  _llm_generate (repair_prompt bad_text) 120 false.

Definition MAX_CHUNK_CHARS : nat := 600.

Definition context_text (context_chunks : list chunk) : string :=
  join (nl +:+ nl)
    (map (fun c =>
            "[" +:+ py_str (get_default c "chunk_id" (VStr "")) +:+ "]" +:+ nl +:+
            take_chars MAX_CHUNK_CHARS (get_or_empty c "text"))
         context_chunks).

(** [json.dumps(schema_hint)] *)
Definition schema_hint_json : string :=
  let q s := dq +:+ s +:+ dq in
  "{" +:+ q "suggestions" +:+ ": [{" +:+ q "title" +:+ ": " +:+ q "string" +:+ ", " +:+
  q "why" +:+ ": " +:+ q "string" +:+ "}], " +:+ q "follow_up_questions" +:+ ": [" +:+
  q "string" +:+ "]}".

Definition generation_prompt (context_chunks : list chunk)
    (age_range income_type : string) : string :=
  strip (join nl
    [ "";
      "You are a mortgage broker assistant.";
      "Use ONLY the information in the CONTEXT. Do not add external rules.";
      "";
      "Return ONLY valid JSON. No markdown. No headings. No extra keys.";
      "Use double quotes for all JSON strings. Escape internal quotes.";
      "";
      "Profile:";
      "age_range: " +:+ age_range;
      "income_type: " +:+ income_type;
      "";
      "CONTEXT:";
      context_text context_chunks;
      "";
      "JSON schema example (types only):";
      schema_hint_json;
      "";
      "Requirements:";
      "- suggestions: exactly 5 items";
      "- follow_up_questions: 3 to 7 questions";
      "- Ground everything in the context";
      "" ]).

(** Lines 122-141 of [generate_with_llm]: the parse attempts on the
    raw answer and the single repair. *)
Definition recover (raw : string) : M json :=
  try_except (loads raw) is_JSONDecodeError
    (try_except
       (do extracted <- lift (_extract_json_object raw); loads extracted)
       any_Exception
       (do repaired <- _repair_json_with_llm raw;
        try_except (loads repaired) is_JSONDecodeError
          (do extracted <- lift (_extract_json_object repaired);
           loads extracted))).

Definition generate_with_llm (context_chunks : list chunk)
    (age_range income_type : string) : M json :=
  let context_chunks := PyList.slice_to 3 context_chunks in
  let prompt := generation_prompt context_chunks age_range income_type in
  do raw <- _llm_generate prompt 300 true;
  recover raw.

End WithExternals.

End Generator.

(** * Hybrid retrieval ([src/retrieval.py]) *)

Module Retrieval.
Import PyStr.

(** [x < y] on the tuples [(sim, idx)]: by [sim], then by [idx]. *)
Definition tuple_lt (x y : Q * nat) : bool :=
  match (fst x ?= fst y)%Q with
  | Lt => true
  | Eq => (snd x <? snd y)%nat
  | Gt => false
  end.

(** [scored.sort(reverse=True)]: descending, equal items keep their
    order. *)
Fixpoint insert_desc (x : Q * nat) (l : list (Q * nat)) : list (Q * nat) :=
  match l with
  | [] => [x]
  | y :: r => if tuple_lt x y then y :: insert_desc x r else x :: y :: r
  end.

Fixpoint sort_desc (l : list (Q * nat)) : list (Q * nat) :=
  match l with
  | [] => []
  | x :: r => insert_desc x (sort_desc r)
  end.

Definition text_of (c : chunk) : outcome pyval :=
  match c !! "text" with
  | Some v => Ok v
  | None => Raise (KeyError "text")
  end.

Definition tokens_of (t : pyval) : outcome (list string) :=
  match t with
  | VStr s => Ok (split (lower s))
  | VNone => Raise AttributeError
  end.

Definition text_string (t : pyval) : string :=
  match t with
  | VStr s => s
  | VNone => ""
  end.

Section WithExternals.
Variable X : Externals.

(** [embedder.encode(texts, normalize_embeddings=True)] *)
Definition encode_all (texts : list string) : outcome (list (list Q)) :=
  match encode_raises X texts with
  | Some e => Raise e
  | None => Ok (map (encode X) texts)
  end.

(** [HybridRetriever.__init__] *)
Definition new_retriever (chunks : list chunk) : outcome HybridRetriever :=
  obind (omapM text_of chunks) (fun texts =>
  obind (omapM tokens_of texts) (fun corpus =>
  obind (BM25Okapi X corpus) (fun bm25 =>
  obind (SentenceTransformer X "all-MiniLM-L6-v2") (fun _ =>
  obind (encode_all (map text_string texts)) (fun embeddings =>
  Ok (Retriever chunks texts bm25 embeddings)))))).

(** Steps 2 and 3 of [retrieve]: score the candidates, sort, cut. *)
Definition rank (self : HybridRetriever) (query : string) (top_k : Z)
    (bm25_top_idx : list nat) : outcome (list nat) :=
  let query_embedding := encode X query in
  obind (omapM (fun idx =>
                  match embeddings self !! idx with
                  | Some e => Ok (np_dot X query_embedding e, idx)
                  | None => Raise IndexError
                  end) bm25_top_idx) (fun scored =>
  let scored := sort_desc scored in
  Ok (map snd (PyList.slice_to top_k scored))).

Definition retrieve (self : HybridRetriever) (query : string)
    (top_k bm25_top_n : Z) : outcome (list chunk) :=
  let tokenized_query := split (lower query) in
  let bm25_scores := bm25 self tokenized_query in
  let bm25_top_idx := PyList.slice_from (- bm25_top_n) (argsort X bm25_scores) in
  obind (rank self query top_k bm25_top_idx) (fun top_indices =>
  omapM (fun i =>
           match chunks self !! i with
           | Some c => Ok c
           | None => Raise IndexError
           end) top_indices).

End WithExternals.

End Retrieval.

(** * The pipeline ([src/pipeline.py]) *)

Module Pipeline.
Import PyStr Config Assembler.

Record evidence : Type := Evidence {
  ev_chunk_id : pyval;
  text_excerpt : string;
  reason_used : string
}.

(** The dict [generate_pathfinder_suggestions] returns; the last two
    keys are present only on the insufficient-context paths. *)
Record result : Type := Result {
  profile : string * string;
  suggestions : json;
  follow_up_questions : json;
  retrieved_evidence : list evidence;
  insufficient_context : option bool;
  clarifying_questions : option (list string)
}.

Definition json_lookup (k : string) (fields : list (string * json)) : option json :=
  match List.find (fun kv => String.eqb (fst kv) k) fields with
  | Some kv => Some (snd kv)
  | None => None
  end.

(** [gen.get(k, [])] *)
Definition gen_get (gen : json) (k : string) : outcome json :=
  match gen with
  | JObj fields =>
      match json_lookup k fields with
      | Some v => Ok v
      | None => Ok (JArr [])
      end
  | _ => Raise AttributeError
  end.

(** [v[:5]] *)
Definition first_five (v : json) : outcome json :=
  match v with
  | JArr l => Ok (JArr (firstn 5 l))
  | JStr s => Ok (JStr (take_chars 5 s))
  | _ => Raise TypeError
  end.

Definition evidence_of (c : chunk) : evidence :=
  Evidence (get_default c "chunk_id" (VStr ""))
           (match c !! "text" with
            | Some (VStr t) =>
                if String.eqb t "" then "" else take_chars 300 t +:+ "..."
            | _ => ""
            end)
           "Retrieved as relevant to the provided age range and/or income type".

Definition invalid_profile_questions : list string :=
  [ "Can you confirm the client’s age range from the supported options ("
      +:+ join ", " SUPPORTED_AGE_RANGES +:+ ")?";
    "Can you confirm which income type best matches the client’s primary income ("
      +:+ join ", " SUPPORTED_INCOME_TYPES +:+ ")?" ].

Definition no_evidence_questions : list string :=
  [ "I couldn’t retrieve relevant sections from the training document for this profile. Can you confirm the age range?";
    "Can you confirm which income type best matches the client’s primary income?" ].

Section WithExternals.
Variable X : Externals.

Definition _load_retriever : M (HybridRetriever * option (list chunk)) :=
  fun w =>
    match _retriever_cache w with
    | Some r => (Ok (r, _chunks_cache w), w)
    | None =>
        let w1 := log EvIngest w in
        match ingest_docx X with
        | Raise e => (Raise e, w1)
        | Ok cs =>
            let w2 := log EvBuildRetriever
                          (MkWorld (Some cs) (_retriever_cache w1) (trace w1)) in
            match Retrieval.new_retriever X cs with
            | Raise e => (Raise e, w2)
            | Ok r =>
                (Ok (r, Some cs), MkWorld (Some cs) (Some r) (trace w2))
            end
        end
    end.

Definition call_retrieve (r : HybridRetriever) (query : string)
    (top_k bm25_top_n : Z) : M (list chunk) :=
  run emit (EvRetrieve query top_k bm25_top_n);
  lift (Retrieval.retrieve X r query top_k bm25_top_n).

Definition generate_pathfinder_suggestions (age_range income_type : string)
  : M result :=
  let result0 := Result (age_range, income_type) (JArr []) (JArr []) [] None None in
  if negb (bool_decide (age_range ∈ SUPPORTED_AGE_RANGES))
     || negb (bool_decide (income_type ∈ SUPPORTED_INCOME_TYPES))
  then
    ret (Result (profile result0) (suggestions result0) (follow_up_questions result0)
                (retrieved_evidence result0) (Some true)
                (Some invalid_profile_questions))
  else
    do loaded <- _load_retriever;
    let retriever := fst loaded in
    let age_q := join " " (_age_variants age_range) in
    let query := "Age range " +:+ age_q +:+ " Age " +:+ age_q +:+
                 " Income Type " +:+ income_type in
    do retrieved <- call_retrieve retriever query TOP_K BM25_TOP_N;
    match retrieved with
    | [] =>
        ret (Result (profile result0) (suggestions result0)
                    (follow_up_questions result0) (retrieved_evidence result0)
                    (Some true) (Some no_evidence_questions))
    | _ =>
        match snd loaded with
        | None => raise TypeError
        | Some all_chunks =>
            let age_chunk := _best_chunk_by_text all_chunks (_age_variants age_range) in
            let income_chunk :=
              match _best_chunk_by_text all_chunks [income_type] with
              | Some c => Some c
              | None => _best_chunk_by_text all_chunks ["income type"]
              end in
            let rationale_chunk :=
              _best_chunk_by_text all_chunks ["what is your age range"] in
            let retrieved_filtered :=
              List.filter (fun c => negb (_is_other_age_chunk c age_range)) retrieved in
            let final_context :=
              _safe_context_set retrieved_filtered age_chunk income_chunk
                                rationale_chunk TOP_K in
            do gen <- Generator.generate_with_llm X final_context age_range income_type;
            do sugg <- lift (obind (gen_get gen "suggestions") first_five);
            do fups <- lift (gen_get gen "follow_up_questions");
            ret (Result (profile result0) sugg fups
                        (map evidence_of final_context) None None)
        end
    end.

End WithExternals.

End Pipeline.

(** * A decoder to run the examples

    [json.loads] is a parameter of the development.  To run the cascade
    on concrete texts the examples use this decoder of a fragment of
    JSON: objects, arrays, strings with the one-letter escapes, integers
    and the three literals.  On a text with a fraction, an exponent or a
    [\u] escape it fails. *)

Module JsonText.

Definition is_ws (c : ascii) : bool :=
  let n := nat_of_ascii c in
  (n =? 32)%nat || (n =? 9)%nat || (n =? 10)%nat || (n =? 13)%nat.

Fixpoint skip_ws (s : string) : string :=
  match s with
  | "" => ""
  | String c r => if is_ws c then skip_ws r else s
  end.

Definition is_digit (c : ascii) : bool :=
  let n := nat_of_ascii c in (48 <=? n)%nat && (n <=? 57)%nat.

Definition digit_value (c : ascii) : Z := Z.of_nat (nat_of_ascii c) - 48.

Definition unescape (c : ascii) : option ascii :=
  let n := nat_of_ascii c in
  if (n =? 34)%nat then Some c
  else if (n =? 92)%nat then Some c
  else if (n =? 47)%nat then Some c
  else if (n =? 98)%nat then Some (ascii_of_nat 8)
  else if (n =? 102)%nat then Some (ascii_of_nat 12)
  else if (n =? 110)%nat then Some (ascii_of_nat 10)
  else if (n =? 114)%nat then Some (ascii_of_nat 13)
  else if (n =? 116)%nat then Some (ascii_of_nat 9)
  else None.

(** The text after an opening quote: the string and what follows its
    closing quote. *)
Fixpoint parse_string (s acc : string) : option (string * string) :=
  match s with
  | "" => None
  | String c r =>
      let n := nat_of_ascii c in
      if (n =? 34)%nat then Some (acc, r)
      else if (n =? 92)%nat then
        match r with
        | "" => None
        | String e r' =>
            match unescape e with
            | Some ch => parse_string r' (acc +:+ String ch "")
            | None => None
            end
        end
      else if (n <? 32)%nat then None
      else parse_string r (acc +:+ String c "")
  end.

Fixpoint parse_digits (s : string) (acc : Z) : Z * string :=
  match s with
  | "" => (acc, "")
  | String c r => if is_digit c then parse_digits r (10 * acc + digit_value c) else (acc, s)
  end.

Definition starts_fraction (s : string) : bool :=
  match s with
  | "" => false
  | String c _ =>
      let n := nat_of_ascii c in (n =? 46)%nat || (n =? 101)%nat || (n =? 69)%nat
  end.

(** An integer without its sign. *)
Definition parse_natural (s : string) : option (Z * string) :=
  match s with
  | "" => None
  | String c r =>
      if negb (is_digit c) then None
      else
        let '(n, rest) := if (nat_of_ascii c =? 48)%nat then (0, r)
                          else parse_digits s 0 in
        if starts_fraction rest then None else Some (n, rest)
  end.

(** [d[k] = v] on the items of a dict. *)
Fixpoint dict_set (k : string) (v : json) (fields : list (string * json))
  : list (string * json) :=
  match fields with
  | [] => [(k, v)]
  | (k', v') :: r =>
      if String.eqb k' k then (k', v) :: r else (k', v') :: dict_set k v r
  end.

Fixpoint parse_value (fuel : nat) (s : string) : option (json * string) :=
  match fuel with
  | O => None
  | S f =>
      match skip_ws s with
      | "" => None
      | String c r as t =>
          let n := nat_of_ascii c in
          if (n =? 123)%nat then
            match skip_ws r with
            | String c' r' =>
                if (nat_of_ascii c' =? 125)%nat then Some (JObj [], r')
                else parse_members f r []
            | "" => None
            end
          else if (n =? 91)%nat then
            match skip_ws r with
            | String c' r' =>
                if (nat_of_ascii c' =? 93)%nat then Some (JArr [], r')
                else parse_elems f r []
            | "" => None
            end
          else if (n =? 34)%nat then
            match parse_string r "" with
            | Some (str, r') => Some (JStr str, r')
            | None => None
            end
          else if String.prefix "true" t then Some (JBool true, PyStr.drop 4 t)
          else if String.prefix "false" t then Some (JBool false, PyStr.drop 5 t)
          else if String.prefix "null" t then Some (JNull, PyStr.drop 4 t)
          else if (n =? 45)%nat then
            match parse_natural r with
            | Some (z, r') => Some (JNum (- z), r')
            | None => None
            end
          else
            match parse_natural t with
            | Some (z, r') => Some (JNum z, r')
            | None => None
            end
      end
  end
with parse_elems (fuel : nat) (s : string) (acc : list json)
  : option (json * string) :=
  match fuel with
  | O => None
  | S f =>
      match parse_value f s with
      | None => None
      | Some (v, r) =>
          match skip_ws r with
          | "" => None
          | String c r' =>
              if (nat_of_ascii c =? 44)%nat then parse_elems f r' (acc ++ [v])
              else if (nat_of_ascii c =? 93)%nat then Some (JArr (acc ++ [v]), r')
              else None
          end
      end
  end
with parse_members (fuel : nat) (s : string) (acc : list (string * json))
  : option (json * string) :=
  match fuel with
  | O => None
  | S f =>
      match skip_ws s with
      | "" => None
      | String c r =>
          if negb (nat_of_ascii c =? 34)%nat then None
          else
            match parse_string r "" with
            | None => None
            | Some (k, r1) =>
                match skip_ws r1 with
                | "" => None
                | String c1 r2 =>
                    if negb (nat_of_ascii c1 =? 58)%nat then None
                    else
                      match parse_value f r2 with
                      | None => None
                      | Some (v, r3) =>
                          match skip_ws r3 with
                          | "" => None
                          | String c3 r4 =>
                              if (nat_of_ascii c3 =? 44)%nat
                              then parse_members f r4 (dict_set k v acc)
                              else if (nat_of_ascii c3 =? 125)%nat
                              then Some (JObj (dict_set k v acc), r4)
                              else None
                          end
                      end
                end
            end
      end
  end.

Definition decode (s : string) : option json :=
  match parse_value (2 * String.length s + 2) s with
  | Some (v, rest) => if String.eqb (skip_ws rest) "" then Some v else None
  | None => None
  end.

End JsonText.

(** * Instances of the external code, to run the examples *)

Module Examples.

Definition is_post (e : event) : bool :=
  match e with
  | EvPost _ _ _ => true
  | _ => false
  end.

(** A backend that gives the listed answers, one per request, and
    fails when the list is used up. *)
Definition scripted (answers : list (outcome pyval))
  : list event -> string -> payload -> Z -> outcome pyval :=
  fun tr _ _ _ =>
    match nth_error answers (length (List.filter is_post tr)) with
    | Some a => a
    | None => Raise RequestException
    end.

(** A lexical scorer: how many query tokens the document has. *)
Definition overlap (query doc : list string) : Q :=
  inject_Z (Z.of_nat (length (List.filter (fun t => existsb (String.eqb t) doc) query))).

(** Like [BM25Okapi], which divides by the size of the corpus, the
    index refuses an empty corpus. *)
Definition overlap_index (corpus : list (list string))
  : outcome (list string -> list Q) :=
  match corpus with
  | [] => Raise ZeroDivisionError
  | _ => Ok (fun query => map (overlap query) corpus)
  end.

Fixpoint insert_asc (x : Q * nat) (l : list (Q * nat)) : list (Q * nat) :=
  match l with
  | [] => [x]
  | y :: r =>
      match (fst y ?= fst x)%Q with
      | Gt => x :: y :: r
      | _ => y :: insert_asc x r
      end
  end.

(** An ascending argsort that keeps equal scores in index order. *)
Definition stable_argsort (scores : list Q) : list nat :=
  map snd (fold_left (fun acc x => insert_asc x acc)
                     (combine scores (seq 0 (length scores))) []).

(** The decoder of the examples as [json.loads]. *)
Definition loads_text (s : string) : outcome json :=
  match JsonText.decode s with
  | Some v => Ok v
  | None => Raise JSONDecodeError
  end.

(** The dot product, exact on the small vectors of the examples. *)
Fixpoint dot (u v : list Q) : Q :=
  match u, v with
  | a :: u', b :: v' => (a * b + dot u' v')%Q
  | _, _ => 0%Q
  end.

Definition externals (answers : list (outcome pyval)) (corpus : list chunk)
    (embed : string -> list Q) : Externals :=
  {| getenv := fun _ => None;
     json_loads := loads_text;
     requests_post := scripted answers;
     ingest_docx := Ok corpus;
     BM25Okapi := overlap_index;
     argsort := stable_argsort;
     SentenceTransformer := fun _ => Ok tt;
     encode := embed;
     encode_raises := fun _ => None;
     np_dot := dot |}.

Definition world0 : World := MkWorld None None [].

(** A chunk that names the requested band and another one. *)
Definition chunk_mixed : chunk :=
  mk_chunk "misc_01" "Overview" "Clients aged 18-24 or 55-64".

Definition chunk_55 : chunk :=
  mk_chunk "age_55_64_01" "Age 55-64" "Clients 55-64 plan for retirement.".

Definition chunk_age : chunk :=
  mk_chunk "age_18_24_01" "Age 18-24" "Clients 18-24 are often first-time buyers.".

Definition chunk_income : chunk :=
  mk_chunk "income_type_01" "Income Type" "Commission income varies by month.".

Definition chunk_rationale : chunk :=
  mk_chunk "misc_02" "What is your age range" "The age range shapes the advice.".

Definition chunk_general : chunk :=
  mk_chunk "misc_03" "Deposits" "A larger deposit lowers the rate.".

Definition chunk_no_id : chunk :=
  <["heading" := VStr "Notes"]> (<["text" := VStr "Untitled notes."]> ∅).

(** The range spelled with an em dash, then with a hyphen. *)
Definition chunk_em : chunk :=
  mk_chunk "age_18_24_01" "Young clients" "Clients 18—24 usually rent.".

Definition chunk_hy : chunk :=
  mk_chunk "age_18_24_02" "Young clients, again" "Clients 18-24 save for a deposit.".

(** No backend answers, an empty corpus, every text embedded alike. *)
Definition X0 : Externals := externals [] [] (fun _ => [1%Q]).

(** A backend whose repair is no better than the raw answer. *)
Definition X_garbage : Externals :=
  externals [Ok (VStr "still not json")] [] (fun _ => [1%Q]).

(** A backend whose repair is well formed. *)
Definition X_repaired : Externals :=
  externals [Ok (VStr "[1, 2]")] [] (fun _ => [1%Q]).

(** A retriever over two chunks that score alike. *)
Definition retriever2 : HybridRetriever :=
  Retriever [chunk_age; chunk_hy]
            [VStr "Clients 18-24 are often first-time buyers.";
             VStr "Clients 18-24 save for a deposit."]
            (fun _ => [0%Q; 0%Q])
            [[1%Q]; [1%Q]].

(** The text of the escalation example of the specification. *)
Definition garbage_object : string :=
  "garbage before {" +:+ PyStr.dq +:+ "title" +:+ PyStr.dq +:+ ":" +:+
  PyStr.dq +:+ "x" +:+ PyStr.dq +:+ "} garbage after".

End Examples.

(** * The vocabulary of the properties *)

Module Props.
Import Assembler.

(** The identifier [add] files a chunk under, when it has one. *)
Definition chunk_id_of (c : chunk) : option string :=
  match c !! "chunk_id" with
  | Some (VStr cid) => if String.eqb cid "" then None else Some cid
  | _ => None
  end.

(** The chunks of [l] that have an identifier not met before, in the
    order of [l]. *)
Fixpoint dedup_ids (l : list chunk) (seen : gset string) : list chunk :=
  match l with
  | [] => []
  | c :: r =>
      match chunk_id_of c with
      | Some cid =>
          if bool_decide (cid ∈ seen) then dedup_ids r seen
          else c :: dedup_ids r ({[cid]} ∪ seen)
      | None => dedup_ids r seen
      end
  end.

(** The priority chunks that were found, in the order age, income,
    rationale. *)
Definition found (age_chunk income_chunk rationale_chunk : option chunk)
  : list chunk :=
  omap id [age_chunk; income_chunk; rationale_chunk].

(** [sub] occurs in [s]. *)
Definition mentions (sub s : string) : Prop :=
  exists a b, s = a +:+ sub +:+ b.

(** In [tops], of two entries with the same score the one with the
    smaller index comes first. *)
Definition ties_ascending (sim : nat -> Q) (tops : list nat) : Prop :=
  forall p q i j,
    tops !! p = Some i -> tops !! q = Some j ->
    (sim i == sim j)%Q -> (i < j)%nat -> (p < q)%nat.

(** In [tops], of two entries with the same score the one with the
    larger index comes first. *)
Definition ties_descending (sim : nat -> Q) (tops : list nat) : Prop :=
  forall p q i j,
    tops !! p = Some i -> tops !! q = Some j ->
    (sim i == sim j)%Q -> (j < i)%nat -> (p < q)%nat.

(** The scores do not increase along [tops]. *)
Definition scores_descending (sim : nat -> Q) (tops : list nat) : Prop :=
  forall p q i j,
    tops !! p = Some i -> tops !! q = Some j ->
    (p < q)%nat -> (sim j <= sim i)%Q.

(** [x >= y] on the tuples [(sim, idx)]. *)
Definition tuple_ge (x y : Q * nat) : Prop :=
  (fst y < fst x)%Q \/ ((fst x == fst y)%Q /\ (snd y <= snd x)%nat).

(** The similarity [retrieve] gives the chunk at [idx]. *)
Definition sim_of (X : Externals) (self : HybridRetriever) (query : string)
    (idx : nat) : Q :=
  match embeddings self !! idx with
  | Some e => np_dot X (encode X query) e
  | None => 0%Q
  end.

(** The candidates of the semantic step: the last [bm25_top_n]
    positions of the lexical order. *)
Definition candidates (X : Externals) (self : HybridRetriever) (query : string)
    (bm25_top_n : Z) : list nat :=
  PyList.slice_from (- bm25_top_n)
    (argsort X (bm25 self (PyStr.split (PyStr.lower query)))).

Definition is_str (v : json) : bool :=
  match v with
  | JStr _ => true
  | _ => false
  end.

Definition is_suggestion (v : json) : bool :=
  match v with
  | JObj fields =>
      match Pipeline.json_lookup "title" fields, Pipeline.json_lookup "why" fields with
      | Some t, Some y => is_str t && is_str y
      | _, _ => false
      end
  | _ => false
  end.

(** The schema of the specification: an object with only the keys
    [suggestions] and [follow_up_questions], the first a sequence of
    objects with string [title] and [why], the second a sequence of
    strings. *)
Definition schema_valid (v : json) : bool :=
  match v with
  | JObj fields =>
      forallb (fun kv => String.eqb (fst kv) "suggestions"
                         || String.eqb (fst kv) "follow_up_questions") fields
      && match Pipeline.json_lookup "suggestions" fields with
         | Some (JArr items) => forallb is_suggestion items
         | _ => false
         end
      && match Pipeline.json_lookup "follow_up_questions" fields with
         | Some (JArr items) => forallb is_str items
         | _ => false
         end
  | _ => false
  end.

Definition repairs (tr : list event) : nat :=
  length (List.filter (fun e => match e with EvRepair _ => true | _ => false end) tr).

(** The identifiers of the chunks of [l]. *)
Definition id_set (l : list chunk) : gset string :=
  list_to_set (omap chunk_id_of l).

Fixpoint char_in (c : ascii) (s : string) : bool :=
  match s with
  | "" => false
  | String x r => bool_decide (c = x) || char_in c r
  end.

(** No character of [lit] occurs in [old]. *)
Fixpoint apart (lit old : string) : bool :=
  match lit with
  | "" => true
  | String c r => negb (char_in c old) && apart r old
  end.

(** A literal that normalization leaves as it is, wherever it
    stands: no capital, and no character of a dash variant or of
    [" to "]. *)
Definition plain (lit : string) : bool :=
  String.eqb (PyStr.lower lit) lit && negb (String.eqb lit "")
  && forallb (apart lit) (" to " :: dash_variants).

(** The heading and the text of a chunk as the matcher prints them. *)
Definition shown (c : chunk) (k : string) : string :=
  py_str (get_default c k (VStr "")).

(** The fill list of the pipeline: the retrieved chunks the leakage
    filter keeps. *)
Definition retrieved_filtered (age_range : string) (retrieved : list chunk)
  : list chunk :=
  List.filter (fun c => negb (_is_other_age_chunk c age_range)) retrieved.

(** ** The claims that do not hold, as they are worded *)

(** A chunk whose text has the literal 55-64 is in the context of a
    query for 18-24 only as a priority chunk. *)
Definition leakage_55_64_claim : Prop :=
  forall (c : chunk) (t : string) (retrieved : list chunk)
         (a i r : option chunk),
    c !! "text" = Some (VStr t) -> mentions "55-64" t ->
    c ∈ _safe_context_set (retrieved_filtered "18-24" retrieved) a i r Config.TOP_K ->
    Some c = a \/ Some c = i \/ Some c = r.

(** At most [top_k] entries, no identifier twice, the found priority
    chunks first, then entries in the order of the fill list. *)
Definition priority_first_claim (retrieved : list chunk)
    (a i r : option chunk) (top_k : Z) : Prop :=
  let ctx := _safe_context_set retrieved a i r top_k in
  Z.of_nat (length ctx) <= top_k /\
  NoDup ((fun c : chunk => c !! "chunk_id") <$> ctx) /\
  exists rest, ctx = found a i r ++ rest /\ sublist rest retrieved.

(** Ties in the ranking go to the smaller index. *)
Definition ties_ascending_claim (X : Externals) : Prop :=
  forall self query top_k idxs tops,
    Retrieval.rank X self query top_k idxs = Ok tops ->
    ties_ascending (sim_of X self query) tops.

(** The age chunk of the specification: dashes and the [to] phrasing
    are collapsed on both sides before the search, and the first
    chunk that has the requested range wins. *)
Definition spec_age_chunk (chunks : list chunk) (age_range : string)
  : option chunk :=
  List.find (fun c => PyStr.contains (_normalize_age_text age_range)
                                     (_normalize_age_text (heading_text c)))
            chunks.

(** A chunk carries an accepted variant of the range in its heading
    or in its text, whatever the case of the letters. *)
Definition accepts (age_range : string) (c : chunk) : Prop :=
  exists v, v ∈ _age_variants age_range /\
    (mentions (PyStr.lower v) (PyStr.lower (shown c "heading")) \/
     mentions (PyStr.lower v) (PyStr.lower (shown c "text"))).

Definition age_chunk_claim : Prop :=
  forall chunks age_range,
    age_range ∈ Config.SUPPORTED_AGE_RANGES ->
    _best_chunk_by_text chunks (_age_variants age_range) =
    spec_age_chunk chunks age_range.

End Props.


(** * More vocabulary: what a call sees, and more instances *)

Module Views.
Import PyStr.

(** What the prompt shows of a context chunk: the printed identifier
    and the first 600 characters of the text. *)
Definition prompt_view (c : chunk) : string * string :=
  (py_str (get_default c "chunk_id" (VStr "")),
   take_chars Generator.MAX_CHUNK_CHARS (get_or_empty c "text")).

(** The environment of [X] with one more variable set. *)
Definition with_env (name value : string) (X : Externals) : Externals :=
  {| getenv := fun n => if String.eqb n name then Some value else getenv X n;
     json_loads := json_loads X;
     requests_post := requests_post X;
     ingest_docx := ingest_docx X;
     BM25Okapi := BM25Okapi X;
     argsort := argsort X;
     SentenceTransformer := SentenceTransformer X;
     encode := encode X;
     encode_raises := encode_raises X;
     np_dot := np_dot X |}.

(** A deployment configured for a backend the code does not have. *)
Definition X_openai : Externals := with_env "LLM_PROVIDER" " OpenAI " Examples.X0.

(** A backend that is down. *)
Definition X_down : Externals :=
  Examples.externals [Raise RequestException] [] (fun _ => [1%Q]).

(** A backend that answers once and is down for the repair. *)
Definition X_down_later : Externals :=
  Examples.externals [Ok (VStr "not json"); Raise RequestException] []
                     (fun _ => [1%Q]).

(** The kinds of calls in a trace. *)
Definition is_ingest (e : event) : bool :=
  match e with EvIngest => true | _ => false end.

Definition is_build (e : event) : bool :=
  match e with EvBuildRetriever => true | _ => false end.

Definition is_retrieve (e : event) : bool :=
  match e with EvRetrieve _ _ _ => true | _ => false end.

Definition is_repair (e : event) : bool :=
  match e with EvRepair _ => true | _ => false end.

Definition count (p : event -> bool) (tr : list event) : nat :=
  length (List.filter p tr).

(** The query [generate_pathfinder_suggestions] sends to the retriever. *)
Definition query_of (age_range income_type : string) : string :=
  let age_q := join " " (Assembler._age_variants age_range) in
  "Age range " +:+ age_q +:+ " Age " +:+ age_q +:+ " Income Type " +:+ income_type.

(** The context [generate_pathfinder_suggestions] assembles from the
    corpus and the retrieved chunks. *)
Definition final_context_of (all_chunks retrieved : list chunk)
    (age_range income_type : string) : list chunk :=
  Assembler._safe_context_set
    (Props.retrieved_filtered age_range retrieved)
    (Assembler._best_chunk_by_text all_chunks (Assembler._age_variants age_range))
    (match Assembler._best_chunk_by_text all_chunks [income_type] with
     | Some c => Some c
     | None => Assembler._best_chunk_by_text all_chunks ["income type"]
     end)
    (Assembler._best_chunk_by_text all_chunks ["what is your age range"])
    Config.TOP_K.

(** The result on the two insufficient-context paths. *)
Definition insufficient (age_range income_type : string)
    (questions : list string) : Pipeline.result :=
  Pipeline.Result (age_range, income_type) (JArr []) (JArr []) []
                  (Some true) (Some questions).

(** What the pipeline relies on of rank_bm25 and numpy: [BM25Okapi]
    divides by the size of the corpus and so refuses an empty one, an
    index scores every document of its corpus, and [np.argsort] lists
    the positions of the scores, each once. *)
Definition documented (X : Externals) : Prop :=
  BM25Okapi X [] = Raise ZeroDivisionError /\
  (forall corpus index query,
     BM25Okapi X corpus = Ok index -> length (index query) = length corpus) /\
  (forall scores, argsort X scores ≡ₚ seq 0 (length scores)).

(** A corpus whose ingestion fails. *)
Definition X_no_document : Externals :=
  {| getenv := fun _ => None;
     json_loads := Examples.loads_text;
     requests_post := Examples.scripted [];
     ingest_docx := Raise OSError;
     BM25Okapi := Examples.overlap_index;
     argsort := Examples.stable_argsort;
     SentenceTransformer := fun _ => Ok tt;
     encode := fun _ => [1%Q];
     encode_raises := fun _ => None;
     np_dot := Examples.dot |}.

(** A small corpus, and a backend that answers with a JSON list. *)
Definition corpus4 : list chunk :=
  [Examples.chunk_55; Examples.chunk_age; Examples.chunk_income;
   Examples.chunk_rationale].

Definition X_list : Externals :=
  Examples.externals [Ok (VStr "[1, 2]")] corpus4 (fun _ => [1%Q]).

(** A backend that answers with an object holding six suggestions. *)
Definition six_suggestions : string :=
  "{" +:+ dq +:+ "suggestions" +:+ dq +:+ ": [1, 2, 3, 4, 5, 6], " +:+
  dq +:+ "follow_up_questions" +:+ dq +:+ ": []}".

Definition X_six : Externals :=
  Examples.externals [Ok (VStr six_suggestions)] corpus4 (fun _ => [1%Q]).

End Views.

(** * Ingestion ([src/ingest.py]) *)

Module Ingest.
Import PyStr.

(** What python-docx gives of a paragraph: the name of its style
    ([None] when the paragraph has no style, or the style no name), its
    text, and for each run whether it is bold ([r.bold] is [True],
    [False] or [None]). *)
Record paragraph : Type := Paragraph {
  style_name : option string;
  para_text : string;
  runs : list (option bool)
}.

(** [len(s)]: the characters of [s], not its bytes. *)
Fixpoint len_chars (s : string) : nat :=
  match s with
  | "" => O
  | String c r => if is_continuation c then len_chars r else S (len_chars r)
  end.

(** [sum(1 for r in runs if r.bold)] *)
Definition bold_runs (rs : list (option bool)) : nat :=
  length (List.filter (fun b => match b with Some true => true | _ => false end) rs).

(** The ratio [bold_runs / len(runs)] is compared with [0.6] as a
    rational. *)
Definition _is_heading (p : paragraph) : bool :=
  if match style_name p with
     | Some name =>
         negb (String.eqb name "") && String.prefix "heading" (lower name)
     | None => false
     end
  then true
  else
    let text := strip (para_text p) in
    if String.eqb text "" then false
    else
      match runs p with
      | [] => false
      | rs =>
          (3 * length rs <? 5 * bold_runs rs)%nat && (len_chars text <? 80)%nat
      end.

(** The three calls of the module [re]. *)
Record ReLib : Type := {
  (** [re.sub(r"\s+", " ", t)] *)
  sub_spaces : string -> string;
  (** [re.search] of the pattern of the five bands: groups 1 and 2 *)
  search_band : string -> option (string * string);
  (** whether [re.search] of the pattern of [65+] finds a match *)
  search_65_plus : string -> bool
}.

Definition dashes : list string := ["–"; "—"; "−"; "‒"; "―"].

(** [f"{n:02d}"] *)
Definition fmt02 (n : nat) : string :=
  let s := NilEmpty.string_of_uint (Nat.to_uint n) in
  if (String.length s <? 2)%nat then "0" +:+ s else s.

(** The locals of [ingest_docx] that the loop and [add_chunk] update. *)
Record state : Type := State {
  chunks : list chunk;
  current_heading : option string;
  current_text : list string;
  counters : gmap string nat
}.

(** [if current_heading and current_text] *)
Definition open_section (st : state) : option string :=
  match current_heading st, current_text st with
  | Some h, _ :: _ => if String.eqb h "" then None else Some h
  | _, _ => None
  end.

Section WithRe.
Variable R : ReLib.

Definition _normalize_text (text : string) : string :=
  let t := strip (lower text) in
  let t := fold_left (fun t ch => replace ch "-" t) dashes t in
  sub_spaces R t.

Definition _extract_age_band (text : string) : option string :=
  let t := _normalize_text text in
  match search_band R t with
  | Some (g1, g2) => Some (g1 +:+ "_" +:+ g2)
  | None => if search_65_plus R t then Some "65_plus" else None
  end.

Definition _semantic_prefix (heading body : string) : string :=
  let combined := _normalize_text (heading +:+ " " +:+ body) in
  let otherwise :=
    if contains "income type" combined then "income_type" else "misc" in
  match _extract_age_band combined with
  | Some age_band =>
      if String.eqb age_band "" then otherwise else "age_" +:+ age_band
  | None => otherwise
  end.

(** The inner function [add_chunk]: it appends to [chunks] and counts
    in [counters], a [defaultdict(int)]. *)
Definition add_chunk (heading : string) (text_parts : list string) (st : state)
  : state :=
  let full_text := strip (join " " text_parts) in
  if String.eqb full_text "" then st
  else
    let prefix := _semantic_prefix heading full_text in
    let n := S (default O (counters st !! prefix)) in
    State (chunks st ++ [mk_chunk (prefix +:+ "_" +:+ fmt02 n) heading full_text])
          (current_heading st) (current_text st)
          (<[prefix := n]> (counters st)).

(** One round of the loop over the paragraphs. *)
Definition step (st : state) (para : paragraph) : state :=
  let text := strip (para_text para) in
  if String.eqb text "" then st
  else if _is_heading para then
    let st :=
      match open_section st with
      | Some h =>
          let st := add_chunk h (current_text st) st in
          State (chunks st) (current_heading st) [] (counters st)
      | None => st
      end in
    State (chunks st) (Some text) (current_text st) (counters st)
  else
    let heading :=
      match current_heading st with
      | None => Some "Untitled Section"
      | Some h => Some h
      end in
    State (chunks st) heading (current_text st ++ [text]) (counters st).

(** [ingest_docx], on the paragraphs of the document. *)
Definition ingest_docx (paragraphs : list paragraph) : list chunk :=
  let st := fold_left step paragraphs (State [] None [] ∅) in
  let st :=
    match open_section st with
    | Some h => add_chunk h (current_text st) st
    | None => st
    end in
  chunks st.

End WithRe.

(** ** The three patterns on ASCII text

    [\s] is the white space of one byte, [\w] the ASCII letters,
    digits and the underscore; a byte above 127 is taken for neither. *)

Definition is_word (c : ascii) : bool :=
  let n := nat_of_ascii c in
  ((48 <=? n)%nat && (n <=? 57)%nat) || ((65 <=? n)%nat && (n <=? 90)%nat)
  || ((97 <=? n)%nat && (n <=? 122)%nat) || (n =? 95)%nat.

(** [re.sub(r"\s+", " ", t)]: every run of white space becomes one
    space. *)
Fixpoint collapse (in_run : bool) (s : string) : string :=
  match s with
  | "" => ""
  | String c r =>
      if is_space c
      then (if in_run then collapse true r else String " " (collapse true r))
      else String c (collapse false r)
  end.

(** The first of the literals that [s] starts with, and what follows. *)
Fixpoint match_one (lits : list string) (s : string) : option (string * string) :=
  match lits with
  | [] => None
  | l :: rest =>
      if String.prefix l s then Some (l, drop (String.length l) s)
      else match_one rest s
  end.

Definition next_is_word (s : string) : bool :=
  match s with
  | "" => false
  | String c _ => is_word c
  end.

(** A match of [(18|25|35|45|55)\s*-\s*(24|34|44|54|64)\b] at the
    start of [s]. *)
Definition band_at (s : string) : option (string * string) :=
  match match_one ["18"; "25"; "35"; "45"; "55"] s with
  | Some (g1, r1) =>
      match lstrip r1 with
      | String "-" r2 =>
          match match_one ["24"; "34"; "44"; "54"; "64"] (lstrip r2) with
          | Some (g2, r3) => if next_is_word r3 then None else Some (g1, g2)
          | None => None
          end
      | _ => None
      end
  | None => None
  end.

(** A match of [65\s*\+\b] at the start of [s]: after the plus sign,
    which is no word character, [\b] asks for a word character. *)
Definition plus_at (s : string) : bool :=
  match match_one ["65"] s with
  | Some (_, r1) =>
      match lstrip r1 with
      | String "+" r2 => next_is_word r2
      | _ => false
      end
  | None => false
  end.

(** [re.search]: the leftmost position where the pattern matches after
    a word boundary; [prev_word] tells whether the character before
    [s] is a word character. *)
Fixpoint search_band_from (prev_word : bool) (s : string)
  : option (string * string) :=
  match (if prev_word then None else band_at s) with
  | Some g => Some g
  | None =>
      match s with
      | "" => None
      | String c r => search_band_from (is_word c) r
      end
  end.

Fixpoint search_plus_from (prev_word : bool) (s : string) : bool :=
  (negb prev_word && plus_at s) ||
  match s with
  | "" => false
  | String c r => search_plus_from (is_word c) r
  end.

Definition re_ascii : ReLib :=
  {| sub_spaces := collapse false;
     search_band := search_band_from false;
     search_65_plus := search_plus_from false |}.

End Ingest.

(** * The vocabulary of the properties of ingestion *)

Module IngestViews.
Import PyStr Ingest.

(** A text with a first and a last character that are no white
    space. *)
Definition trimmed (s : string) : Prop :=
  s <> "" /\ lstrip s = s /\ rstrip s = s.

(** The paragraphs the loop skips. *)
Definition is_blank (p : paragraph) : bool :=
  String.eqb (strip (para_text p)) "".

Definition stripped_text (p : paragraph) : string := strip (para_text p).

(** The texts of the body paragraphs and of the headings, in the order
    of the document. *)
Definition body_texts (paras : list paragraph) : list string :=
  map stripped_text
      (List.filter (fun p => negb (is_blank p) && negb (_is_heading p)) paras).

Definition heading_texts (paras : list paragraph) : list string :=
  map stripped_text
      (List.filter (fun p => negb (is_blank p) && _is_heading p) paras).

Definition chunk_text (c : chunk) : string := get_or_empty c "text".

Definition is_digit (c : ascii) : bool :=
  let n := nat_of_ascii c in (48 <=? n)%nat && (n <=? 57)%nat.

Fixpoint all_digits (s : string) : bool :=
  match s with
  | "" => true
  | String c r => is_digit c && all_digits r
  end.

(** A chunk as [add_chunk] builds it: an identifier made of a prefix,
    an underscore and a number, a heading and a text. *)
Definition made (R : ReLib) (c : chunk) : Prop :=
  exists n heading text,
    c = mk_chunk (_semantic_prefix R heading text +:+ "_" +:+ fmt02 n)
                 heading text /\
    (1 <= n)%nat /\ heading <> "" /\ trimmed text.

(** How a chunk came about: its number, its heading and the body
    paragraphs under it. *)
Definition entry : Type := nat * string * list string.

Definition entry_parts (e : entry) : list string := snd e.

Definition entry_prefix (R : ReLib) (e : entry) : string :=
  _semantic_prefix R (snd (fst e)) (join " " (snd e)).

Definition entry_key (R : ReLib) (e : entry) : string * nat :=
  (entry_prefix R e, fst (fst e)).

Definition entry_id (R : ReLib) (e : entry) : string :=
  entry_prefix R e +:+ "_" +:+ fmt02 (fst (fst e)).

Definition entry_chunk (R : ReLib) (e : entry) : chunk :=
  mk_chunk (entry_id R e) (snd (fst e)) (join " " (snd e)).

(** How many of the entries have the prefix [p]. *)
Definition with_prefix (R : ReLib) (p : string) (entries : list entry) : nat :=
  length (List.filter (fun e => String.eqb (entry_prefix R e) p) entries).

(** The counters count the entries of each prefix, and every entry has
    the number it had among those of its prefix when it was made. *)
Definition counted (R : ReLib) (cnt : gmap string nat) (entries : list entry)
  : Prop :=
  (forall p, default O (cnt !! p) = with_prefix R p entries) /\
  (forall i e, entries !! i = Some e ->
     fst (fst e) = S (with_prefix R (entry_prefix R e) (take i entries))).

(** The entries are numbered within the counters, under headings of
    the document, over trimmed paragraphs, and no prefix has a number
    twice. *)
Definition entries_ok (R : ReLib) (heads : list string)
    (cnt : gmap string nat) (entries : list entry) : Prop :=
  Forall (fun e : entry =>
            (1 <= fst (fst e) <= default O (cnt !! entry_prefix R e))%nat /\
            snd (fst e) <> "" /\
            snd (fst e) ∈ "Untitled Section" :: heads /\
            snd e <> [] /\ Forall trimmed (snd e)) entries
  /\ NoDup (map (entry_key R) entries)
  /\ counted R cnt entries.


(** What holds of the locals of [ingest_docx] after the paragraphs
    [paras]. *)
Definition loop_inv (R : ReLib) (paras : list paragraph) (st : state) : Prop :=
  exists entries,
    chunks st = map (entry_chunk R) entries /\
    entries_ok R (heading_texts paras) (counters st) entries /\
    concat (map entry_parts entries) ++ current_text st = body_texts paras /\
    Forall trimmed (current_text st) /\
    (current_text st <> [] -> current_heading st <> None) /\
    (forall h, current_heading st = Some h ->
               h <> "" /\ h ∈ "Untitled Section" :: heading_texts paras).

(** A small document. *)
Definition doc_example : list paragraph :=
  [ Paragraph None "Preface text" [];
    Paragraph (Some "Heading 1") "Age 18-24" [];
    Paragraph None "  First-time buyers.  " [Some true; None];
    Paragraph None "   " [];
    Paragraph None "Save for a deposit." [];
    Paragraph None "AGE 65+" [Some true];
    Paragraph None "Clients aged 65+ plan for retirement." [];
    Paragraph (Some "heading 2") "Income Type" [];
    Paragraph (Some "Heading 2") "Other" [];
    Paragraph None "Commission income is an Income Type." [] ].

End IngestViews.

(** * Facts about strings *)

Module StrFacts.
Import PyStr Props.

Lemma append_nil_l (s : string) : "" +:+ s = s.
Proof. reflexivity. Qed.

Lemma append_cons (c : ascii) (s t : string) :
  String c s +:+ t = String c (s +:+ t).
Proof. reflexivity. Qed.

Lemma append_nil_r (s : string) : s +:+ "" = s.
Proof.
  induction s as [|c s IH]; [reflexivity | rewrite append_cons, IH; reflexivity].
Qed.

Lemma append_assoc (a b c : string) : (a +:+ b) +:+ c = a +:+ (b +:+ c).
Proof.
  induction a as [|x a IH]; [reflexivity | rewrite !append_cons, IH; reflexivity].
Qed.

Lemma prefix_cons (x y : ascii) (a s : string) :
  String.prefix (String x a) (String y s) = bool_decide (x = y) && String.prefix a s.
Proof.
  simpl. destruct (ascii_dec x y) as [->|Hne].
  - rewrite bool_decide_eq_true_2 by reflexivity. reflexivity.
  - rewrite bool_decide_eq_false_2 by exact Hne. reflexivity.
Qed.

Lemma prefix_nil_l (s : string) : String.prefix "" s = true.
Proof. destruct s; reflexivity. Qed.

Lemma prefix_app (sub b : string) : String.prefix sub (sub +:+ b) = true.
Proof.
  induction sub as [|x sub IH]; [apply prefix_nil_l|].
  rewrite append_cons, prefix_cons, IH, bool_decide_eq_true_2; reflexivity.
Qed.

Lemma prefix_inv (sub s : string) :
  String.prefix sub s = true -> exists b, s = sub +:+ b.
Proof.
  revert s. induction sub as [|x sub IH]; intros s H.
  - exists s. reflexivity.
  - destruct s as [|y s]; [discriminate|].
    rewrite prefix_cons in H. apply andb_true_iff in H as [Hxy H].
    apply bool_decide_eq_true in Hxy. subst y.
    destruct (IH _ H) as [b ->]. exists b. reflexivity.
Qed.

Lemma prefix_length (sub s : string) :
  String.prefix sub s = true -> (String.length sub <= String.length s)%nat.
Proof.
  intros H. destruct (prefix_inv _ _ H) as [b ->].
  clear H. induction sub as [|x sub IH]; [simpl; lia|].
  rewrite append_cons. simpl. lia.
Qed.

(** [contains] decides [mentions]. *)
Lemma contains_mentions (sub s : string) :
  contains sub s = true <-> mentions sub s.
Proof.
  split.
  - induction s as [|c s IH]; cbn [contains]; intros H.
    + rewrite orb_false_r in H. destruct (prefix_inv _ _ H) as [b Hb].
      exists "", b. exact Hb.
    + apply orb_true_iff in H as [H|H].
      * destruct (prefix_inv _ _ H) as [b Hb]. exists "", b. exact Hb.
      * destruct (IH H) as (a & b & ->). exists (String c a), b. reflexivity.
  - intros (a & b & ->). induction a as [|c a IH].
    + rewrite append_nil_l.
      assert (H : String.prefix sub (sub +:+ b) = true) by apply prefix_app.
      destruct (sub +:+ b); cbn [contains]; rewrite H; reflexivity.
    + rewrite append_cons. cbn [contains]. rewrite IH. apply orb_true_r.
Qed.

Lemma not_contains_mentions (sub s : string) :
  contains sub s = false <-> ~ mentions sub s.
Proof.
  rewrite <- contains_mentions. destruct (contains sub s); split; congruence.
Qed.

Lemma mentions_trans (a b s : string) : mentions a b -> mentions b s -> mentions a s.
Proof.
  intros (x & y & ->) (u & v & ->). exists (u +:+ x), (y +:+ v).
  rewrite !append_assoc. reflexivity.
Qed.

(** ** Characters *)

(** A match of [old] cannot run into a text whose first character
    [old] does not have. *)
Lemma prefix_stops (old x : string) (c : ascii) (rest : string) :
  char_in c old = false ->
  String.prefix old (x +:+ String c rest) = String.prefix old x.
Proof.
  revert x. induction old as [|o old IH]; intros x Hc.
  - rewrite !prefix_nil_l. reflexivity.
  - simpl in Hc. apply orb_false_iff in Hc as [Hco Hc].
    apply bool_decide_eq_false in Hco.
    destruct x as [|y x].
    + rewrite append_nil_l, prefix_cons.
      rewrite bool_decide_eq_false_2 by congruence. reflexivity.
    + rewrite append_cons, !prefix_cons, IH by exact Hc. reflexivity.
Qed.

Lemma lower_app (a b : string) : lower (a +:+ b) = lower a +:+ lower b.
Proof.
  induction a as [|c a IH]; [reflexivity|].
  rewrite append_cons. simpl. rewrite IH. reflexivity.
Qed.

Section Replace.
Variables old new : string.
Hypothesis old_nonempty : old <> "".

Lemma replace_nonempty (s : string) : replace old new s = replace_scan old new O s.
Proof. unfold replace. destruct old; [contradiction | reflexivity]. Qed.

Lemma replace_scan_app (x : string) (c : ascii) (rest : string) (skip : nat) :
  char_in c old = false ->
  (skip <= String.length x)%nat ->
  replace_scan old new skip (x +:+ String c rest) =
  replace_scan old new skip x +:+ replace_scan old new O (String c rest).
Proof.
  intros Hc. revert skip. induction x as [|y x IH]; intros skip Hs.
  - simpl in Hs. assert (skip = O) as -> by lia. reflexivity.
  - rewrite append_cons. destruct skip as [|k].
    + cbn [replace_scan]. rewrite <- (append_cons y x).
      rewrite prefix_stops by exact Hc.
      destruct (String.prefix old (String y x)) eqn:E.
      * apply prefix_length in E. simpl in E.
        rewrite IH by lia. rewrite append_assoc. reflexivity.
      * rewrite IH by lia. reflexivity.
    + cbn [replace_scan]. apply IH. simpl in Hs. lia.
Qed.

Lemma replace_scan_lit (lit b : string) :
  apart lit old = true ->
  replace_scan old new O (lit +:+ b) = lit +:+ replace_scan old new O b.
Proof.
  induction lit as [|c lit IH]; intros H; [reflexivity|].
  simpl in H. apply andb_true_iff in H as [Hc H]. apply negb_true_iff in Hc.
  rewrite !append_cons. cbn [replace_scan].
  replace (String.prefix old (String c (lit +:+ b))) with false.
  - rewrite IH by exact H. reflexivity.
  - destruct old as [|o r]; [contradiction|]. rewrite prefix_cons.
    simpl in Hc. apply orb_false_iff in Hc as [Hco _].
    apply bool_decide_eq_false in Hco.
    rewrite bool_decide_eq_false_2 by congruence. reflexivity.
Qed.

(** Replacement leaves alone a literal that shares no character
    with [old], and works on both sides of it independently. *)
Lemma replace_around (a lit b : string) :
  lit <> "" -> apart lit old = true ->
  replace old new (a +:+ lit +:+ b) =
  replace old new a +:+ lit +:+ replace old new b.
Proof.
  intros Hl Hap. rewrite !replace_nonempty.
  destruct lit as [|c lit]; [contradiction|].
  pose proof Hap as Hap'. simpl in Hap'.
  apply andb_true_iff in Hap' as [Hc _]. apply negb_true_iff in Hc.
  rewrite append_cons, replace_scan_app by (exact Hc || lia).
  rewrite <- append_cons, replace_scan_lit by exact Hap. reflexivity.
Qed.

End Replace.

End StrFacts.

(** * Facts about the context assembler *)

Module AssemblerFacts.
Import Assembler Props.

Lemma chunk_id_of_Some (c : chunk) cid :
  chunk_id_of c = Some cid <-> c !! "chunk_id" = Some (VStr cid) /\ cid <> "".
Proof.
  unfold chunk_id_of. destruct (c !! "chunk_id") as [[|s]|] eqn:E.
  - split; [discriminate | intros [? _]; discriminate].
  - destruct (String.eqb s "") eqn:Es.
    + apply String.eqb_eq in Es. subst s.
      split; [discriminate | intros [H1 H2]; congruence].
    + apply String.eqb_neq in Es.
      split; [intros [= <-]; auto | intros [[= <-] _]; reflexivity].
  - split; [discriminate | intros [? _]; discriminate].
Qed.

Lemma chunk_id_of_empty : chunk_id_of ∅ = None.
Proof. reflexivity. Qed.

(** [add] in terms of the identifier of the chunk. *)
Lemma add_Some (c : chunk) (st : acc) :
  add (Some c) st =
    match chunk_id_of c with
    | Some cid =>
        if bool_decide (cid ∈ seen st) then st
        else Acc (final st ++ [c]) ({[cid]} ∪ seen st)
    | None => st
    end.
Proof.
  unfold add, chunk_id_of. case_bool_decide as Hc.
  - subst c. rewrite lookup_empty. reflexivity.
  - destruct (c !! "chunk_id") as [[|s]|]; try reflexivity.
    destruct (String.eqb s ""); simpl; [reflexivity|].
    repeat case_bool_decide; tauto || reflexivity.
Qed.

Lemma add_None (st : acc) : add None st = st.
Proof. reflexivity. Qed.

(** One insertion moves the head of the pending list into [final]. *)
Lemma add_step (c : chunk) (rest : list chunk) (st : acc) :
  final st ++ dedup_ids (c :: rest) (seen st) =
  final (add (Some c) st) ++ dedup_ids rest (seen (add (Some c) st)).
Proof.
  rewrite add_Some. simpl. destruct (chunk_id_of c) as [cid|]; [|reflexivity].
  case_bool_decide; [reflexivity|]. simpl. rewrite <- app_assoc. reflexivity.
Qed.

Lemma add_option_step (o : option chunk) (l : list chunk) (st : acc) :
  final (add o st) ++ dedup_ids l (seen (add o st)) =
  final st ++ dedup_ids (omap id [o] ++ l) (seen st).
Proof. destruct o as [c|]; [symmetry; apply add_step | reflexivity]. Qed.

Lemma priority_adds (a i r : option chunk) (l : list chunk) (st : acc) :
  final (add r (add i (add a st))) ++
    dedup_ids l (seen (add r (add i (add a st)))) =
  final st ++ dedup_ids (found a i r ++ l) (seen st).
Proof.
  rewrite !add_option_step. f_equal. f_equal.
  unfold found. destruct a, i, r; reflexivity.
Qed.

(** The loop stops early only when [final] is long enough. *)
Lemma fill_take (l : list chunk) (k : Z) (st : acc) :
  0 <= k ->
  take (Z.to_nat k) (final (fill l k st)) =
  take (Z.to_nat k) (final st ++ dedup_ids l (seen st)).
Proof.
  intros Hk. revert st. induction l as [|c rest IH]; intros st.
  - simpl. rewrite app_nil_r. reflexivity.
  - rewrite add_step. cbn [fill].
    destruct (Z.of_nat (length (final (add (Some c) st))) >=? k) eqn:E.
    + rewrite take_app_le; [reflexivity|]. apply Z.geb_le in E. lia.
    + apply IH.
Qed.

(** What the assembler computes. *)
Lemma safe_context_set_eq retrieved a i r (k : Z) :
  0 <= k ->
  _safe_context_set retrieved a i r k =
  take (Z.to_nat k) (dedup_ids (found a i r ++ retrieved) ∅).
Proof.
  intros Hk. unfold _safe_context_set, PyList.slice_to.
  replace (k <? 0) with false by (symmetry; apply Z.ltb_ge; lia).
  rewrite fill_take by exact Hk.
  rewrite priority_adds. reflexivity.
Qed.

(** ** The deduplicated list *)

Lemma dedup_ids_sublist (l : list chunk) (s : gset string) :
  sublist (dedup_ids l s) l.
Proof.
  revert s. induction l as [|c l IH]; intros s; simpl.
  - constructor.
  - destruct (chunk_id_of c); [case_bool_decide|].
    + apply sublist_cons, IH.
    + apply sublist_skip, IH.
    + apply sublist_cons, IH.
Qed.

Lemma dedup_ids_valid (l : list chunk) (s : gset string) :
  Forall (fun c => is_Some (chunk_id_of c)) (dedup_ids l s).
Proof.
  revert s. induction l as [|c l IH]; intros s; simpl.
  - constructor.
  - destruct (chunk_id_of c) eqn:E; [case_bool_decide|]; try apply IH.
    constructor; [rewrite E; eauto | apply IH].
Qed.

Lemma dedup_ids_fresh (l : list chunk) (s : gset string) cid :
  cid ∈ omap chunk_id_of (dedup_ids l s) -> cid ∉ s.
Proof.
  revert s. induction l as [|c l IH]; intros s; simpl.
  - intros H. inversion H.
  - destruct (chunk_id_of c) as [x|] eqn:E; [case_bool_decide as Hx|]; try apply IH.
    simpl. rewrite E. intros H. apply elem_of_cons in H as [->|H]; [exact Hx|].
    apply IH in H. set_solver.
Qed.

Lemma dedup_ids_NoDup (l : list chunk) (s : gset string) :
  NoDup (omap chunk_id_of (dedup_ids l s)).
Proof.
  revert s. induction l as [|c l IH]; intros s; simpl.
  - constructor.
  - destruct (chunk_id_of c) as [x|] eqn:E; [case_bool_decide as Hx|]; try apply IH.
    simpl. rewrite E. constructor; [|apply IH].
    intros H. apply dedup_ids_fresh in H. set_solver.
Qed.

Lemma dedup_ids_app (l1 l2 : list chunk) (s : gset string) :
  dedup_ids (l1 ++ l2) s =
  dedup_ids l1 s ++ dedup_ids l2 (id_set l1 ∪ s).
Proof.
  revert s. induction l1 as [|c l1 IH]; intros s; simpl.
  - f_equal. unfold id_set. simpl. set_solver.
  - unfold id_set. simpl. destruct (chunk_id_of c) as [x|] eqn:E.
    + case_bool_decide as Hx.
      * rewrite IH. f_equal. f_equal. unfold id_set. set_solver.
      * simpl. rewrite IH. f_equal. f_equal. f_equal. unfold id_set. set_solver.
    + apply IH.
Qed.

Lemma id_set_cons (c : chunk) (l : list chunk) :
  id_set (c :: l) =
  match chunk_id_of c with
  | Some cid => {[cid]} ∪ id_set l
  | None => id_set l
  end.
Proof. unfold id_set. simpl. destruct (chunk_id_of c); reflexivity. Qed.

Lemma dedup_ids_ids (l : list chunk) (s : gset string) :
  id_set (dedup_ids l s) ∪ s = id_set l ∪ s.
Proof.
  revert s. induction l as [|c l IH]; intros s; [reflexivity|].
  cbn [dedup_ids]. rewrite id_set_cons.
  destruct (chunk_id_of c) as [x|] eqn:E.
  - case_bool_decide as Hx.
    + rewrite IH. generalize (id_set l). intros A. set_solver.
    + rewrite id_set_cons, E. specialize (IH ({[x]} ∪ s)).
      revert IH. generalize (id_set (dedup_ids l ({[x]} ∪ s))), (id_set l).
      intros A B IH.
      replace ({[x]} ∪ A ∪ s) with (A ∪ ({[x]} ∪ s)) by set_solver.
      replace ({[x]} ∪ B ∪ s) with (B ∪ ({[x]} ∪ s)) by set_solver.
      exact IH.
  - apply IH.
Qed.

Lemma id_set_dedup (l : list chunk) :
  id_set l ∪ ∅ = id_set (dedup_ids l ∅).
Proof.
  pose proof (dedup_ids_ids l ∅) as H. set_solver.
Qed.

(** Chunks with an identifier have distinct [chunk_id] entries when
    their identifiers are distinct. *)
Lemma chunk_id_entries (l : list chunk) :
  Forall (fun c => is_Some (chunk_id_of c)) l ->
  (fun c : chunk => c !! "chunk_id") <$> l =
  (fun cid => Some (VStr cid)) <$> omap chunk_id_of l.
Proof.
  induction 1 as [|c l [cid Hc] _ IH]; [reflexivity|].
  change (omap chunk_id_of (c :: l)) with
    (match chunk_id_of c with
     | Some y => y :: omap chunk_id_of l
     | None => omap chunk_id_of l
     end).
  rewrite Hc, !fmap_cons, IH.
  apply chunk_id_of_Some in Hc as [-> _]. reflexivity.
Qed.

Lemma NoDup_chunk_ids (l : list chunk) :
  Forall (fun c => is_Some (chunk_id_of c)) l ->
  NoDup (omap chunk_id_of l) ->
  NoDup ((fun c : chunk => c !! "chunk_id") <$> l).
Proof.
  intros Hv Hn. rewrite chunk_id_entries by exact Hv.
  apply NoDup_fmap_2; [|exact Hn]. intros x y [= ->]. reflexivity.
Qed.

Lemma omap_sublist {A B} (f : A -> option B) (l1 l2 : list A) :
  sublist l1 l2 -> sublist (omap f l1) (omap f l2).
Proof.
  induction 1 as [|x l1 l2 _ IH|x l1 l2 _ IH]; simpl.
  - constructor.
  - destruct (f x); [apply sublist_skip|]; exact IH.
  - destruct (f x); [apply sublist_cons|]; exact IH.
Qed.

(** ** Membership *)

Lemma add_elem (o : option chunk) (st : acc) (c : chunk) :
  c ∈ final (add o st) ->
  c ∈ final st \/ (o = Some c /\ is_Some (chunk_id_of c)).
Proof.
  destruct o as [d|]; [|left; assumption].
  rewrite add_Some. destruct (chunk_id_of d) as [cid|] eqn:E; [|left; assumption].
  case_bool_decide as Hseen; [left; assumption|]. simpl.
  intros H. apply elem_of_app in H as [H|H]; [left; exact H|].
  apply list_elem_of_singleton in H. subst d. right. rewrite E. eauto.
Qed.

Lemma fill_elem (l : list chunk) (k : Z) (st : acc) (c : chunk) :
  c ∈ final (fill l k st) ->
  c ∈ final st \/ (c ∈ l /\ is_Some (chunk_id_of c)).
Proof.
  revert st. induction l as [|d l IH]; intros st; cbn [fill]; [left; assumption|].
  destruct (Z.of_nat (length (final (add (Some d) st))) >=? k); intros H.
  - apply add_elem in H as [H|[[= ->] Hc]]; [left; exact H|].
    right. split; [left | exact Hc].
  - apply IH in H as [H|[H Hc]].
    + apply add_elem in H as [H|[[= ->] Hc]]; [left; exact H|].
      right. split; [left | exact Hc].
    + right. split; [right; exact H | exact Hc].
Qed.

Lemma slice_to_elem {A} (k : Z) (l : list A) (x : A) :
  x ∈ PyList.slice_to k l -> x ∈ l.
Proof.
  unfold PyList.slice_to.
  destruct (k <? 0); intros H; eapply elem_of_sublist; eauto using sublist_take.
Qed.

(** Every entry comes from a priority chunk or from the fill list, and
    has an identifier. *)
Lemma safe_context_set_elem retrieved a i r (k : Z) (c : chunk) :
  c ∈ _safe_context_set retrieved a i r k ->
  (Some c = a \/ Some c = i \/ Some c = r \/ c ∈ retrieved)
  /\ is_Some (chunk_id_of c).
Proof.
  unfold _safe_context_set. intros H. apply slice_to_elem in H.
  apply fill_elem in H as [H|[H Hc]]; [|split; [auto | exact Hc]].
  apply add_elem in H as [H|[-> Hc]]; [|split; [auto | exact Hc]].
  apply add_elem in H as [H|[-> Hc]]; [|split; [auto | exact Hc]].
  apply add_elem in H as [H|[-> Hc]]; [|split; [auto | exact Hc]].
  inversion H.
Qed.

End AssemblerFacts.

(** * Facts about the leakage filter *)

Module LeakageFacts.
Import PyStr Config Assembler Props StrFacts.

Lemma normalize_around (a lit b : string) :
  plain lit = true ->
  _normalize_age_text (a +:+ lit +:+ b) =
  _normalize_age_text a +:+ lit +:+ _normalize_age_text b.
Proof.
  unfold plain. intros H.
  apply andb_true_iff in H as [H Hap]. apply andb_true_iff in H as [Hlow Hne].
  apply String.eqb_eq in Hlow. apply negb_true_iff, String.eqb_neq in Hne.
  cbn [forallb dash_variants] in Hap.
  repeat (apply andb_true_iff in Hap as [? Hap]).
  unfold _normalize_age_text. cbn [fold_left dash_variants].
  rewrite !lower_app, Hlow.
  repeat (rewrite replace_around by (assumption || discriminate)).
  reflexivity.
Qed.

(** The haystack of the filter is the normalized heading-plus-text. *)
Lemma haystack_normalized (c : chunk) :
  haystack_of c =
  _normalize_age_text (get_or_empty c "heading" +:+ nl +:+ get_or_empty c "text").
Proof. unfold haystack_of. rewrite normalize_around; reflexivity. Qed.

Lemma normalize_keeps (lit t : string) :
  plain lit = true -> mentions lit t -> mentions lit (_normalize_age_text t).
Proof.
  intros Hp (a & b & ->). rewrite normalize_around by exact Hp.
  eexists _, _. reflexivity.
Qed.

Lemma text_in_haystack (lit : string) (c : chunk) (t : string) :
  plain lit = true -> c !! "text" = Some (VStr t) -> mentions lit t ->
  mentions lit (haystack_of c).
Proof.
  intros Hp Ht Hm. apply (normalize_keeps _ _ Hp) in Hm as (a & b & Hab).
  unfold haystack_of, get_or_empty at 2. rewrite Ht, Hab.
  exists (_normalize_age_text (get_or_empty c "heading") +:+ nl +:+ a), b.
  rewrite !append_assoc. reflexivity.
Qed.

Lemma existsb_elem {A} (f : A -> bool) (l : list A) :
  existsb f l = true <-> exists x, x ∈ l /\ f x = true.
Proof.
  rewrite existsb_exists. split; intros (x & Hx & Hf); exists x;
    (split; [apply list_elem_of_In; exact Hx | exact Hf]).
Qed.

Lemma existsb_none {A} (f : A -> bool) (l : list A) :
  existsb f l = false <-> forall x, x ∈ l -> f x = false.
Proof.
  split.
  - intros H x Hx. destruct (f x) eqn:E; [|reflexivity].
    assert (existsb f l = true) by (apply existsb_elem; eauto). congruence.
  - intros H. destruct (existsb f l) eqn:E; [|reflexivity].
    apply existsb_elem in E as (x & Hx & Hf). rewrite (H x Hx) in Hf. discriminate.
Qed.

(** The filter, on the haystack. *)
Lemma is_other_age_chunk_iff (c : chunk) (age_range : string) :
  _is_other_age_chunk c age_range = true <->
  (exists band, band ∈ age_bands /\ mentions band (haystack_of c)) /\
  (forall v, v ∈ _age_variants age_range ->
             ~ mentions (_normalize_age_text v) (haystack_of c)).
Proof.
  unfold _is_other_age_chunk, requested_variants.
  destruct (existsb (fun band => contains band (haystack_of c)) age_bands) eqn:Eb;
    cbn [negb].
  - rewrite negb_true_iff, existsb_none.
    apply existsb_elem in Eb as (band & Hb & Hc). apply contains_mentions in Hc.
    split.
    + intros H. split; [eauto|]. intros v Hv. apply not_contains_mentions.
      apply H. apply list_elem_of_fmap. eauto.
    + intros [_ H] v Hv. apply list_elem_of_fmap in Hv as (u & -> & Hu).
      apply not_contains_mentions, H, Hu.
  - split; [discriminate|]. intros [(band & Hb & Hc) _].
    apply contains_mentions in Hc.
    rewrite existsb_none in Eb. rewrite (Eb band Hb) in Hc. discriminate.
Qed.

(** For a supported age range every accepted variant, once
    normalized, carries the age range itself. *)
Lemma variants_carry_range (age_range v : string) :
  age_range ∈ SUPPORTED_AGE_RANGES -> v ∈ _age_variants age_range ->
  age_range ∈ _age_variants age_range /\
  _normalize_age_text age_range = age_range /\
  mentions age_range (_normalize_age_text v).
Proof.
  intros Ha Hv. unfold SUPPORTED_AGE_RANGES in Ha.
  repeat (apply elem_of_cons in Ha as [->|Ha]); try (apply elem_of_nil in Ha; contradiction);
    (split; [left | split; [reflexivity|]]);
    vm_compute in Hv;
    repeat (apply elem_of_cons in Hv as [->|Hv]); try (apply elem_of_nil in Hv; contradiction);
    apply contains_mentions; vm_compute; reflexivity.
Qed.

Lemma filter_elem {A} (f : A -> bool) (l : list A) (x : A) :
  x ∈ List.filter f l <-> x ∈ l /\ f x = true.
Proof. rewrite !list_elem_of_In. apply filter_In. Qed.

End LeakageFacts.

(** * Facts about the priority-chunk matcher *)

Module MatcherFacts.
Import PyStr Config Assembler Props StrFacts LeakageFacts.

Lemma matches_any_iff (h : string) (needles : list string) :
  _matches_any h needles = true <->
  exists n, n ∈ needles /\ mentions (lower n) (lower h).
Proof.
  unfold _matches_any. rewrite existsb_elem.
  split; intros (n & Hn & H); exists n; (split; [exact Hn|]);
    apply contains_mentions; exact H.
Qed.

(** The first match in the order of the list wins. *)
Lemma best_chunk_Some (chunks : list chunk) (needles : list string) (c : chunk) :
  _best_chunk_by_text chunks needles = Some c <->
  exists pre post,
    chunks = pre ++ c :: post /\
    Forall (fun d => _matches_any (heading_text d) needles = false) pre /\
    _matches_any (heading_text c) needles = true.
Proof.
  induction chunks as [|d chunks IH]; cbn [_best_chunk_by_text].
  - split; [discriminate|]. intros (pre & post & H & _). destruct pre; discriminate.
  - destruct (_matches_any (heading_text d) needles) eqn:E.
    + split.
      * intros [= ->]. exists [], chunks. auto.
      * intros (pre & post & H & Hpre & Hc). destruct pre as [|e pre].
        -- injection H as -> _. reflexivity.
        -- injection H as -> _. inversion Hpre; congruence.
    + rewrite IH. split.
      * intros (pre & post & -> & Hpre & Hc). exists (d :: pre), post. auto.
      * intros (pre & post & H & Hpre & Hc). destruct pre as [|e pre].
        -- injection H as -> _. congruence.
        -- injection H as -> ->. inversion Hpre; subst. eauto.
Qed.

Lemma best_chunk_None (chunks : list chunk) (needles : list string) :
  _best_chunk_by_text chunks needles = None <->
  Forall (fun d => _matches_any (heading_text d) needles = false) chunks.
Proof.
  induction chunks as [|d chunks IH]; cbn [_best_chunk_by_text].
  - split; auto.
  - destruct (_matches_any (heading_text d) needles) eqn:E.
    + split; [discriminate|]. inversion 1; congruence.
    + rewrite IH. split; [auto|]. inversion 1; assumption.
Qed.

(** A needle without a newline is found in the heading or in the text. *)
Lemma contains_across (n a b : string) (c : ascii) :
  n <> "" -> char_in c n = false ->
  contains n (a +:+ String c b) = contains n a || contains n b.
Proof.
  intros Hn Hc. induction a as [|x a IH].
  - rewrite append_nil_l. cbn [contains].
    destruct n as [|y n]; [contradiction|].
    rewrite prefix_cons. simpl in Hc. apply orb_false_iff in Hc as [Hcy _].
    apply bool_decide_eq_false in Hcy.
    rewrite bool_decide_eq_false_2 by congruence. reflexivity.
  - rewrite append_cons. cbn [contains]. rewrite IH, <- append_cons.
    rewrite prefix_stops by exact Hc. rewrite orb_assoc. reflexivity.
Qed.

Lemma heading_text_mentions (c : chunk) (n : string) :
  n <> "" -> char_in (ascii_of_nat 10) n = false ->
  mentions n (lower (heading_text c)) <->
  mentions n (lower (shown c "heading")) \/ mentions n (lower (shown c "text")).
Proof.
  intros Hn Hc. rewrite <- !contains_mentions.
  unfold heading_text, nl. rewrite !lower_app.
  change (lower (String (ascii_of_nat 10) "")) with (String (ascii_of_nat 10) "").
  rewrite append_cons, append_nil_l.
  rewrite contains_across by assumption. apply orb_true_iff.
Qed.

(** The accepted variants of a supported hyphenated range. *)
Lemma age_variants_hyphenated (age_range : string) :
  age_range ∈ SUPPORTED_AGE_RANGES -> contains "-" age_range = true ->
  exists a b,
    age_range = a +:+ "-" +:+ b /\
    _age_variants age_range =
      [ a +:+ "-" +:+ b; a +:+ "–" +:+ b; a +:+ " to " +:+ b;
        a +:+ " to " +:+ b +:+ " years"; a +:+ "-" +:+ b +:+ " years";
        a +:+ "–" +:+ b +:+ " years" ].
Proof.
  intros Ha Hc. unfold SUPPORTED_AGE_RANGES in Ha.
  repeat (apply elem_of_cons in Ha as [->|Ha]);
    try (apply elem_of_nil in Ha; contradiction).
  - exists "18", "24". split; reflexivity.
  - exists "25", "34". split; reflexivity.
  - exists "35", "44". split; reflexivity.
  - exists "45", "54". split; reflexivity.
  - exists "55", "64". split; reflexivity.
  - discriminate Hc.
Qed.

Lemma age_variants_plain (age_range v : string) :
  age_range ∈ SUPPORTED_AGE_RANGES -> v ∈ _age_variants age_range ->
  lower v <> "" /\ char_in (ascii_of_nat 10) (lower v) = false.
Proof.
  intros Ha Hv. unfold SUPPORTED_AGE_RANGES in Ha.
  repeat (apply elem_of_cons in Ha as [->|Ha]);
    try (apply elem_of_nil in Ha; contradiction);
    vm_compute in Hv;
    repeat (apply elem_of_cons in Hv as [->|Hv]);
    try (apply elem_of_nil in Hv; contradiction);
    (split; [discriminate | reflexivity]).
Qed.

(** A text that spells a supported range with an em dash or with a
    minus sign matches none of its variants. *)
Lemma other_dashes_not_accepted (age_range dash : string) :
  age_range ∈ SUPPORTED_AGE_RANGES -> dash ∈ ["—"; "−"] ->
  contains "-" age_range = true ->
  _matches_any (replace "-" dash age_range) (_age_variants age_range) = false.
Proof.
  intros Ha Hd Hc. unfold SUPPORTED_AGE_RANGES in Ha.
  repeat (apply elem_of_cons in Ha as [->|Ha]);
    try (apply elem_of_nil in Ha; contradiction);
    repeat (apply elem_of_cons in Hd as [->|Hd]);
    try (apply elem_of_nil in Hd; contradiction);
    try discriminate Hc; vm_compute; reflexivity.
Qed.

End MatcherFacts.

(** * Facts about output recovery *)

Module RecoveryFacts.
Import PyStr Props Generator.

Section WithExternals.
Variable X : Externals.

(** The cascade, stage by stage. *)
Lemma recover_eq (raw : string) (w : World) :
  recover X raw w =
  match json_loads X raw with
  | Ok v => (Ok v, w)
  | Raise e1 =>
      if is_JSONDecodeError e1 then
        match extract_loads X raw with
        | Some v => (Ok v, w)
        | None =>
            match _repair_json_with_llm X raw w with
            | (Raise e, w') => (Raise e, w')
            | (Ok repaired, w') =>
                match json_loads X repaired with
                | Ok v => (Ok v, w')
                | Raise e3 =>
                    if is_JSONDecodeError e3 then
                      match _extract_json_object repaired with
                      | Raise e => (Raise e, w')
                      | Ok text => (json_loads X text, w')
                      end
                    else (Raise e3, w')
                end
            end
        end
      else (Raise e1, w)
  end.
Proof.
  unfold recover, try_except, loads, extract_loads, bind, lift, ret, raise.
  destruct (json_loads X raw) as [v|e1]; [reflexivity|].
  destruct (is_JSONDecodeError e1); [|reflexivity].
  assert (Hrest :
    (let (o, w') := _repair_json_with_llm X raw w in
     match o with
     | Ok repaired =>
         match json_loads X repaired with
         | Ok a => (Ok a, w')
         | Raise e =>
             if is_JSONDecodeError e
             then match _extract_json_object repaired with
                  | Ok extracted => (json_loads X extracted, w')
                  | Raise e0 => (Raise e0, w')
                  end
             else (Raise e, w')
         end
     | Raise e => (Raise e, w')
     end) =
    match _repair_json_with_llm X raw w with
    | (Raise e, w') => (Raise e, w')
    | (Ok repaired, w') =>
        match json_loads X repaired with
        | Ok v => (Ok v, w')
        | Raise e3 =>
            if is_JSONDecodeError e3 then
              match _extract_json_object repaired with
              | Raise e => (Raise e, w')
              | Ok text => (json_loads X text, w')
              end
            else (Raise e3, w')
        end
    end).
  { destruct (_repair_json_with_llm X raw w) as [[repaired|e] w']; [|reflexivity].
    destruct (json_loads X repaired) as [v|e3]; [reflexivity|].
    destruct (is_JSONDecodeError e3); [|reflexivity].
    destruct (_extract_json_object repaired); reflexivity. }
  destruct (_extract_json_object raw) as [text|e]; cbn [any_Exception].
  - destruct (json_loads X text) as [v|e]; [reflexivity | exact Hrest].
  - exact Hrest.
Qed.

(** How recovery fails: on an error of [json.loads] other than
    [JSONDecodeError], at the raw or at the repaired text; on the error
    of the repair request; or on the last attempt of all. *)
Lemma recover_Raise (raw : string) (w : World) (e : exn) (w' : World) :
  recover X raw w = (Raise e, w') ->
  (json_loads X raw = Raise e /\ is_JSONDecodeError e = false /\ w' = w)
  \/ (json_loads X raw = Raise JSONDecodeError /\ extract_loads X raw = None /\
      (_repair_json_with_llm X raw w = (Raise e, w')
       \/ exists repaired,
            _repair_json_with_llm X raw w = (Ok repaired, w') /\
            ((json_loads X repaired = Raise e /\ is_JSONDecodeError e = false)
             \/ (json_loads X repaired = Raise JSONDecodeError /\
                 ((_extract_json_object repaired = Raise e /\
                   e = ValueError "No JSON object found in model response.")
                  \/ exists text, _extract_json_object repaired = Ok text /\
                                  json_loads X text = Raise e))))).
Proof.
  rewrite recover_eq.
  destruct (json_loads X raw) as [v|e1] eqn:E1; [discriminate|].
  destruct (is_JSONDecodeError e1) eqn:D1.
  2:{ intros [= <- <-]. left. auto. }
  destruct e1; try discriminate D1. clear D1.
  destruct (extract_loads X raw) as [v|] eqn:E2; [discriminate|].
  intros H. right. split; [reflexivity|]. split; [reflexivity|].
  destruct (_repair_json_with_llm X raw w) as [[repaired|e2] w2] eqn:E3.
  2:{ injection H as <- <-. left. reflexivity. }
  right. exists repaired.
  destruct (json_loads X repaired) as [v|e3] eqn:E4; [discriminate|].
  destruct (is_JSONDecodeError e3) eqn:D3.
  - destruct e3; try discriminate D3. clear D3.
    destruct (_extract_json_object repaired) as [text|e4] eqn:E5.
    + destruct (json_loads X text) as [v|e5] eqn:E6; [discriminate|].
      injection H as <- <-. split; [reflexivity|]. right. split; [reflexivity|].
      right. exists text. split; [reflexivity | exact E6].
    + injection H as <- <-. split; [reflexivity|]. right. split; [reflexivity|]. left.
      split; [reflexivity|].
      unfold _extract_json_object in E5.
      destruct (_ || _) in E5; [|discriminate]. injection E5 as <-. reflexivity.
  - injection H as <- <-. split; [reflexivity|]. left. split; [reflexivity | exact D3].
Qed.

Lemma repairs_app (a b : list event) : repairs (a ++ b) = (repairs a + repairs b)%nat.
Proof. unfold repairs. rewrite List.filter_app, length_app. reflexivity. Qed.

(** A generation call makes at most one request and no repair. *)
Lemma llm_generate_trace (prompt : string) (timeout : Z) (force_json : bool)
    (w : World) :
  exists evs,
    trace (snd (_llm_generate X prompt timeout force_json w)) = trace w ++ evs /\
    repairs evs = O /\ (length evs <= 1)%nat.
Proof.
  unfold _llm_generate.
  destruct (String.eqb _ "ollama").
  - unfold bind, post, ret.
    destruct (requests_post X (trace w) _ _ timeout);
      eexists [_]; cbn; auto.
  - exists []. unfold raise. cbn. rewrite app_nil_r. auto.
Qed.

(** A repair is logged once and makes at most one request. *)
Lemma repair_trace (bad_text : string) (w : World) :
  exists evs,
    trace (snd (_repair_json_with_llm X bad_text w)) =
      trace w ++ EvRepair bad_text :: evs /\
    repairs evs = O /\ (length evs <= 1)%nat.
Proof.
  unfold _repair_json_with_llm, bind, emit.
  destruct (llm_generate_trace (repair_prompt bad_text) 120 false
              (log (EvRepair bad_text) w)) as (evs & Ht & Hr & Hl).
  exists evs. split; [|auto].
  destruct (_llm_generate X (repair_prompt bad_text) 120 false
              (log (EvRepair bad_text) w)) as [[r|e] w'];
    cbn [snd] in *; rewrite Ht; cbn [log trace]; rewrite <- app_assoc; reflexivity.
Qed.

Lemma recover_trace (raw : string) (w : World) :
  trace (snd (recover X raw w)) = trace w \/
  trace (snd (recover X raw w)) = trace (snd (_repair_json_with_llm X raw w)).
Proof.
  rewrite recover_eq.
  destruct (json_loads X raw) as [v|e1]; [left; reflexivity|].
  destruct (is_JSONDecodeError e1); [|left; reflexivity].
  destruct (extract_loads X raw); [left; reflexivity|].
  right. destruct (_repair_json_with_llm X raw w) as [[repaired|e] w']; [|reflexivity].
  destruct (json_loads X repaired) as [v|e3]; [reflexivity|].
  destruct (is_JSONDecodeError e3); [|reflexivity].
  destruct (_extract_json_object repaired) as [t|e]; reflexivity.
Qed.

End WithExternals.

End RecoveryFacts.

(** * Facts about the ranking step *)

Module RankFacts.
Import Retrieval Props.

Lemma tuple_lt_false (x y : Q * nat) : tuple_lt x y = false <-> tuple_ge x y.
Proof.
  unfold tuple_lt, tuple_ge. destruct (Qcompare_spec (fst x) (fst y)) as [H|H|H].
  - rewrite Nat.ltb_ge. split.
    + intros Hn. right. split; [exact H | exact Hn].
    + intros [Hlt|[_ Hn]]; [|exact Hn].
      rewrite H in Hlt. exfalso. exact (Qlt_irrefl _ Hlt).
  - split; [discriminate|]. intros [Hlt|[He _]]; exfalso.
    + exact (Qlt_irrefl _ (Qlt_trans _ _ _ H Hlt)).
    + rewrite He in H. exact (Qlt_irrefl _ H).
  - split; [|reflexivity]. intros _. left. exact H.
Qed.

Lemma tuple_lt_true (x y : Q * nat) : tuple_lt x y = true -> tuple_ge y x.
Proof.
  unfold tuple_lt, tuple_ge. destruct (Qcompare_spec (fst x) (fst y)) as [H|H|H].
  - rewrite Nat.ltb_lt. intros Hn. right. split; [symmetry; exact H | lia].
  - intros _. left. exact H.
  - discriminate.
Qed.

Lemma tuple_ge_trans (x y z : Q * nat) : tuple_ge x y -> tuple_ge y z -> tuple_ge x z.
Proof.
  unfold tuple_ge. intros [H1|[H1 N1]] [H2|[H2 N2]].
  - left. exact (Qlt_trans _ _ _ H2 H1).
  - left. rewrite <- H2. exact H1.
  - left. rewrite H1. exact H2.
  - right. split; [rewrite H1; exact H2 | lia].
Qed.

Lemma insert_desc_perm (x : Q * nat) (l : list (Q * nat)) : insert_desc x l ≡ₚ x :: l.
Proof.
  induction l as [|y l IH]; cbn [insert_desc]; [reflexivity|].
  destruct (tuple_lt x y); [|reflexivity].
  rewrite IH. apply Permutation_swap.
Qed.

Lemma sort_desc_perm (l : list (Q * nat)) : sort_desc l ≡ₚ l.
Proof.
  induction l as [|x l IH]; cbn [sort_desc]; [reflexivity|].
  rewrite insert_desc_perm, IH. reflexivity.
Qed.

Lemma insert_desc_sorted (x : Q * nat) (l : list (Q * nat)) :
  StronglySorted tuple_ge l -> StronglySorted tuple_ge (insert_desc x l).
Proof.
  induction l as [|y l IH]; cbn [insert_desc]; intros Hs.
  - repeat constructor.
  - apply StronglySorted_cons in Hs as [Hy Hs].
    destruct (tuple_lt x y) eqn:E.
    + apply StronglySorted_cons. split; [|apply IH, Hs].
      rewrite insert_desc_perm. constructor; [apply tuple_lt_true, E | exact Hy].
    + apply tuple_lt_false in E. apply StronglySorted_cons. split.
      * constructor; [exact E|].
        eapply Forall_impl; [exact Hy|]. intros z Hz. exact (tuple_ge_trans _ _ _ E Hz).
      * apply StronglySorted_cons. split; assumption.
Qed.

Lemma sort_desc_sorted (l : list (Q * nat)) : StronglySorted tuple_ge (sort_desc l).
Proof.
  induction l as [|x l IH]; cbn [sort_desc]; [constructor|].
  apply insert_desc_sorted, IH.
Qed.

Lemma sorted_sublist {A} (R : A -> A -> Prop) (l1 l2 : list A) :
  sublist l1 l2 -> StronglySorted R l2 -> StronglySorted R l1.
Proof.
  induction 1 as [|x l1 l2 Hsub IH|x l1 l2 Hsub IH]; intros Hs.
  - constructor.
  - apply StronglySorted_cons in Hs as [Hx Hs].
    apply StronglySorted_cons. split; [|apply IH, Hs].
    apply Forall_forall. intros y Hy. rewrite Forall_forall in Hx.
    apply Hx. eapply elem_of_sublist; eassumption.
  - apply StronglySorted_cons in Hs as [_ Hs]. apply IH, Hs.
Qed.

Lemma sorted_lookup {A} (R : A -> A -> Prop) (l : list A) (p q : nat) (x y : A) :
  StronglySorted R l -> l !! p = Some x -> l !! q = Some y -> (p < q)%nat -> R x y.
Proof.
  intros Hs. revert p q. induction Hs as [|z l Hs IH Hz]; intros p q Hp Hq Hlt.
  - discriminate.
  - destruct q as [|q]; [lia|]. destruct p as [|p].
    + injection Hp as ->. rewrite Forall_forall in Hz. apply Hz.
      eapply list_elem_of_lookup_2. exact Hq.
    + apply (IH p q); [exact Hp | exact Hq | lia].
Qed.

Lemma slice_to_sublist {A} (k : Z) (l : list A) : sublist (PyList.slice_to k l) l.
Proof. unfold PyList.slice_to. destruct (k <? 0); apply sublist_take. Qed.

Lemma omapM_Ok {A B} (f : A -> outcome B) (l : list A) (ys : list B) :
  omapM f l = Ok ys -> Forall2 (fun x y => f x = Ok y) l ys.
Proof.
  revert ys. induction l as [|x l IH]; cbn [omapM]; intros ys H.
  - injection H as <-. constructor.
  - destruct (f x) as [y|e] eqn:Ex; cbn [obind] in H; [|discriminate].
    destruct (omapM f l) as [zs|e]; cbn [obind] in H; [|discriminate].
    injection H as <-. constructor; [exact Ex | apply IH; reflexivity].
Qed.

Lemma omapM_total {A B} (f : A -> outcome B) (l : list A) :
  Forall (fun x => exists y, f x = Ok y) l -> exists ys, omapM f l = Ok ys.
Proof.
  induction 1 as [|x l [y Hy] _ [ys IH]]; cbn [omapM].
  - eauto.
  - rewrite Hy, IH. cbn [obind]. eauto.
Qed.

Section WithExternals.
Variable X : Externals.

(** Each scored tuple carries the similarity of its index. *)
Lemma rank_Ok (self : HybridRetriever) (query : string) (top_k : Z)
    (idxs tops : list nat) :
  rank X self query top_k idxs = Ok tops ->
  exists sorted,
    tops = map snd sorted /\
    StronglySorted tuple_ge sorted /\
    Forall (fun t => fst t = sim_of X self query (snd t) /\ snd t ∈ idxs) sorted /\
    (0 <= top_k -> length sorted = Nat.min (Z.to_nat top_k) (length idxs)).
Proof.
  unfold rank. intros H.
  destruct (omapM _ idxs) as [scored|e] eqn:E; cbn [obind] in H; [|discriminate].
  injection H as <-. apply omapM_Ok in E.
  assert (Hsc : Forall (fun t => fst t = sim_of X self query (snd t) /\ snd t ∈ idxs)
                  scored).
  { clear -E. induction E as [|i t idxs scored Hi _ IH]; [constructor|].
    constructor.
    - destruct (embeddings self !! i) as [e|] eqn:Ee; [|discriminate].
      injection Hi as <-. split; [|left].
      unfold sim_of. cbn [fst snd]. rewrite Ee. reflexivity.
    - eapply Forall_impl; [exact IH|]. intros u [? ?]. split; [assumption | right; assumption]. }
  exists (PyList.slice_to top_k (sort_desc scored)). split; [reflexivity|]. split; [|split].
  - eapply sorted_sublist; [apply slice_to_sublist | apply sort_desc_sorted].
  - apply Forall_forall. intros t Ht.
    eapply elem_of_sublist in Ht; [|apply slice_to_sublist].
    rewrite sort_desc_perm in Ht. rewrite Forall_forall in Hsc. apply Hsc, Ht.
  - intros Hk. unfold PyList.slice_to.
    replace (top_k <? 0) with false by (symmetry; apply Z.ltb_ge; lia).
    rewrite length_take, sort_desc_perm. apply Forall2_length in E. rewrite E. reflexivity.
Qed.

Lemma rank_order (self : HybridRetriever) (query : string) (top_k : Z)
    (idxs tops : list nat) :
  rank X self query top_k idxs = Ok tops ->
  scores_descending (sim_of X self query) tops /\
  ties_descending (sim_of X self query) tops.
Proof.
  intros H. apply rank_Ok in H as (sorted & -> & Hs & Hf & _).
  assert (Hlk : forall p i, map snd sorted !! p = Some i ->
            sorted !! p = Some (sim_of X self query i, i)).
  { intros p i Hp. rewrite list_lookup_fmap in Hp.
    destruct (sorted !! p) as [[s j]|] eqn:Ep; [|discriminate].
    injection Hp as <-. rewrite Forall_forall in Hf.
    destruct (Hf (s, j)) as [Hsj _]; [eapply list_elem_of_lookup_2; exact Ep|].
    cbn in Hsj. rewrite Hsj. reflexivity. }
  split.
  - intros p q i j Hp Hq Hlt. apply Hlk in Hp, Hq.
    pose proof (sorted_lookup _ _ _ _ _ _ Hs Hp Hq Hlt) as [Hg|[He _]]; cbn in *.
    + apply Qlt_le_weak, Hg.
    + rewrite He. apply Qle_refl.
  - intros p q i j Hp Hq Heq Hji.
    destruct (Nat.lt_trichotomy p q) as [Hlt|[->|Hgt]]; [exact Hlt| |].
    + rewrite Hp in Hq. injection Hq as ->. lia.
    + apply Hlk in Hp, Hq.
      pose proof (sorted_lookup _ _ _ _ _ _ Hs Hq Hp Hgt) as [Hg|[_ Hn]]; cbn in *.
      * rewrite Heq in Hg. exfalso. exact (Qlt_irrefl _ Hg).
      * lia.
Qed.

(** On an empty corpus the constructor hands the empty token list
    to the lexical index and adds no guard of its own: it fails when
    a library does. *)
Lemma new_retriever_empty :
  new_retriever X [] =
  obind (BM25Okapi X []) (fun index =>
  obind (SentenceTransformer X "all-MiniLM-L6-v2") (fun _ =>
  obind (encode_all X []) (fun embeddings =>
  Ok (Retriever [] [] index embeddings)))).
Proof. reflexivity. Qed.

(** The cut commutes with reading the indices. *)
Lemma slice_to_map {A B} (f : A -> B) (k : Z) (l : list A) :
  PyList.slice_to k (map f l) = map f (PyList.slice_to k l).
Proof.
  unfold PyList.slice_to. rewrite length_map.
  destruct (k <? 0); apply firstn_map.
Qed.

(** The order of a sorted list of scored tuples, read on the indices. *)
Lemma sorted_order (sim : nat -> Q) (sorted : list (Q * nat)) :
  StronglySorted tuple_ge sorted ->
  Forall (fun t => fst t = sim (snd t)) sorted ->
  scores_descending sim (map snd sorted) /\ ties_descending sim (map snd sorted).
Proof.
  intros Hs Hf.
  assert (Hlk : forall p i, map snd sorted !! p = Some i ->
            sorted !! p = Some (sim i, i)).
  { intros p i Hp. rewrite list_lookup_fmap in Hp.
    destruct (sorted !! p) as [[s j]|] eqn:Ep; [|discriminate].
    injection Hp as <-. rewrite Forall_forall in Hf.
    pose proof (Hf (s, j) (list_elem_of_lookup_2 _ _ _ Ep)) as Hsj.
    cbn in Hsj. rewrite Hsj. reflexivity. }
  split.
  - intros p q i j Hp Hq Hlt. apply Hlk in Hp, Hq.
    pose proof (sorted_lookup _ _ _ _ _ _ Hs Hp Hq Hlt) as [Hg|[He _]]; cbn in *.
    + apply Qlt_le_weak, Hg.
    + rewrite He. apply Qle_refl.
  - intros p q i j Hp Hq Heq Hji.
    destruct (Nat.lt_trichotomy p q) as [Hlt|[->|Hgt]]; [exact Hlt| |].
    + rewrite Hp in Hq. injection Hq as ->. lia.
    + apply Hlk in Hp, Hq.
      pose proof (sorted_lookup _ _ _ _ _ _ Hs Hq Hp Hgt) as [Hg|[_ Hn]]; cbn in *.
      * rewrite Heq in Hg. exfalso. exact (Qlt_irrefl _ Hg).
      * lia.
Qed.

(** Steps 2 and 3 of [retrieve]: the candidates are put in descending
    order of the tuples and the first [top_k] are kept. *)
Lemma rank_sorted (self : HybridRetriever) (query : string) (top_k : Z)
    (idxs tops : list nat) :
  rank X self query top_k idxs = Ok tops ->
  exists sorted : list nat,
    sorted ≡ₚ idxs /\
    scores_descending (sim_of X self query) sorted /\
    ties_descending (sim_of X self query) sorted /\
    tops = PyList.slice_to top_k sorted.
Proof.
  unfold rank. intros H.
  destruct (omapM _ idxs) as [scored|e] eqn:E; cbn [obind] in H; [|discriminate].
  injection H as <-. apply omapM_Ok in E.
  assert (Hsc : Forall (fun t => fst t = sim_of X self query (snd t)) scored /\
                map snd scored = idxs).
  { clear -E. induction E as [|i t idxs scored Hi _ [IH1 IH2]]; [split; constructor|].
    destruct (embeddings self !! i) as [e|] eqn:Ee; [|discriminate].
    injection Hi as <-. split.
    - constructor; [|exact IH1]. unfold sim_of. cbn [fst snd]. rewrite Ee. reflexivity.
    - cbn [map snd]. rewrite IH2. reflexivity. }
  destruct Hsc as [Hf Hi].
  exists (map snd (sort_desc scored)).
  destruct (sorted_order (sim_of X self query) (sort_desc scored)) as [Hd Ht].
  { apply sort_desc_sorted. }
  { rewrite sort_desc_perm. exact Hf. }
  split; [rewrite sort_desc_perm, Hi; reflexivity|].
  split; [exact Hd|]. split; [exact Ht|].
  symmetry. apply slice_to_map.
Qed.

(** With no candidate from the lexical step the ranked result is
    empty. *)
Lemma retrieve_no_candidates (self : HybridRetriever) (query : string)
    (top_k bm25_top_n : Z) :
  argsort X (bm25 self (PyStr.split (PyStr.lower query))) = [] ->
  retrieve X self query top_k bm25_top_n = Ok [].
Proof.
  intros H. unfold retrieve, rank. rewrite H.
  assert (E : PyList.slice_from (- bm25_top_n) (@nil nat) = []).
  { unfold PyList.slice_from. destruct (- bm25_top_n <? 0); apply drop_nil. }
  rewrite E. cbn [omapM obind sort_desc].
  unfold PyList.slice_to. destruct (top_k <? 0); rewrite take_nil; reflexivity.
Qed.

End WithExternals.

End RankFacts.

(** * The properties of the specification *)

Module Claims.
Import PyStr Config Assembler Props Examples.
Import StrFacts AssemblerFacts LeakageFacts MatcherFacts RecoveryFacts RankFacts.

(** ** Leakage filter *)

(** C1, as amended.  For a supported requested age range the haystack
    of the filter is the dash-normalized heading-plus-text, and the
    filter excludes a chunk exactly when the haystack mentions a
    supported age band and none of the normalized variants of the
    requested range, which is to say not the requested range itself.
    A chunk that mentions no band is kept.  A chunk whose text has the
    literal 55-64 and whose haystack does not mention 18-24 is in the
    context of a query for 18-24 only as a priority chunk. *)
Theorem leakage_filter_excludes (c : chunk) (age_range : string) :
  age_range ∈ SUPPORTED_AGE_RANGES ->
  haystack_of c =
    _normalize_age_text (get_or_empty c "heading" +:+ nl +:+ get_or_empty c "text")
  /\ (_is_other_age_chunk c age_range = true <->
      (exists band, band ∈ age_bands /\ mentions band (haystack_of c)) /\
      (forall v, v ∈ _age_variants age_range ->
                 ~ mentions (_normalize_age_text v) (haystack_of c)))
  /\ (_is_other_age_chunk c age_range = true <->
      (exists band, band ∈ age_bands /\ mentions band (haystack_of c)) /\
      ~ mentions age_range (haystack_of c))
  /\ ((forall band, band ∈ age_bands -> ~ mentions band (haystack_of c)) ->
      _is_other_age_chunk c age_range = false)
  /\ (forall t retrieved a i r top_k,
        age_range = "18-24" ->
        c !! "text" = Some (VStr t) -> mentions "55-64" t ->
        ~ mentions "18-24" (haystack_of c) ->
        c ∈ _safe_context_set (retrieved_filtered age_range retrieved) a i r top_k ->
        Some c = a \/ Some c = i \/ Some c = r).
Proof.
  intros Ha.
  assert (Hshort : _is_other_age_chunk c age_range = true <->
      (exists band, band ∈ age_bands /\ mentions band (haystack_of c)) /\
      ~ mentions age_range (haystack_of c)).
  { rewrite is_other_age_chunk_iff. split; intros [Hb Hv]; (split; [exact Hb|]).
    - destruct (variants_carry_range age_range age_range Ha) as (Hin & Hn & _).
      { destruct (_age_variants age_range) eqn:E; [|].
        - exfalso. unfold SUPPORTED_AGE_RANGES in Ha.
          repeat (apply elem_of_cons in Ha as [->|Ha]);
            try (apply elem_of_nil in Ha; contradiction); discriminate E.
        - unfold SUPPORTED_AGE_RANGES in Ha.
          repeat (apply elem_of_cons in Ha as [->|Ha]);
            try (apply elem_of_nil in Ha; contradiction);
            vm_compute in E; injection E as <- _; left. }
      intros Hm. apply (Hv age_range Hin). rewrite Hn. exact Hm.
    - intros v Hin Hm. apply Hv.
      destruct (variants_carry_range age_range v Ha Hin) as (_ & _ & Hc).
      exact (mentions_trans _ _ _ Hc Hm). }
  split; [apply haystack_normalized|].
  split; [apply is_other_age_chunk_iff|].
  split; [exact Hshort|].
  split.
  - intros Hno. apply not_true_is_false. intros E.
    apply Hshort in E as [(band & Hb & Hm) _]. exact (Hno band Hb Hm).
  - intros t retrieved a i r top_k -> Ht H55 H18 Hin.
    apply safe_context_set_elem in Hin as [[H|[H|[H|H]]] _]; auto.
    exfalso. apply filter_elem in H as [_ H]. apply negb_true_iff in H.
    assert (E : _is_other_age_chunk c "18-24" = true).
    { apply Hshort. split; [|exact H18]. exists "55-64". split.
      - unfold age_bands. set_solver.
      - eapply text_in_haystack; [reflexivity | exact Ht | exact H55]. }
    congruence.
Qed.

Lemma leakage_filter_excludes_witness :
  "18-24" ∈ SUPPORTED_AGE_RANGES /\ _is_other_age_chunk chunk_55 "18-24" = true.
Proof.
  assert (H : "18-24" ∈ SUPPORTED_AGE_RANGES) by (vm_compute; left).
  split; [exact H|].
  apply (leakage_filter_excludes chunk_55 "18-24" H). split.
  - exists "55-64". split; [vm_compute; set_solver|].
    apply contains_mentions. vm_compute. reflexivity.
  - apply not_contains_mentions. vm_compute. reflexivity.
Defined.

(** The wording of C1 fails on a chunk that names both bands. *)
Lemma leakage_55_64_counterexample : ~ leakage_55_64_claim.
Proof.
  intros H.
  destruct (H chunk_mixed "Clients aged 18-24 or 55-64" [chunk_mixed] None None None)
    as [E|[E|E]]; try discriminate E.
  - reflexivity.
  - apply contains_mentions. vm_compute. reflexivity.
  - vm_compute. left.
Qed.

(** ** Context set *)

(** C2, as amended.  For [top_k >= 0] the context set has at most
    [top_k] entries and no [chunk_id] twice, and it is the first
    [top_k] entries of this list: the found priority chunks that have
    a non-empty [chunk_id], in the order age, income, rationale and
    without repeated identifiers, then the fill chunks with a new
    identifier, in their retrieval order. *)
Theorem safe_context_set_invariant (retrieved : list chunk)
    (a i r : option chunk) (top_k : Z) :
  0 <= top_k ->
  Z.of_nat (length (_safe_context_set retrieved a i r top_k)) <= top_k /\
  NoDup ((fun c : chunk => c !! "chunk_id") <$> _safe_context_set retrieved a i r top_k) /\
  exists prio rest,
    _safe_context_set retrieved a i r top_k = take (Z.to_nat top_k) (prio ++ rest) /\
    prio = dedup_ids (found a i r) ∅ /\ sublist prio (found a i r) /\
    rest = dedup_ids retrieved (id_set prio) /\ sublist rest retrieved.
Proof.
  intros Hk. rewrite safe_context_set_eq by exact Hk.
  split; [|split].
  - rewrite length_take. lia.
  - apply NoDup_chunk_ids.
    + apply Forall_take, dedup_ids_valid.
    + eapply sublist_NoDup; [apply dedup_ids_NoDup|].
      apply omap_sublist. apply sublist_take.
  - exists (dedup_ids (found a i r) ∅), (dedup_ids retrieved (id_set (found a i r) ∪ ∅)).
    rewrite <- dedup_ids_app.
    split; [reflexivity|]. split; [reflexivity|].
    split; [apply dedup_ids_sublist|]. split; [|apply dedup_ids_sublist].
    f_equal. apply id_set_dedup.
Qed.

Lemma safe_context_set_invariant_witness :
  0 <= 5 /\
  _safe_context_set [chunk_age; chunk_general; chunk_no_id] (Some chunk_age)
    (Some chunk_income) (Some chunk_rationale) 5 =
  [chunk_age; chunk_income; chunk_rationale; chunk_general].
Proof.
  split; [lia|].
  destruct (safe_context_set_invariant [chunk_age; chunk_general; chunk_no_id]
              (Some chunk_age) (Some chunk_income) (Some chunk_rationale) 5)
    as (_ & _ & prio & rest & -> & -> & _ & -> & _); [lia|].
  vm_compute. reflexivity.
Defined.

(** The wording of C2 fails when [top_k] is smaller than the number
    of priority chunks: the third one has no slot. *)
Lemma priority_first_counterexample :
  ~ priority_first_claim [] (Some chunk_age) (Some chunk_income)
      (Some chunk_rationale) 2.
Proof.
  intros (_ & _ & rest & H & _).
  apply (f_equal length) in H. rewrite length_app in H.
  vm_compute in H. lia.
Qed.

(** C10.  Every entry of the context set has a non-empty [chunk_id],
    whatever the priority chunks, the fill list and [top_k]: a chunk
    without the key, with [None] or with the empty string under it is
    never an entry. *)
Theorem context_entries_have_chunk_id (retrieved : list chunk)
    (a i r : option chunk) (top_k : Z) (c : chunk) :
  c ∈ _safe_context_set retrieved a i r top_k ->
  (exists cid, c !! "chunk_id" = Some (VStr cid) /\ cid <> "")
  /\ c !! "chunk_id" <> None /\ c !! "chunk_id" <> Some VNone
  /\ c !! "chunk_id" <> Some (VStr "").
Proof.
  intros H. apply safe_context_set_elem in H as [_ [cid Hc]].
  apply chunk_id_of_Some in Hc as [Hc Hne].
  split; [eauto|]. rewrite Hc. repeat split; congruence.
Qed.

Lemma context_entries_have_chunk_id_witness :
  chunk_general ∈ _safe_context_set [chunk_no_id; chunk_general] (Some chunk_no_id)
                    None None 5
  /\ chunk_general !! "chunk_id" <> None.
Proof.
  assert (H : chunk_general ∈ _safe_context_set [chunk_no_id; chunk_general]
                (Some chunk_no_id) None None 5) by (vm_compute; left).
  split; [exact H|]. apply (context_entries_have_chunk_id _ _ _ _ _ _ H).
Defined.

(** ** Profile gate *)

Import Pipeline.

(** C3.  With an age range or an income type outside the supported
    lists the pipeline returns at once: the result has
    [insufficient_context] set and exactly two clarifying questions,
    and the process state is the one it started from, so the
    retriever was neither loaded nor asked. *)
Theorem invalid_profile_short_circuits (X : Externals)
    (age_range income_type : string) (w : World) :
  age_range ∉ SUPPORTED_AGE_RANGES \/ income_type ∉ SUPPORTED_INCOME_TYPES ->
  exists res q1 q2,
    generate_pathfinder_suggestions X age_range income_type w = (Ok res, w) /\
    insufficient_context res = Some true /\
    clarifying_questions res = Some [q1; q2] /\
    suggestions res = JArr [] /\ retrieved_evidence res = [].
Proof.
  intros H. unfold generate_pathfinder_suggestions.
  assert (E : negb (bool_decide (age_range ∈ SUPPORTED_AGE_RANGES))
              || negb (bool_decide (income_type ∈ SUPPORTED_INCOME_TYPES)) = true).
  { apply orb_true_iff. destruct H as [H|H]; [left|right];
      apply negb_true_iff, bool_decide_eq_false; exact H. }
  rewrite E. unfold ret, invalid_profile_questions.
  eexists _, _, _. repeat split; reflexivity.
Qed.

Lemma invalid_profile_short_circuits_witness :
  ("99-100" ∉ SUPPORTED_AGE_RANGES \/ "Salary" ∉ SUPPORTED_INCOME_TYPES) /\
  trace (snd (generate_pathfinder_suggestions X0 "99-100" "Salary" world0)) = [].
Proof.
  assert (H : "99-100" ∉ SUPPORTED_AGE_RANGES \/ "Salary" ∉ SUPPORTED_INCOME_TYPES).
  { left. apply (bool_decide_unpack _). vm_compute. exact I. }
  split; [exact H|].
  destruct (invalid_profile_short_circuits X0 "99-100" "Salary" world0 H)
    as (res & q1 & q2 & -> & _).
  reflexivity.
Defined.

(** ** Output recovery *)

Import Generator.

(** C4.  When the raw text does not parse, neither does its brace
    slice, the repair returns a text, and that text and its brace
    slice do not parse either, recovery raises and returns no value.
    It raises the error of the last attempt it makes.  When
    [json.loads] raises [JSONDecodeError] on the raw and on the
    repaired text, that is the last of the four: a [ValueError] when
    the repaired text has no brace pair, and what [json.loads] raises
    on the brace slice otherwise.  Another error of [json.loads] ends
    recovery where it is raised: at once on the raw text, after the
    repair on the repaired text. *)
Theorem recovery_terminal_failure (X : Externals) (raw repaired : string)
    (w w' : World) (e1 e3 : exn) :
  json_loads X raw = Raise e1 ->
  extract_loads X raw = None ->
  _repair_json_with_llm X raw w = (Ok repaired, w') ->
  json_loads X repaired = Raise e3 ->
  extract_loads X repaired = None ->
  exists e w1,
    recover X raw w = (Raise e, w1) /\
    (e1 = JSONDecodeError -> e3 = JSONDecodeError ->
     w1 = w' /\
     (e = ValueError "No JSON object found in model response." \/
      exists text,
        _extract_json_object repaired = Ok text /\ json_loads X text = Raise e)) /\
    (e1 = JSONDecodeError -> e3 <> JSONDecodeError -> w1 = w' /\ e = e3) /\
    (e1 <> JSONDecodeError -> w1 = w /\ e = e1).
Proof.
  intros H1 H2 H3 H4 H5. rewrite recover_eq, H1.
  destruct (is_JSONDecodeError e1) eqn:D1.
  2:{ exists e1, w. split; [reflexivity|].
      split; [intros ->; discriminate D1|]. split; [intros ->; discriminate D1|].
      auto. }
  destruct e1; try discriminate D1. clear D1.
  rewrite H2, H3, H4.
  destruct (is_JSONDecodeError e3) eqn:D3.
  2:{ exists e3, w'. split; [reflexivity|].
      split; [intros _ ->; discriminate D3|]. split; [auto | congruence]. }
  destruct e3; try discriminate D3. clear D3.
  unfold extract_loads in H5.
  destruct (_extract_json_object repaired) as [text|e] eqn:E.
  - destruct (json_loads X text) as [v|e] eqn:E6; [discriminate|].
    exists e, w'. split; [reflexivity|]. split; [|split; congruence].
    intros _ _. split; [reflexivity|]. right. exists text. auto.
  - exists e, w'. split; [reflexivity|]. split; [|split; congruence].
    intros _ _. split; [reflexivity|]. left.
    unfold _extract_json_object in E.
    destruct ((_ =? -1) || (_ =? -1) || (_ <=? _)); [|discriminate].
    injection E as <-. reflexivity.
Qed.

Lemma recovery_terminal_failure_witness :
  exists e w', recover X_garbage "not json at all" world0 = (Raise e, w').
Proof.
  destruct (recovery_terminal_failure X_garbage "not json at all" "still not json"
              world0 (snd (_repair_json_with_llm X_garbage "not json at all" world0))
              JSONDecodeError JSONDecodeError)
    as (e & w1 & He & _); try (vm_compute; reflexivity).
  eauto.
Defined.

(** C5.  Recovery calls the repair at most once, and when the raw
    text parses as it is the repair is not called, nothing is posted
    and the result is the direct parse. *)
Theorem recovery_repairs_at_most_once (X : Externals) (raw : string) (w : World) :
  (exists evs,
     trace (snd (recover X raw w)) = trace w ++ evs /\
     (repairs evs <= 1)%nat /\
     (length (List.filter is_post evs) <= 1)%nat)
  /\ (forall v, json_loads X raw = Ok v -> recover X raw w = (Ok v, w)).
Proof.
  split.
  - destruct (recover_trace X raw w) as [H|H].
    + exists []. rewrite H, app_nil_r. split; [reflexivity|]. split; cbn; lia.
    + destruct (repair_trace X raw w) as (evs & Ht & Hr & Hl).
      exists (EvRepair raw :: evs). rewrite H, Ht. split; [reflexivity|].
      split.
      * change (EvRepair raw :: evs) with ([EvRepair raw] ++ evs).
        rewrite repairs_app, Hr. cbn. lia.
      * cbn [List.filter is_post].
        pose proof (List.filter_length_le is_post evs). lia.
  - intros v Hv. rewrite recover_eq, Hv. reflexivity.
Qed.

Lemma recovery_repairs_at_most_once_witness :
  json_loads X0 "[1, 2]" = Ok (JArr [JNum 1; JNum 2]) /\
  recover X0 "[1, 2]" world0 = (Ok (JArr [JNum 1; JNum 2]), world0).
Proof.
  assert (H : json_loads X0 "[1, 2]" = Ok (JArr [JNum 1; JNum 2]))
    by (vm_compute; reflexivity).
  split; [exact H|].
  apply (recovery_repairs_at_most_once X0 "[1, 2]" world0). exact H.
Defined.

(** C6.  No schema validation is run: on the escalation example of
    the specification, an answer with an object between other text,
    recovery returns the object found between the braces as a success
    although it has the one key [title] and so not the schema.  The
    docstring of [generate_with_llm] promises the two keys
    [suggestions] and [follow_up_questions]. *)
Theorem recovery_returns_unvalidated :
  recover X0 garbage_object world0 = (Ok (JObj [("title", JStr "x")]), world0) /\
  schema_valid (JObj [("title", JStr "x")]) = false.
Proof. split; vm_compute; reflexivity. Qed.

(** ** Ranking *)

Import Retrieval.

(** C7, as amended.  The candidates of the lexical step are put in
    descending order of similarity, two candidates with the same
    similarity in descending order of their corpus index, and the
    first [top_k] of that order are taken: the result holds the chunks
    at those indices, in that order. *)
Theorem ranking_ties_descending (X : Externals) (self : HybridRetriever)
    (query : string) (top_k bm25_top_n : Z) (ranked : list chunk) :
  retrieve X self query top_k bm25_top_n = Ok ranked ->
  exists sorted : list nat,
    sorted ≡ₚ candidates X self query bm25_top_n /\
    scores_descending (sim_of X self query) sorted /\
    ties_descending (sim_of X self query) sorted /\
    Forall2 (fun i c => chunks self !! i = Some c)
            (PyList.slice_to top_k sorted) ranked /\
    (0 <= top_k -> Z.of_nat (length ranked) <= top_k).
Proof.
  unfold retrieve. fold (candidates X self query bm25_top_n). intros H.
  destruct (rank X self query top_k _) as [tops|e] eqn:E; cbn [obind] in H;
    [|discriminate].
  apply omapM_Ok in H.
  assert (HF : Forall2 (fun i c => chunks self !! i = Some c) tops ranked).
  { clear -H. induction H as [|i c tops ranked Hi _ IH]; constructor; [|exact IH].
    destruct (chunks self !! i); [injection Hi as ->; reflexivity | discriminate]. }
  destruct (rank_sorted X _ _ _ _ _ E) as (sorted & Hp & Hd & Ht & Htops).
  exists sorted. split; [exact Hp|]. split; [exact Hd|]. split; [exact Ht|].
  split; [rewrite <- Htops; exact HF|].
  intros Hk. apply rank_Ok in E as (cut & -> & _ & _ & Hl).
  apply Forall2_length in HF. rewrite <- HF, length_map, (Hl Hk). lia.
Qed.

Lemma ranking_ties_descending_witness :
  retrieve X0 retriever2 "age" 5 10 = Ok [chunk_hy; chunk_age] /\
  exists sorted : list nat,
    sorted ≡ₚ candidates X0 retriever2 "age" 10 /\
    ties_descending (sim_of X0 retriever2 "age") sorted /\
    Forall2 (fun i c => chunks retriever2 !! i = Some c)
            (PyList.slice_to 5 sorted) [chunk_hy; chunk_age].
Proof.
  assert (H : retrieve X0 retriever2 "age" 5 10 = Ok [chunk_hy; chunk_age])
    by (vm_compute; reflexivity).
  split; [exact H|].
  destruct (ranking_ties_descending X0 retriever2 "age" 5 10 _ H)
    as (sorted & Hp & _ & Ht & HF & _).
  exists sorted. split; [exact Hp|]. split; assumption.
Defined.

(** The wording of C7 fails on two candidates that score alike: the
    one with the larger index is ranked first. *)
Lemma ties_ascending_counterexample : ~ ties_ascending_claim X0.
Proof.
  intros H.
  specialize (H retriever2 "age" 5 [0; 1]%nat [1; 0]%nat).
  assert (E : rank X0 retriever2 "age" 5 [0; 1]%nat = Ok [1; 0]%nat)
    by (vm_compute; reflexivity).
  specialize (H E 1%nat 0%nat 0%nat 1%nat).
  assert (Hlt : (1 < 0)%nat); [|lia].
  apply H; [reflexivity | reflexivity | | lia].
  vm_compute. reflexivity.
Qed.

(** ** Age priority chunk *)

(** C9, as amended.  The age chunk is the first chunk of the corpus
    whose heading or text has, whatever the case of the letters, one
    of the accepted variants of the requested range; when no chunk
    has one there is no age chunk.  For a supported range [A-B] the
    accepted variants are [A-B], [A–B] with an en dash, [A to B],
    [A to B years], [A-B years] and [A–B years]; a text that spells
    the range with an em dash or a minus sign matches none of them. *)
Theorem age_chunk_first_match (chunks : list chunk) (age_range : string) :
  age_range ∈ SUPPORTED_AGE_RANGES ->
  (forall c,
     _best_chunk_by_text chunks (_age_variants age_range) = Some c <->
     exists pre post,
       chunks = pre ++ c :: post /\
       Forall (fun d => ~ accepts age_range d) pre /\ accepts age_range c)
  /\ (_best_chunk_by_text chunks (_age_variants age_range) = None <->
      Forall (fun d => ~ accepts age_range d) chunks)
  /\ (contains "-" age_range = true ->
      exists a b,
        age_range = a +:+ "-" +:+ b /\
        _age_variants age_range =
          [ a +:+ "-" +:+ b; a +:+ "–" +:+ b; a +:+ " to " +:+ b;
            a +:+ " to " +:+ b +:+ " years"; a +:+ "-" +:+ b +:+ " years";
            a +:+ "–" +:+ b +:+ " years" ])
  /\ (forall dash, dash ∈ ["—"; "−"] -> contains "-" age_range = true ->
      _matches_any (replace "-" dash age_range) (_age_variants age_range) = false).
Proof.
  intros Ha.
  assert (Hacc : forall d,
            _matches_any (heading_text d) (_age_variants age_range) = true <->
            accepts age_range d).
  { intros d. rewrite matches_any_iff. unfold accepts.
    split; intros (v & Hv & Hm); exists v; (split; [exact Hv|]);
      destruct (age_variants_plain age_range v Ha Hv) as [Hne Hnl];
      apply (heading_text_mentions d (lower v) Hne Hnl); exact Hm. }
  assert (Hnot : forall l,
            Forall (fun d => _matches_any (heading_text d) (_age_variants age_range) = false) l <->
            Forall (fun d => ~ accepts age_range d) l).
  { intros l. split; intros HF; (eapply Forall_impl; [exact HF|]);
      cbv beta; intros d Hd.
    - rewrite <- Hacc. congruence.
    - apply not_true_is_false. rewrite Hacc. exact Hd. }
  split; [|split; [|split]].
  - intros c. rewrite best_chunk_Some. split;
      intros (pre & post & He & Hp & Hc); exists pre, post;
      (split; [exact He|]); (split; [apply Hnot, Hp | apply Hacc, Hc]).
  - rewrite best_chunk_None. apply Hnot.
  - apply age_variants_hyphenated, Ha.
  - intros dash Hd Hc. apply other_dashes_not_accepted; assumption.
Qed.

Lemma age_chunk_first_match_witness :
  "18-24" ∈ SUPPORTED_AGE_RANGES /\
  Forall (fun d => ~ accepts "18-24" d) [chunk_em].
Proof.
  assert (H : "18-24" ∈ SUPPORTED_AGE_RANGES) by (vm_compute; left).
  split; [exact H|].
  apply (age_chunk_first_match [chunk_em] "18-24" H). vm_compute. reflexivity.
Defined.

(** The wording of C9 fails on a corpus that spells the range with
    an em dash first and with a hyphen next: the second chunk is
    picked. *)
Lemma age_chunk_counterexample : ~ age_chunk_claim.
Proof.
  intros H.
  specialize (H [chunk_em; chunk_hy] "18-24").
  assert (Ha : "18-24" ∈ SUPPORTED_AGE_RANGES) by (vm_compute; left).
  specialize (H Ha). vm_compute in H. discriminate H.
Qed.

End Claims.


(** * The model on concrete inputs *)

Module Runs.
Import PyStr Config Assembler Props Examples Generator Retrieval Pipeline.

Example lower_ex : PyStr.lower "Clients 55–64 To" = "clients 55–64 to".
Proof. reflexivity. Qed.

Example replace_ex : PyStr.replace " to " "-" "18 to 24 to  to x" = "18-24--x".
Proof. reflexivity. Qed.

Example replace_dash_ex : PyStr.replace "–" "-" "18–24, 55–64" = "18-24, 55-64".
Proof. reflexivity. Qed.

Example replace_overlap_ex : PyStr.replace "aa" "b" "aaaaa" = "bba".
Proof. reflexivity. Qed.

Example split_once_ex : PyStr.split_once "-" "18-24-x" = Some ("18", "24-x").
Proof. reflexivity. Qed.

Example split_ex : PyStr.split "  age range  18-24 " = ["age"; "range"; "18-24"].
Proof. reflexivity. Qed.

(** A no-break space (U+00A0) and an em space (U+2003) are white
    space. *)
Example strip_ex :
  let nbsp := String (ascii_of_nat 194) (String (ascii_of_nat 160) "") in
  let emsp := String (ascii_of_nat 226) (String (ascii_of_nat 128)
                (String (ascii_of_nat 131) "")) in
  PyStr.strip (nbsp +:+ " Intro" +:+ emsp +:+ nl) = "Intro" /\
  PyStr.strip (nbsp +:+ emsp) = "" /\
  PyStr.split ("First" +:+ nbsp +:+ "Time" +:+ emsp +:+ "buyers") =
    ["First"; "Time"; "buyers"].
Proof. repeat split; reflexivity. Qed.

Example find_ex : PyStr.find "{" "ab{c}{d}e" = 2 /\ PyStr.rfind "}" "ab{c}{d}e" = 7.
Proof. split; reflexivity. Qed.

Example slice_ex : PyStr.slice "ab{c}{d}e" 2 8 = "{c}{d}".
Proof. reflexivity. Qed.

Example take_chars_ex : PyStr.take_chars 3 "5–6–7" = "5–6".
Proof. reflexivity. Qed.

Example slice_from_ex :
  PyList.slice_from (-2) [1; 2; 3] = [2; 3] /\ PyList.slice_from (-0) [1; 2; 3] = [1; 2; 3].
Proof. split; reflexivity. Qed.

Example age_variants_ex :
  _age_variants "18-24" =
  ["18-24"; "18–24"; "18 to 24"; "18 to 24 years"; "18-24 years"; "18–24 years"]
  /\ _age_variants "65+" = ["65+"].
Proof. split; reflexivity. Qed.

Example normalize_ex :
  _normalize_age_text "Clients 55—64 and 18 TO 24" = "clients 55-64 and 18-24".
Proof. reflexivity. Qed.

Example other_age_ex :
  _is_other_age_chunk chunk_55 "18-24" = true /\
  _is_other_age_chunk chunk_mixed "18-24" = false /\
  _is_other_age_chunk chunk_general "18-24" = false.
Proof. repeat split; vm_compute; reflexivity. Qed.

(** The end-to-end scenario of the specification, on the assembler. *)
Example context_set_ex :
  _safe_context_set
    (retrieved_filtered "18-24" [chunk_55; chunk_age; chunk_general; chunk_mixed])
    (_best_chunk_by_text [chunk_55; chunk_age; chunk_income; chunk_rationale]
       (_age_variants "18-24"))
    (_best_chunk_by_text [chunk_55; chunk_age; chunk_income; chunk_rationale]
       ["Commission"])
    (_best_chunk_by_text [chunk_55; chunk_age; chunk_income; chunk_rationale]
       ["what is your age range"])
    TOP_K
  = [chunk_age; chunk_income; chunk_rationale; chunk_general; chunk_mixed].
Proof. vm_compute. reflexivity. Qed.

Example extract_ex :
  _extract_json_object garbage_object =
    Ok ("{" +:+ dq +:+ "title" +:+ dq +:+ ":" +:+ dq +:+ "x" +:+ dq +:+ "}")
  /\ _extract_json_object "} no object {" =
    Raise (ValueError "No JSON object found in model response.").
Proof. split; reflexivity. Qed.

(** Recovery escalation: the object between the braces is found
    without a repair. *)
Example recover_escalation_ex :
  recover X0 garbage_object world0 = (Ok (JObj [("title", JStr "x")]), world0).
Proof. vm_compute. reflexivity. Qed.

Example recover_repaired_ex :
  fst (recover X_repaired "not json at all" world0) = Ok (JArr [JNum 1; JNum 2]) /\
  repairs (trace (snd (recover X_repaired "not json at all" world0))) = 1%nat.
Proof. split; vm_compute; reflexivity. Qed.

Example recover_failure_ex :
  fst (recover X_garbage "not json at all" world0) =
  Raise (ValueError "No JSON object found in model response.").
Proof. vm_compute. reflexivity. Qed.

Example retrieve_tie_ex :
  retrieve X0 retriever2 "age" 5 10 = Ok [chunk_hy; chunk_age].
Proof. vm_compute. reflexivity. Qed.

Example profile_gate_ex :
  fst (generate_pathfinder_suggestions X0 "99-100" "Salary" world0) =
  Ok (Result ("99-100", "Salary") (JArr []) (JArr []) [] (Some true)
             (Some invalid_profile_questions)).
Proof. vm_compute. reflexivity. Qed.

(** An empty corpus: the index refuses it and the pipeline raises. *)
Example empty_corpus_ex :
  fst (generate_pathfinder_suggestions X0 "18-24" "Salary" world0) =
  Raise ZeroDivisionError.
Proof. vm_compute. reflexivity. Qed.

(** Paragraphs of no-break spaces are skipped, whatever their style,
    and a heading loses the one it starts with. *)
Example ingest_nbsp_ex :
  let nbsp := String (ascii_of_nat 194) (String (ascii_of_nat 160) "") in
  Ingest.ingest_docx Ingest.re_ascii
    [ Ingest.Paragraph (Some "Heading 1") (nbsp +:+ "Intro") [];
      Ingest.Paragraph None nbsp [];
      Ingest.Paragraph (Some "Heading 2") (nbsp +:+ nbsp) [];
      Ingest.Paragraph None "Body" [] ] =
  [mk_chunk "misc_01" "Intro" "Body"].
Proof. vm_compute. reflexivity. Qed.

(** A setting of the provider that ends in a no-break space. *)
Example provider_nbsp_ex :
  let nbsp := String (ascii_of_nat 194) (String (ascii_of_nat 160) "") in
  LLM_PROVIDER (Views.with_env "LLM_PROVIDER" ("Ollama" +:+ nbsp) X0) = "ollama".
Proof. vm_compute. reflexivity. Qed.

End Runs.

(** * Facts about search, slices and whitespace *)

Module ScanFacts.
Import PyStr Props StrFacts.

Lemma length_append (a b : string) :
  String.length (a +:+ b) = (String.length a + String.length b)%nat.
Proof.
  induction a as [|c a IH]; [reflexivity|].
  rewrite append_cons. simpl. rewrite IH. reflexivity.
Qed.

Lemma prefix_char (ch c : ascii) (x : string) :
  String.prefix (String ch "") (String c x) = bool_decide (ch = c).
Proof. rewrite prefix_cons, prefix_nil_l, andb_true_r. reflexivity. Qed.

Lemma char_in_app (ch : ascii) (a b : string) :
  char_in ch (a +:+ b) = char_in ch a || char_in ch b.
Proof.
  induction a as [|c a IH]; [reflexivity|].
  rewrite append_cons. simpl. rewrite IH, orb_assoc. reflexivity.
Qed.

(** The first occurrence of a character. *)
Lemma char_in_first (ch : ascii) (s : string) :
  char_in ch s = true ->
  exists pre rest, s = pre +:+ String ch rest /\ char_in ch pre = false.
Proof.
  induction s as [|c s IH]; [discriminate|].
  simpl. destruct (bool_decide (ch = c)) eqn:E; simpl; intros H.
  - apply bool_decide_eq_true in E. subst c. exists "", s. split; reflexivity.
  - destruct (IH H) as (pre & rest & -> & Hp).
    exists (String c pre), rest. split; [reflexivity|].
    simpl. rewrite E, Hp. reflexivity.
Qed.

(** The last occurrence of a character. *)
Lemma char_in_last (ch : ascii) (s : string) :
  char_in ch s = true ->
  exists a post, s = a +:+ String ch post /\ char_in ch post = false.
Proof.
  induction s as [|c s IH]; [discriminate|].
  simpl. destruct (char_in ch s) eqn:Es.
  - intros _. destruct (IH eq_refl) as (a & post & -> & Hp).
    exists (String c a), post. split; [reflexivity | exact Hp].
  - rewrite orb_false_r. intros E. apply bool_decide_eq_true in E. subst c.
    exists "", s. split; [reflexivity | exact Es].
Qed.

Lemma find_from_none (ch : ascii) (s : string) (i : Z) :
  char_in ch s = false -> find_from (String ch "") s i = -1.
Proof.
  revert i. induction s as [|c s IH]; intros i H; [reflexivity|].
  simpl in H. apply orb_false_iff in H as [Hc H].
  cbn [find_from]. rewrite prefix_char, Hc. apply IH, H.
Qed.

Lemma find_from_first (ch : ascii) (pre rest : string) (i : Z) :
  char_in ch pre = false ->
  find_from (String ch "") (pre +:+ String ch rest) i =
  i + Z.of_nat (String.length pre).
Proof.
  revert i. induction pre as [|c pre IH]; intros i H.
  - rewrite append_nil_l. cbn [find_from].
    rewrite prefix_char, bool_decide_eq_true_2 by reflexivity. simpl. lia.
  - simpl in H. apply orb_false_iff in H as [Hc H].
    rewrite append_cons. cbn [find_from]. rewrite prefix_char, Hc, IH by exact H.
    cbn [String.length]. lia.
Qed.

Lemma rfind_from_none (ch : ascii) (s : string) (i : Z) :
  char_in ch s = false -> rfind_from (String ch "") s i = -1.
Proof.
  revert i. induction s as [|c s IH]; intros i H; [reflexivity|].
  simpl in H. apply orb_false_iff in H as [Hc H].
  cbn [rfind_from]. rewrite IH by exact H. rewrite prefix_char, Hc. reflexivity.
Qed.

Lemma rfind_from_last (ch : ascii) (a post : string) (i : Z) :
  0 <= i -> char_in ch post = false ->
  rfind_from (String ch "") (a +:+ String ch post) i =
  i + Z.of_nat (String.length a).
Proof.
  revert i. induction a as [|c a IH]; intros i Hi H.
  - rewrite append_nil_l. cbn [rfind_from].
    rewrite rfind_from_none by exact H.
    rewrite prefix_char, bool_decide_eq_true_2 by reflexivity. simpl. lia.
  - rewrite append_cons. cbn [rfind_from]. rewrite IH by (lia || exact H).
    replace (i + 1 + Z.of_nat (String.length a) =? -1) with false
      by (symmetry; apply Z.eqb_neq; lia).
    cbn [String.length]. lia.
Qed.

Lemma substring_all (b c : string) :
  String.substring 0 (String.length b) (b +:+ c) = b.
Proof.
  induction b as [|x b IH]; [destruct c; reflexivity|].
  rewrite append_cons. simpl. rewrite IH. reflexivity.
Qed.

Lemma substring_mid (a b c : string) :
  String.substring (String.length a) (String.length b) (a +:+ b +:+ c) = b.
Proof.
  induction a as [|x a IH]; [rewrite append_nil_l; apply substring_all|].
  rewrite append_cons. simpl. exact IH.
Qed.

(** Two ways to cut the same text line up. *)
Lemma app_align (pre a x y : string) :
  a +:+ x = pre +:+ y -> (String.length pre <= String.length a)%nat ->
  exists m, a = pre +:+ m /\ y = m +:+ x.
Proof.
  revert a. induction pre as [|c pre IH]; intros a H Hl.
  - exists a. split; [reflexivity | symmetry; exact H].
  - destruct a as [|d a]; [simpl in Hl; lia|].
    rewrite !append_cons in H. injection H as -> H.
    destruct (IH a H) as (m & -> & ->); [simpl in Hl; lia|].
    exists m. split; reflexivity.
Qed.

(** ** [strip] *)

Lemma string_length_ind (P : string -> Prop) :
  (forall s, (forall t, (String.length t < String.length s)%nat -> P t) -> P s) ->
  forall s, P s.
Proof.
  intros H s. remember (String.length s) as n eqn:En.
  revert s En. induction n as [n IH] using lt_wf_ind. intros s ->.
  apply H. intros t Ht. exact (IH _ Ht t eq_refl).
Qed.

(** [lstrip] drops one white-space character after the other. *)
Lemma lstrip_eq (s : string) :
  lstrip s = match after_space s with
             | Some r => lstrip r
             | None => s
             end.
Proof.
  destruct s as [|c r]; [reflexivity|].
  change (lstrip (String c r)) with
    (if is_space c then lstrip r
     else match r with
          | String d r2 =>
              if is_space2 c d then lstrip r2
              else match r2 with
                   | String e r3 =>
                       if is_space3 c d e then lstrip r3 else String c r
                   | "" => String c r
                   end
          | "" => String c r
          end).
  cbn [after_space]. destruct (is_space c); [reflexivity|].
  destruct r as [|d r2]; [reflexivity|]. destruct (is_space2 c d); [reflexivity|].
  destruct r2 as [|e r3]; [reflexivity|]. destruct (is_space3 c d e); reflexivity.
Qed.

Lemma after_space_length (s r : string) :
  after_space s = Some r -> (String.length r < String.length s)%nat.
Proof.
  destruct s as [|c [|d [|e t]]]; cbn [after_space];
    repeat match goal with |- context [if ?b then _ else _] => destruct b end;
    intros H; inversion H; subst; cbn [String.length]; lia.
Qed.

Lemma after_space_app (s r y : string) :
  after_space s = Some r -> after_space (s +:+ y) = Some (r +:+ y).
Proof.
  destruct s as [|c [|d [|e t]]]; cbn [after_space]; rewrite ?append_cons;
    cbn [after_space];
    repeat match goal with |- context [if ?b then _ else _] => destruct b eqn:? end;
    intros H; inversion H; subst; rewrite ?append_cons, ?append_nil_l;
    cbn [after_space];
    repeat match goal with
           | E : ?b = _ |- context [?b] => rewrite E
           end; reflexivity.
Qed.

Lemma after_space_split (s r : string) :
  after_space s = Some r -> exists sp, s = sp +:+ r /\ lstrip sp = "".
Proof.
  destruct s as [|c [|d [|e t]]]; cbn [after_space];
    repeat match goal with |- context [if ?b then _ else _] => destruct b eqn:? end;
    intros H; inversion H; subst.
  all: first
    [ exists (String c ""); split; [reflexivity|];
      cbn [lstrip];
      repeat match goal with E : ?b = _ |- context [?b] => rewrite E end;
      reflexivity
    | exists (String c (String d "")); split; [reflexivity|];
      cbn [lstrip];
      repeat match goal with E : ?b = _ |- context [?b] => rewrite E end;
      reflexivity
    | exists (String c (String d (String e ""))); split; [reflexivity|];
      cbn [lstrip];
      repeat match goal with E : ?b = _ |- context [?b] => rewrite E end;
      reflexivity ].
Qed.

Lemma lstrip_length (s : string) : (String.length (lstrip s) <= String.length s)%nat.
Proof.
  induction s as [s IH] using string_length_ind. rewrite lstrip_eq.
  destruct (after_space s) as [r|] eqn:E; [|lia].
  apply after_space_length in E. specialize (IH r E). lia.
Qed.

(** What [lstrip] returns starts with no white space. *)
Lemma lstrip_done (s : string) : after_space (lstrip s) = None.
Proof.
  induction s as [s IH] using string_length_ind. rewrite lstrip_eq.
  destruct (after_space s) as [r|] eqn:E; [|exact E].
  apply IH. eapply after_space_length, E.
Qed.

Lemma lstrip_fixed (s : string) : after_space s = None -> lstrip s = s.
Proof. intros H. rewrite lstrip_eq, H. reflexivity. Qed.

Lemma lstrip_idem (s : string) : lstrip (lstrip s) = lstrip s.
Proof. apply lstrip_fixed, lstrip_done. Qed.

(** A text of white space only, and then some more. *)
Lemma lstrip_blank_app (u q : string) : lstrip u = "" -> lstrip (u +:+ q) = lstrip q.
Proof.
  induction u as [u IH] using string_length_ind. intros H.
  rewrite lstrip_eq in H. destruct (after_space u) as [r|] eqn:E.
  - rewrite (lstrip_eq (u +:+ q)), (after_space_app _ _ q E).
    apply IH; [eapply after_space_length, E | exact H].
  - subst u. rewrite append_nil_l. reflexivity.
Qed.

(** The text is the white space [lstrip] drops and what it returns. *)
Lemma lstrip_split (s : string) :
  exists sp, s = sp +:+ lstrip s /\ lstrip sp = "".
Proof.
  induction s as [s IH] using string_length_ind. rewrite lstrip_eq.
  destruct (after_space s) as [r|] eqn:E.
  - destruct (IH r (after_space_length _ _ E)) as (sp' & Hr & Hsp').
    destruct (after_space_split _ _ E) as (sp0 & Hs & Hsp0).
    exists (sp0 +:+ sp'). split.
    + rewrite append_assoc, <- Hr. exact Hs.
    + rewrite (lstrip_blank_app _ _ Hsp0). exact Hsp'.
  - exists "". split; reflexivity.
Qed.

(** The text is what [rstrip] returns and the white space it drops. *)
Lemma rstrip_split (s : string) :
  exists q, s = rstrip s +:+ q /\ lstrip q = "".
Proof.
  induction s as [|c s (q & IH & Hq)]; [exists ""; split; reflexivity|].
  cbn [rstrip]. destruct (String.eqb (lstrip (String c s)) "") eqn:E.
  - apply String.eqb_eq in E. exists (String c s). split; [reflexivity | exact E].
  - exists q. rewrite append_cons, <- IH. split; [reflexivity | exact Hq].
Qed.

Lemma rstrip_idem (s : string) : rstrip (rstrip s) = rstrip s.
Proof.
  induction s as [|c s IH]; [reflexivity|].
  cbn [rstrip]. destruct (String.eqb (lstrip (String c s)) "") eqn:E; [reflexivity|].
  cbn [rstrip]. rewrite IH.
  destruct (String.eqb (lstrip (String c (rstrip s))) "") eqn:E'; [|reflexivity].
  apply String.eqb_eq in E'. apply String.eqb_neq in E. exfalso. apply E.
  destruct (rstrip_split s) as (q & Hs & Hq).
  rewrite Hs at 1. rewrite <- append_cons, (lstrip_blank_app _ _ E'). exact Hq.
Qed.

(** Cutting the end leaves the start as it is. *)
Lemma rstrip_start (s : string) : after_space s = None -> after_space (rstrip s) = None.
Proof.
  intros H. destruct (after_space (rstrip s)) as [r|] eqn:E; [|reflexivity].
  destruct (rstrip_split s) as (q & Hs & _).
  apply (after_space_app _ _ q) in E. rewrite <- Hs, H in E. discriminate.
Qed.

Lemma strip_idem (s : string) : strip (strip s) = strip s.
Proof.
  unfold strip. rewrite (lstrip_fixed (rstrip (lstrip s))).
  - apply rstrip_idem.
  - apply rstrip_start, lstrip_done.
Qed.

(** No white-space character has a space as its second or third
    byte. *)
Lemma is_space2_sp (c : ascii) : is_space2 c " " = false.
Proof. unfold is_space2. cbn. apply andb_false_r. Qed.

Lemma is_space3_sp (c e : ascii) : is_space3 c " " e = false.
Proof.
  unfold is_space3. cbn. rewrite !andb_false_r. reflexivity.
Qed.

Lemma is_space3_sp' (c d : ascii) : is_space3 c d " " = false.
Proof.
  unfold is_space3. cbn. rewrite !andb_false_r. reflexivity.
Qed.

(** A text that starts with no white space still does so with a space
    and more text after it. *)
Lemma after_space_sep (a y : string) :
  a <> "" -> after_space a = None -> after_space (a +:+ String " " y) = None.
Proof.
  intros Hne. destruct a as [|c [|d [|e t]]]; [contradiction|..];
    rewrite ?append_cons, ?append_nil_l; cbn [after_space].
  - rewrite is_space2_sp. destruct (is_space c); [discriminate|]. intros _.
    destruct y; rewrite ?is_space3_sp; reflexivity.
  - rewrite is_space3_sp'.
    destruct (is_space c); [discriminate|]. destruct (is_space2 c d); [discriminate|].
    reflexivity.
  - destruct (is_space c); [discriminate|]. destruct (is_space2 c d); [discriminate|].
    destruct (is_space3 c d e); [discriminate|]. reflexivity.
Qed.

(** White space on both sides of a space. *)
Lemma blank_sep (u b : string) : lstrip (u +:+ String " " b) = "" -> lstrip b = "".
Proof.
  induction u as [u IH] using string_length_ind.
  destruct u as [|c u1] eqn:Eu.
  { rewrite append_nil_l. cbn [lstrip]. change (is_space " ") with true.
    cbn iota. auto. }
  rewrite <- Eu in *. rewrite lstrip_eq.
  destruct (after_space u) as [r|] eqn:E.
  - rewrite (after_space_app _ _ _ E). apply IH. eapply after_space_length, E.
  - rewrite after_space_sep; [|subst u; discriminate|exact E].
    subst u. rewrite append_cons. discriminate.
Qed.

Lemma rstrip_sep (x b : string) :
  b <> "" -> rstrip b = b -> rstrip (x +:+ String " " b) = x +:+ String " " b.
Proof.
  intros Hne Hb.
  assert (Hnb : lstrip b <> "").
  { intros H. destruct b as [|c b]; [contradiction|].
    cbn [rstrip] in Hb. rewrite H in Hb. discriminate. }
  induction x as [|c x IH].
  - rewrite append_nil_l. cbn [rstrip lstrip]. change (is_space " ") with true.
    cbn iota. destruct (String.eqb (lstrip b) "") eqn:E.
    + apply String.eqb_eq in E. contradiction.
    + rewrite Hb. reflexivity.
  - rewrite append_cons. cbn [rstrip]. rewrite IH.
    destruct (String.eqb (lstrip (String c (x +:+ String " " b))) "") eqn:E;
      [|reflexivity].
    apply String.eqb_eq in E. rewrite <- append_cons in E.
    apply blank_sep in E. contradiction.
Qed.

End ScanFacts.

(** * Facts about generation *)

Module GeneratorFacts.
Import PyStr Props StrFacts ScanFacts Generator Views.

Lemma lower_char_idem (c : ascii) : lower_char (lower_char c) = lower_char c.
Proof. destruct c as [[] [] [] [] [] [] [] []]; reflexivity. Qed.

Lemma lower_idem (s : string) : lower (lower s) = lower s.
Proof.
  induction s as [|c s IH]; [reflexivity|].
  cbn [lower]. rewrite lower_char_idem, IH. reflexivity.
Qed.

(** The object between the first opening and the last closing brace. *)
Lemma extract_braces (pre mid post : string) :
  char_in "{" pre = false -> char_in "}" post = false ->
  _extract_json_object (pre +:+ "{" +:+ mid +:+ "}" +:+ post) =
  Ok ("{" +:+ mid +:+ "}").
Proof.
  intros Hpre Hpost. unfold _extract_json_object, find, rfind.
  set (text := pre +:+ "{" +:+ mid +:+ "}" +:+ post).
  assert (E1 : text = pre +:+ String "{" (mid +:+ "}" +:+ post)) by reflexivity.
  assert (E2 : text = (pre +:+ String "{" mid) +:+ String "}" post)
    by (rewrite append_assoc; reflexivity).
  assert (E3 : text = pre +:+ ("{" +:+ mid +:+ "}") +:+ post).
  { unfold text. rewrite !append_assoc. reflexivity. }
  set (n := String.length pre). set (m := String.length mid).
  assert (Hf : find_from "{" text 0 = Z.of_nat n).
  { rewrite E1, find_from_first by exact Hpre. fold n. lia. }
  assert (Hr : rfind_from "}" text 0 = Z.of_nat (n + S m)).
  { rewrite E2, rfind_from_last by (lia || exact Hpost).
    rewrite length_append. cbn [String.length]. fold n m. lia. }
  assert (El : String.length text = (n + (S (S m)) + String.length post)%nat).
  { rewrite E3, !length_append. cbn [String.length]. fold n m. lia. }
  rewrite Hf, Hr.
  replace (Z.of_nat n =? -1) with false by (symmetry; apply Z.eqb_neq; lia).
  replace (Z.of_nat (n + S m) =? -1) with false
    by (symmetry; apply Z.eqb_neq; lia).
  replace (Z.of_nat (n + S m) <=? Z.of_nat n) with false
    by (symmetry; apply Z.leb_gt; lia).
  cbn [orb]. f_equal. unfold slice, clamp. rewrite El.
  replace (Z.of_nat n <? 0) with false by (symmetry; apply Z.ltb_ge; lia).
  replace (Z.of_nat (n + S m) + 1 <? 0) with false
    by (symmetry; apply Z.ltb_ge; lia).
  rewrite !Z.min_l by lia.
  replace (Z.to_nat (Z.of_nat n)) with n by lia.
  replace (Z.to_nat (Z.of_nat (n + S m) + 1 - Z.of_nat n))
    with (String.length ("{" +:+ mid +:+ "}")).
  - rewrite E3. apply substring_mid.
  - rewrite !length_append. cbn [String.length]. fold m. lia.
Qed.

Lemma extract_inv (text s : string) :
  _extract_json_object text = Ok s ->
  exists pre mid post,
    text = pre +:+ "{" +:+ mid +:+ "}" +:+ post /\
    char_in "{" pre = false /\ char_in "}" post = false /\
    s = "{" +:+ mid +:+ "}".
Proof.
  intros H.
  destruct (char_in "{" text) eqn:Eo.
  2:{ unfold _extract_json_object, find in H.
      rewrite find_from_none in H by exact Eo. discriminate. }
  destruct (char_in "}" text) eqn:Ec.
  2:{ unfold _extract_json_object, rfind in H.
      rewrite rfind_from_none in H by exact Ec.
      destruct (find "{" text =? -1); discriminate. }
  destruct (char_in_first _ _ Eo) as (pre & rest & E1 & Hpre).
  destruct (char_in_last _ _ Ec) as (a & post & E2 & Hpost).
  assert (Hlt : (String.length pre < String.length a)%nat).
  { assert (Hf : find "{" text = Z.of_nat (String.length pre)).
    { unfold find. rewrite E1, find_from_first by exact Hpre. lia. }
    assert (Hr : rfind "}" text = Z.of_nat (String.length a)).
    { unfold rfind. rewrite E2, rfind_from_last by (lia || exact Hpost). lia. }
    unfold _extract_json_object in H. rewrite Hf, Hr in H.
    destruct (Z.of_nat (String.length a) <=? Z.of_nat (String.length pre))
      eqn:E; [rewrite orb_true_r in H; discriminate|].
    apply Z.leb_gt in E. lia. }
  assert (E3 : a +:+ String "}" post = pre +:+ String "{" rest) by congruence.
  destruct (app_align _ _ _ _ E3) as (m & -> & Em); [lia|].
  destruct m as [|c mid].
  { rewrite append_nil_r in Hlt. lia. }
  rewrite append_cons in Em. injection Em as <- ->.
  exists pre, mid, post.
  assert (Et : text = pre +:+ "{" +:+ mid +:+ "}" +:+ post) by exact E1.
  split; [exact Et|]. split; [exact Hpre|]. split; [exact Hpost|].
  rewrite Et, extract_braces in H by assumption. congruence.
Qed.

(** The context text is made of the views of the chunks. *)
Lemma context_text_views (l : list chunk) :
  context_text l =
  join (nl +:+ nl)
    (map (fun v => "[" +:+ fst v +:+ "]" +:+ nl +:+ snd v) (map prompt_view l)).
Proof. unfold context_text. rewrite map_map. reflexivity. Qed.

Section WithExternals.
Variable X : Externals.

Lemma provider_lowered : lower (LLM_PROVIDER X) = LLM_PROVIDER X.
Proof. unfold LLM_PROVIDER. apply lower_idem. Qed.

End WithExternals.

End GeneratorFacts.

(** * Properties of generation ([src/generator.py]) *)

Module GeneratorProps.
Import PyStr Props Examples Views Generator.
Import StrFacts ScanFacts GeneratorFacts RecoveryFacts.

(** X1.  [_extract_json_object] succeeds exactly on the texts that have
    an opening brace with a closing brace somewhere after it, and then
    returns the text from the first opening brace to the last closing
    brace, both included. *)
Theorem extract_json_object_spec (text s : string) :
  _extract_json_object text = Ok s <->
  exists pre mid post,
    text = pre +:+ "{" +:+ mid +:+ "}" +:+ post /\
    char_in "{" pre = false /\ char_in "}" post = false /\
    s = "{" +:+ mid +:+ "}".
Proof.
  split; [apply extract_inv|].
  intros (pre & mid & post & -> & Hpre & Hpost & ->).
  apply extract_braces; assumption.
Qed.

(** X2.  Extraction is idempotent: what it returns is an object text
    that extraction gives back unchanged. *)
Theorem extract_json_object_idempotent (text s : string) :
  _extract_json_object text = Ok s -> _extract_json_object s = Ok s.
Proof.
  intros H. destruct (extract_inv _ _ H) as (pre & mid & post & _ & _ & _ & ->).
  pose proof (extract_braces "" mid "" eq_refl eq_refl) as E.
  rewrite append_nil_l in E.
  replace ("{" +:+ mid +:+ "}" +:+ "") with ("{" +:+ mid +:+ "}") in E
    by reflexivity.
  exact E.
Qed.

Lemma extract_json_object_idempotent_witness :
  exists s,
    _extract_json_object garbage_object = Ok s /\
    _extract_json_object s = Ok s.
Proof.
  eexists. split; [vm_compute; reflexivity|].
  apply (extract_json_object_idempotent garbage_object). vm_compute. reflexivity.
Defined.

Section WithExternals.
Variable X : Externals.

(** X3.  With a provider other than ollama configured, [_llm_generate]
    raises [RuntimeError] with a message that ends in the name of the
    provider; no request is made and the state is as before.  For a
    setting in ASCII the name is the setting, stripped and in lower
    case. *)
Theorem llm_generate_unsupported (p : string) (timeout : Z) (force_json : bool)
    (w : World) :
  LLM_PROVIDER X <> "" -> LLM_PROVIDER X <> "ollama" ->
  exists provider,
    _llm_generate X p timeout force_json w =
      (Raise (RuntimeError ("Unsupported LLM_PROVIDER: " +:+ provider)), w) /\
    (is_ascii_text (env_or X "LLM_PROVIDER" "ollama") = true ->
     provider = lower (strip (env_or X "LLM_PROVIDER" "ollama"))).
Proof.
  intros H0 H1. exists (LLM_PROVIDER X). split; [|reflexivity].
  unfold _llm_generate.
  destruct (String.eqb (LLM_PROVIDER X) "") eqn:E0;
    [apply String.eqb_eq in E0; contradiction|].
  rewrite provider_lowered.
  destruct (String.eqb (LLM_PROVIDER X) "ollama") eqn:E1;
    [apply String.eqb_eq in E1; contradiction|].
  reflexivity.
Qed.

(** X4.  When [_llm_generate] returns, the provider is ollama (or
    unset), exactly one request was posted, to [/api/generate] with the
    prompt, the configured model, no streaming and the JSON format only
    if asked for; and the text returned has no white space at either
    end. *)
Theorem llm_generate_result (p : string) (timeout : Z) (force_json : bool)
    (w : World) (s : string) (w' : World) :
  _llm_generate X p timeout force_json w = (Ok s, w') ->
  strip s = s /\
  (LLM_PROVIDER X = "" \/ LLM_PROVIDER X = "ollama") /\
  exists body,
    w' = log (EvPost (OLLAMA_BASE_URL X +:+ "/api/generate") body timeout) w /\
    prompt body = p /\ model body = OLLAMA_MODEL X /\ stream body = false /\
    format body = (if force_json then Some "json" else None).
Proof.
  unfold _llm_generate. intros H.
  assert (Hp : (LLM_PROVIDER X = "" \/ LLM_PROVIDER X = "ollama") /\
               String.eqb (lower (if String.eqb (LLM_PROVIDER X) ""
                                  then "ollama" else LLM_PROVIDER X)) "ollama"
               = true).
  { destruct (String.eqb (LLM_PROVIDER X) "") eqn:E0.
    - apply String.eqb_eq in E0. split; [left; exact E0 | reflexivity].
    - rewrite provider_lowered in *.
      destruct (String.eqb (LLM_PROVIDER X) "ollama") eqn:E1; [|discriminate].
      apply String.eqb_eq in E1. split; [right; exact E1 | reflexivity]. }
  destruct Hp as [Hp E]. rewrite E in H. unfold bind, post, ret in H.
  destruct (requests_post X (trace w) _ _ timeout) as [r|e]; [|discriminate].
  injection H as <- <-.
  split; [apply strip_idem|]. split; [exact Hp|].
  eexists. split; [reflexivity|]. cbn. auto.
Qed.

(** X5.  [generate_with_llm] reads of its context only the printed
    identifier and the first 600 characters of the text of the first
    three chunks: two contexts that agree on these behave alike,
    whatever their headings, longer texts and further chunks. *)
Theorem generate_reads_views (ctx1 ctx2 : list chunk)
    (age_range income_type : string) :
  map prompt_view (take 3 ctx1) = map prompt_view (take 3 ctx2) ->
  generate_with_llm X ctx1 age_range income_type =
  generate_with_llm X ctx2 age_range income_type.
Proof.
  intros H. unfold generate_with_llm, generation_prompt.
  change (PyList.slice_to 3 ctx1) with (take 3 ctx1).
  change (PyList.slice_to 3 ctx2) with (take 3 ctx2).
  rewrite !context_text_views, H. reflexivity.
Qed.

(** X6.  What [generate_with_llm] raises: the error of the first
    request, which is not retried and not repaired; an error of
    [json.loads] on the answer other than [JSONDecodeError], which is
    not caught and not repaired either; or, after an answer that
    neither parses nor holds an object that parses, the error of the
    repair request, an error of [json.loads] on the repaired text other
    than [JSONDecodeError], the [ValueError] of the extraction, or
    what [json.loads] raises on the braces of the repaired text. *)
Theorem generate_with_llm_failures (ctx : list chunk)
    (age_range income_type : string) (w : World) (e : exn) (w' : World) :
  generate_with_llm X ctx age_range income_type w = (Raise e, w') ->
  let p := generation_prompt (take 3 ctx) age_range income_type in
  _llm_generate X p 300 true w = (Raise e, w')
  \/ exists raw w1,
       _llm_generate X p 300 true w = (Ok raw, w1) /\
       ((json_loads X raw = Raise e /\ e <> JSONDecodeError /\ w' = w1)
        \/ (json_loads X raw = Raise JSONDecodeError /\
            extract_loads X raw = None /\
            (_repair_json_with_llm X raw w1 = (Raise e, w')
             \/ exists repaired,
                  _repair_json_with_llm X raw w1 = (Ok repaired, w') /\
                  ((json_loads X repaired = Raise e /\ e <> JSONDecodeError)
                   \/ (json_loads X repaired = Raise JSONDecodeError /\
                       ((_extract_json_object repaired = Raise e /\
                         e = ValueError "No JSON object found in model response.")
                        \/ exists text,
                             _extract_json_object repaired = Ok text /\
                             json_loads X text = Raise e)))))).
Proof.
  intros H p. unfold generate_with_llm, bind in H.
  change (PyList.slice_to 3 ctx) with (take 3 ctx) in H. fold p in H.
  destruct (_llm_generate X p 300 true w) as [[raw|e1] w1] eqn:E;
    [|left; injection H as <- <-; reflexivity].
  right. exists raw, w1. split; [reflexivity|].
  assert (Hd : forall x, is_JSONDecodeError x = false -> x <> JSONDecodeError).
  { intros x Hx ->. discriminate Hx. }
  apply recover_Raise in H
    as [(H1 & D & ->)|(H1 & H2 & [H3|(repaired & H3 & [(H4 & D)|(H4 & H5)])])].
  - left. auto.
  - right. auto.
  - right. split; [exact H1|]. split; [exact H2|]. right. exists repaired. auto.
  - right. split; [exact H1|]. split; [exact H2|]. right. exists repaired. auto.
Qed.

End WithExternals.

Lemma llm_generate_unsupported_witness :
  _llm_generate X_openai "hello" 300 true world0 =
  (Raise (RuntimeError "Unsupported LLM_PROVIDER: openai"), world0).
Proof.
  destruct (llm_generate_unsupported X_openai "hello" 300 true world0)
    as (provider & H & Hp); [vm_compute; discriminate..|].
  rewrite H, Hp by (vm_compute; reflexivity). reflexivity.
Defined.

Lemma llm_generate_result_witness :
  strip "[1, 2]" = "[1, 2]".
Proof.
  apply (llm_generate_result X_repaired "hello" 300 true world0 "[1, 2]"
           (snd (_llm_generate X_repaired "hello" 300 true world0))).
  vm_compute. reflexivity.
Defined.

Lemma generate_reads_views_witness :
  generate_with_llm X0
    [chunk_age; chunk_income; chunk_rationale; chunk_general] "18-24" "Salary" =
  generate_with_llm X0
    [<["heading" := VStr "Another heading"]> chunk_age; chunk_income;
     chunk_rationale; chunk_55] "18-24" "Salary".
Proof.
  apply (generate_reads_views X0). vm_compute. reflexivity.
Defined.

Lemma generate_with_llm_failures_witness :
  exists raw w1,
    _llm_generate X_down_later
      (generation_prompt (take 3 [chunk_age]) "18-24" "Salary")
      300 true world0 = (Ok raw, w1) /\
    _repair_json_with_llm X_down_later raw w1 =
    (Raise RequestException,
     snd (generate_with_llm X_down_later [chunk_age] "18-24" "Salary" world0)).
Proof.
  assert (Hrun : generate_with_llm X_down_later [chunk_age] "18-24" "Salary" world0 =
                 (Raise RequestException,
                  snd (generate_with_llm X_down_later [chunk_age] "18-24" "Salary"
                         world0))) by (vm_compute; reflexivity).
  pose proof (generate_with_llm_failures X_down_later [chunk_age] "18-24" "Salary"
                world0 RequestException _ Hrun) as G.
  cbv zeta in G.
  destruct G as [H|(raw & w1 & H1 & G)]; [vm_compute in H; discriminate|].
  exists raw, w1. split; [exact H1|].
  destruct G as [(G1 & _)|(_ & _ & [G2|(repaired & G2 & _)])];
    [exfalso | exact G2 | exfalso].
  - vm_compute in H1. injection H1 as <- <-. vm_compute in G1. discriminate.
  - vm_compute in H1. injection H1 as <- <-. vm_compute in G2. discriminate.
Defined.

End GeneratorProps.

(** * Facts about the retriever *)

Module RetrieverFacts.
Import PyStr Props Retrieval RankFacts.

(** A traversal whose function has one way to fail fails that way as
    soon as one element does. *)
Lemma omapM_Raise {A B} (f : A -> outcome B) (e0 : exn) (l : list A) :
  (forall x e, f x = Raise e -> e = e0) ->
  Exists (fun x => exists e, f x = Raise e) l ->
  omapM f l = Raise e0.
Proof.
  intros Hone. induction 1 as [x l [e He]|x l _ IH]; cbn [omapM].
  - rewrite He. cbn [obind]. f_equal. eapply Hone, He.
  - destruct (f x) as [y|e] eqn:Ex; cbn [obind].
    + rewrite IH. reflexivity.
    + f_equal. eapply Hone, Ex.
Qed.

Lemma omapM_length {A B} (f : A -> outcome B) (l : list A) (ys : list B) :
  omapM f l = Ok ys -> length ys = length l.
Proof. intros H. apply omapM_Ok, Forall2_length in H. symmetry. exact H. Qed.

Lemma text_of_Ok (c : chunk) (t : pyval) : text_of c = Ok t <-> c !! "text" = Some t.
Proof.
  unfold text_of. destruct (c !! "text"); split; intros H; congruence.
Qed.

Lemma text_of_Raise (c : chunk) (e : exn) :
  text_of c = Raise e -> e = KeyError "text" /\ c !! "text" = None.
Proof.
  unfold text_of. destruct (c !! "text"); [discriminate|].
  intros H. injection H as <-. split; reflexivity.
Qed.

Lemma tokens_of_Raise (t : pyval) (e : exn) :
  tokens_of t = Raise e -> e = AttributeError /\ t = VNone.
Proof.
  destruct t; cbn; [|discriminate]. intros H. injection H as <-. split; reflexivity.
Qed.

Lemma tokens_of_Ok (t : pyval) (ws : list string) :
  tokens_of t = Ok ws -> t <> VNone /\ ws = split (lower (text_string t)).
Proof.
  destruct t; cbn; [discriminate|]. intros H. injection H as <-.
  split; [discriminate | reflexivity].
Qed.

Lemma slice_from_sublist {A} (k : Z) (l : list A) :
  sublist (PyList.slice_from k l) l.
Proof. unfold PyList.slice_from. destruct (k <? 0); apply sublist_drop. Qed.


Lemma slice_from_zero {A} (l : list A) : PyList.slice_from (- 0) l = l.
Proof. reflexivity. Qed.

Lemma slice_from_all {A} (l : list A) :
  PyList.slice_from (- Z.of_nat (length l)) l = l.
Proof.
  unfold PyList.slice_from. destruct (- Z.of_nat (length l) <? 0).
  - replace (Z.to_nat (Z.of_nat (length l) + - Z.of_nat (length l))) with O by lia.
    reflexivity.
  - replace (Z.to_nat (- Z.of_nat (length l))) with O by lia. reflexivity.
Qed.

Lemma slice_from_last_exact {A} (n : Z) (l : list A) :
  0 < n -> length (PyList.slice_from (- n) l) = Nat.min (length l) (Z.to_nat n).
Proof.
  intros Hn. unfold PyList.slice_from.
  replace (- n <? 0) with true by (symmetry; apply Z.ltb_lt; lia).
  rewrite length_drop. lia.
Qed.

(** ** The libraries of the examples *)

Lemma insert_asc_perm (x : Q * nat) (l : list (Q * nat)) :
  Examples.insert_asc x l ≡ₚ x :: l.
Proof.
  induction l as [|y l IH]; cbn [Examples.insert_asc]; [reflexivity|].
  destruct (fst y ?= fst x)%Q; try reflexivity;
    rewrite IH; apply Permutation_swap.
Qed.

Lemma fold_insert_asc_perm (l acc : list (Q * nat)) :
  fold_left (fun acc x => Examples.insert_asc x acc) l acc ≡ₚ l ++ acc.
Proof.
  revert acc. induction l as [|x l IH]; intros acc; cbn [fold_left]; [reflexivity|].
  rewrite IH, insert_asc_perm. cbn [app]. symmetry. apply Permutation_middle.
Qed.

Lemma map_snd_combine {A B} (a : list A) (b : list B) :
  length a = length b -> map snd (combine a b) = b.
Proof.
  revert b. induction a as [|x a IH]; intros [|y b] H; try discriminate; [reflexivity|].
  cbn [combine map snd]. rewrite IH; [reflexivity|]. injection H as H. exact H.
Qed.

Lemma stable_argsort_perm (scores : list Q) :
  Examples.stable_argsort scores ≡ₚ seq 0 (length scores).
Proof.
  unfold Examples.stable_argsort. rewrite fold_insert_asc_perm, app_nil_r.
  rewrite map_snd_combine; [reflexivity|]. rewrite length_seq. reflexivity.
Qed.

Lemma externals_documented (answers : list (outcome pyval)) (corpus : list chunk)
    (embed : string -> list Q) :
  Views.documented (Examples.externals answers corpus embed).
Proof.
  split; [reflexivity|]. split.
  - intros c index query H. cbn in H. unfold Examples.overlap_index in H.
    destruct c as [|d c]; [discriminate|]. injection H as <-.
    cbn [length]. f_equal. apply length_map.
  - intros scores. apply stable_argsort_perm.
Qed.

Section WithExternals.
Variable X : Externals.

(** What a constructed retriever holds. *)
Lemma new_retriever_Ok (cs : list chunk) (r : HybridRetriever) :
  new_retriever X cs = Ok r ->
  chunks r = cs /\
  Forall2 (fun c t => c !! "text" = Some t /\ t <> VNone) cs (texts r) /\
  BM25Okapi X (map (fun t => split (lower (text_string t))) (texts r)) =
    Ok (bm25 r) /\
  SentenceTransformer X "all-MiniLM-L6-v2" = Ok tt /\
  encode_raises X (map text_string (texts r)) = None /\
  embeddings r = map (fun t => encode X (text_string t)) (texts r).
Proof.
  unfold new_retriever. intros H.
  destruct (omapM text_of cs) as [ts|e] eqn:E1; cbn [obind] in H; [|discriminate].
  destruct (omapM tokens_of ts) as [corpus|e] eqn:E2; cbn [obind] in H;
    [|discriminate].
  destruct (BM25Okapi X corpus) as [index|e] eqn:E3; cbn [obind] in H;
    [|discriminate].
  destruct (SentenceTransformer X "all-MiniLM-L6-v2") as [[]|e] eqn:E4;
    cbn [obind] in H; [|discriminate].
  unfold encode_all in H.
  destruct (encode_raises X (map text_string ts)) as [e|] eqn:E5; cbn [obind] in H;
    [discriminate|].
  injection H as <-. cbn [chunks texts bm25 embeddings].
  apply omapM_Ok in E1, E2.
  assert (Hc : corpus = map (fun t => split (lower (text_string t))) ts).
  { clear -E2. induction E2 as [|t ws ts corpus Ht _ IH]; [reflexivity|].
    apply tokens_of_Ok in Ht as [_ ->]. cbn [map]. rewrite IH. reflexivity. }
  split; [reflexivity|].
  split; [|split; [rewrite <- Hc; exact E3 |
                   split; [reflexivity | split; [exact E5 | apply map_map]]]].
  clear -E1 E2. revert corpus E2.
  induction E1 as [|c t cs ts Hc _ IH]; intros corpus E2; [constructor|].
  inversion E2 as [|? ws ? corpus' Ht E2']; subst.
  constructor; [|eapply IH; exact E2'].
  split; [apply text_of_Ok, Hc | apply tokens_of_Ok in Ht as [Ht _]; exact Ht].
Qed.

(** The ranked indices are candidates, and there are at most [top_k]
    of them. *)
Lemma rank_total (self : HybridRetriever) (query : string) (top_k : Z)
    (idxs : list nat) :
  Forall (fun i => (i < length (embeddings self))%nat) idxs ->
  exists tops,
    rank X self query top_k idxs = Ok tops /\
    Forall (fun i => i ∈ idxs) tops /\
    (length tops <= length idxs)%nat /\
    (0 <= top_k -> length tops = Nat.min (Z.to_nat top_k) (length idxs)).
Proof.
  intros Hin.
  destruct (omapM_total
              (fun idx => match embeddings self !! idx with
                          | Some e => Ok (np_dot X (encode X query) e, idx)
                          | None => Raise IndexError
                          end) idxs) as [scored Hs].
  { eapply Forall_impl; [exact Hin|]. intros i Hi. cbn beta.
    destruct (lookup_lt_is_Some_2 (embeddings self) i Hi) as [e ->]. eauto. }
  assert (Hr : rank X self query top_k idxs =
               Ok (map snd (PyList.slice_to top_k (sort_desc scored)))).
  { unfold rank. rewrite Hs. reflexivity. }
  assert (Hle : (length (map snd (PyList.slice_to top_k (sort_desc scored)))
                  <= length idxs)%nat).
  { rewrite length_map. etransitivity; [apply sublist_length, slice_to_sublist|].
    rewrite sort_desc_perm, (omapM_length _ _ _ Hs). reflexivity. }
  eexists. split; [exact Hr|].
  destruct (rank_Ok X _ _ _ _ _ Hr) as (sorted & Es & _ & Hf & Hl).
  rewrite Es in *. split; [|split; [exact Hle|]].
  - apply Forall_fmap. eapply Forall_impl; [exact Hf|]. intros t [_ Ht]. exact Ht.
  - intros Hk. rewrite length_map. apply Hl, Hk.
Qed.

(** With the lexical ranking in range [retrieve] returns, and returns
    as many chunks as the two cuts leave. *)
Lemma retrieve_length (cs : list chunk) (r : HybridRetriever) (query : string)
    (top_k bm25_top_n : Z) :
  new_retriever X cs = Ok r ->
  Forall (fun i => (i < length cs)%nat)
         (argsort X (bm25 r (split (lower query)))) ->
  0 <= top_k ->
  exists ranked,
    retrieve X r query top_k bm25_top_n = Ok ranked /\
    length ranked =
      Nat.min (Z.to_nat top_k) (length (candidates X r query bm25_top_n)).
Proof.
  intros Hb Hin Hk.
  destruct (new_retriever_Ok _ _ Hb) as (Hc & Ht & _ & _ & _ & He).
  assert (Hlen : length (embeddings r) = length cs).
  { rewrite He, length_map. symmetry. eapply Forall2_length, Ht. }
  unfold retrieve. fold (candidates X r query bm25_top_n).
  assert (Hidx : Forall (fun i => (i < length cs)%nat)
                        (candidates X r query bm25_top_n)).
  { apply Forall_forall. intros i Hi. rewrite Forall_forall in Hin. apply Hin.
    eapply elem_of_sublist; [exact Hi | apply slice_from_sublist]. }
  destruct (rank_total r query top_k (candidates X r query bm25_top_n))
    as (tops & Hr & Htops & _ & Hl).
  { rewrite Hlen. exact Hidx. }
  destruct (omapM_total (fun i => match chunks r !! i with
                                  | Some c => Ok c
                                  | None => Raise IndexError
                                  end) tops) as [ranked Hk'].
  { apply Forall_forall. intros i Hi. rewrite Forall_forall in Htops, Hidx.
    specialize (Hidx i (Htops i Hi)). rewrite Hc.
    destruct (lookup_lt_is_Some_2 cs i Hidx) as [c ->]. eauto. }
  exists ranked. rewrite Hr. cbn [obind]. split; [exact Hk'|].
  apply omapM_length in Hk'. rewrite Hk'. apply Hl, Hk.
Qed.

(** With the libraries as documented a constructed retriever has a
    corpus that is not empty, and returns a chunk to every query. *)
Lemma built_retrieves (cs : list chunk) (r : HybridRetriever) (query : string) :
  Views.documented X -> new_retriever X cs = Ok r ->
  cs <> [] /\
  exists c retrieved,
    retrieve X r query Config.TOP_K Config.BM25_TOP_N = Ok (c :: retrieved).
Proof.
  intros (Hempty & Hscores & Hsort) Hb.
  destruct (new_retriever_Ok _ _ Hb) as (_ & Ht & Hi & _).
  apply Forall2_length in Ht.
  assert (Hne : cs <> []).
  { intros ->. destruct (texts r); [|discriminate]. cbn in Hi. congruence. }
  split; [exact Hne|].
  set (scores := bm25 r (split (lower query))).
  assert (Hn : length scores = length cs).
  { unfold scores. rewrite (Hscores _ _ _ Hi), length_map. symmetry. exact Ht. }
  destruct (retrieve_length cs r query Config.TOP_K Config.BM25_TOP_N Hb)
    as (ranked & Hr & Hl).
  { fold scores. rewrite (Hsort scores), Hn. apply Forall_forall.
    intros i Hi'. apply elem_of_seq in Hi'. lia. }
  { unfold Config.TOP_K. lia. }
  unfold candidates in Hl. fold scores in Hl.
  rewrite slice_from_last_exact in Hl by (unfold Config.BM25_TOP_N; lia).
  rewrite (Permutation_length (Hsort scores)), length_seq, Hn in Hl.
  destruct ranked as [|c retrieved]; [|eauto].
  exfalso. destruct cs; [contradiction|].
  change (Z.to_nat Config.TOP_K) with 5%nat in Hl.
  change (Z.to_nat Config.BM25_TOP_N) with 10%nat in Hl.
  cbn [length] in Hl. lia.
Qed.

End WithExternals.

End RetrieverFacts.

(** * Properties of the retriever ([src/retrieval.py]) *)

Module RetrievalProps.
Import PyStr Props Examples Views Retrieval.
Import RankFacts RetrieverFacts.

Section WithExternals.
Variable X : Externals.

(** X7.  The constructor reads the text of every chunk before it
    tokenizes any: a chunk without the key [text] makes it raise
    [KeyError], also when another chunk has the text [None]; with the
    key present everywhere, a text that is [None] makes it raise
    [AttributeError].  Neither case reaches the lexical index. *)
Theorem new_retriever_bad_chunk (cs : list chunk) :
  (Exists (fun c => c !! "text" = None) cs ->
   new_retriever X cs = Raise (KeyError "text"))
  /\ (Forall (fun c => c !! "text" <> None) cs ->
      Exists (fun c => c !! "text" = Some VNone) cs ->
      new_retriever X cs = Raise AttributeError).
Proof.
  split.
  - intros H. unfold new_retriever.
    rewrite (omapM_Raise text_of (KeyError "text")); [reflexivity| |].
    + intros c e He. apply text_of_Raise in He as [-> _]. reflexivity.
    + eapply Exists_impl; [exact H|]. intros c Hc. cbn beta.
      unfold text_of. rewrite Hc. eauto.
  - intros Hall Hex. unfold new_retriever.
    destruct (omapM_total text_of cs) as [ts Hts].
    { eapply Forall_impl; [exact Hall|]. intros c Hc. cbn beta.
      unfold text_of. destruct (c !! "text") eqn:E; [eauto | congruence]. }
    rewrite Hts. cbn [obind].
    rewrite (omapM_Raise tokens_of AttributeError); [reflexivity| |].
    + intros t e He. apply tokens_of_Raise in He as [-> _]. reflexivity.
    + apply omapM_Ok in Hts. clear Hall.
      induction Hts as [|c t cs ts Hc _ IH]; [inversion Hex|].
      apply text_of_Ok in Hc.
      inversion Hex as [? ? Hn|? ? Hn]; subst.
      * left. rewrite Hc in Hn. injection Hn as ->. cbn. eauto.
      * right. apply IH, Hn.
Qed.

(** X8.  A constructed retriever keeps the chunks as given and holds,
    position by position, the text of each chunk, a string, and the
    embedding of that text.  Its index is the one the library built
    from one list of tokens for each text, for a text in ASCII its
    words in lower case; and the embedding model was loaded. *)
Theorem new_retriever_shape (cs : list chunk) (r : HybridRetriever) :
  new_retriever X cs = Ok r ->
  chunks r = cs /\
  Forall2 (fun c t => exists s, c !! "text" = Some (VStr s) /\ t = VStr s)
          cs (texts r) /\
  (exists corpus,
     BM25Okapi X corpus = Ok (bm25 r) /\
     Forall2 (fun t ws => is_ascii_text (text_string t) = true ->
                          ws = split (lower (text_string t)))
             (texts r) corpus) /\
  SentenceTransformer X "all-MiniLM-L6-v2" = Ok tt /\
  embeddings r = map (fun t => encode X (text_string t)) (texts r) /\
  length (embeddings r) = length cs.
Proof.
  intros H. destruct (new_retriever_Ok X _ _ H) as (Hc & Ht & Hb & Hs & _ & He).
  split; [exact Hc|]. split; [|split; [|split; [exact Hs|split; [exact He|]]]].
  - eapply Forall2_impl; [exact Ht|]. intros c t [Hct Hn].
    destruct t as [|s]; [contradiction|]. exists s. split; [exact Hct | reflexivity].
  - eexists. split; [exact Hb|]. apply Forall2_fmap_r, Forall_Forall2_diag.
    apply Forall_forall. auto.
  - rewrite He, length_map. symmetry. eapply Forall2_length, Ht.
Qed.


(** X10.  With [bm25_top_n = 0] the lexical cut [[-0:]] keeps every
    candidate, as if the corpus size had been asked for. *)
Theorem retrieve_top_n_zero (self : HybridRetriever) (query : string) (top_k : Z) :
  retrieve X self query top_k 0 =
  retrieve X self query top_k
    (Z.of_nat (length (argsort X (bm25 self (split (lower query)))))).
Proof.
  unfold retrieve. rewrite slice_from_zero, slice_from_all. reflexivity.
Qed.

End WithExternals.

Lemma new_retriever_bad_chunk_witness :
  new_retriever X0 [<["text" := VNone]> chunk_age; delete "text" chunk_55] =
  Raise (KeyError "text").
Proof.
  apply (new_retriever_bad_chunk X0). right. left. vm_compute. reflexivity.
Defined.

Lemma new_retriever_shape_witness :
  exists r, new_retriever X0 [chunk_age; chunk_55] = Ok r /\
            length (embeddings r) = 2%nat.
Proof.
  eexists. split; [vm_compute; reflexivity|].
  eapply (new_retriever_shape X0 [chunk_age; chunk_55]). vm_compute. reflexivity.
Defined.


End RetrievalProps.

(** * Facts about the pipeline *)

Module PipelineFacts.
Import PyStr Config Assembler Props Examples Views Generator Retrieval Pipeline.
Import RecoveryFacts.

Lemma elem_of_dec_bool (x : string) (l : list string) :
  x ∈ l -> negb (bool_decide (x ∈ l)) = false.
Proof. intros H. rewrite bool_decide_eq_true_2 by exact H. reflexivity. Qed.

Lemma count_app (p : event -> bool) (a b : list event) :
  count p (a ++ b) = (count p a + count p b)%nat.
Proof. unfold count. rewrite List.filter_app, length_app. reflexivity. Qed.

(** The identifiers the evidence shows are those of the chunks. *)
Lemma evidence_ids (l : list chunk) :
  Forall (fun c => is_Some (chunk_id_of c)) l ->
  map ev_chunk_id (map evidence_of l) = VStr <$> omap chunk_id_of l.
Proof.
  induction 1 as [|c l [cid Hc] _ IH]; [reflexivity|].
  cbn [map]. change (omap chunk_id_of (c :: l)) with
    (match chunk_id_of c with
     | Some y => y :: omap chunk_id_of l
     | None => omap chunk_id_of l
     end).
  rewrite Hc, fmap_cons, <- IH. f_equal.
  apply AssemblerFacts.chunk_id_of_Some in Hc as [Hc _].
  unfold evidence_of, get_default. cbn [ev_chunk_id]. rewrite Hc. reflexivity.
Qed.

(** The assembled context has at most [TOP_K] chunks, each with an
    identifier, no identifier twice. *)
Lemma final_context_ids (cs retrieved : list chunk) (a i : string) :
  let ctx := final_context_of cs retrieved a i in
  (length ctx <= 5)%nat /\
  Forall (fun c => is_Some (chunk_id_of c)) ctx /\
  NoDup (omap chunk_id_of ctx).
Proof.
  unfold final_context_of. cbv zeta.
  rewrite AssemblerFacts.safe_context_set_eq by (unfold TOP_K; lia).
  change (Z.to_nat TOP_K) with 5%nat.
  set (D := dedup_ids _ ∅).
  split; [rewrite length_take; lia|]. split.
  - apply Forall_take, AssemblerFacts.dedup_ids_valid.
  - eapply sublist_NoDup; [apply AssemblerFacts.dedup_ids_NoDup|].
    apply AssemblerFacts.omap_sublist, sublist_take.
Qed.

Section WithExternals.
Variable X : Externals.

(** The pipeline on a supported profile, stage by stage. *)
Lemma pipeline_eq (age_range income_type : string) (w : World) :
  age_range ∈ SUPPORTED_AGE_RANGES -> income_type ∈ SUPPORTED_INCOME_TYPES ->
  generate_pathfinder_suggestions X age_range income_type w =
  match _load_retriever X w with
  | (Raise e, w1) => (Raise e, w1)
  | (Ok (r, all_chunks), w1) =>
      let q := query_of age_range income_type in
      let w2 := log (EvRetrieve q TOP_K BM25_TOP_N) w1 in
      match retrieve X r q TOP_K BM25_TOP_N with
      | Raise e => (Raise e, w2)
      | Ok [] => (Ok (insufficient age_range income_type no_evidence_questions), w2)
      | Ok retrieved =>
          match all_chunks with
          | None => (Raise TypeError, w2)
          | Some cs =>
              let ctx := final_context_of cs retrieved age_range income_type in
              match generate_with_llm X ctx age_range income_type w2 with
              | (Raise e, w3) => (Raise e, w3)
              | (Ok gen, w3) =>
                  match obind (gen_get gen "suggestions") first_five with
                  | Raise e => (Raise e, w3)
                  | Ok sugg =>
                      match gen_get gen "follow_up_questions" with
                      | Raise e => (Raise e, w3)
                      | Ok fups =>
                          (Ok (Result (age_range, income_type) sugg fups
                                      (map evidence_of ctx) None None), w3)
                      end
                  end
              end
          end
      end
  end.
Proof.
  intros Ha Hi. unfold generate_pathfinder_suggestions.
  rewrite (elem_of_dec_bool _ _ Ha), (elem_of_dec_bool _ _ Hi). cbn [orb].
  unfold bind at 1.
  destruct (_load_retriever X w) as [[[r all_chunks]|e] w1]; [|reflexivity].
  cbn [fst snd]. fold (query_of age_range income_type).
  unfold bind at 1. unfold call_retrieve, bind, emit, lift.
  destruct (retrieve X r (query_of age_range income_type) TOP_K BM25_TOP_N)
    as [[|c retrieved]|e]; [reflexivity| |reflexivity].
  destruct all_chunks as [cs|]; [|reflexivity].
  fold (retrieved_filtered age_range (c :: retrieved)).
  fold (final_context_of cs (c :: retrieved) age_range income_type).
  cbv zeta.
  destruct (generate_with_llm X _ age_range income_type _) as [[gen|e] w3];
    [|reflexivity].
  destruct (obind (gen_get gen "suggestions") first_five) as [sugg|e];
    [|reflexivity].
  destruct (gen_get gen "follow_up_questions") as [fups|e]; reflexivity.
Qed.

(** The four ways [_load_retriever] can go. *)
Lemma load_cases (w : World) :
  (exists r, _retriever_cache w = Some r /\
             _load_retriever X w = (Ok (r, _chunks_cache w), w))
  \/ (_retriever_cache w = None /\ exists e,
        ingest_docx X = Raise e /\
        _load_retriever X w = (Raise e, log EvIngest w))
  \/ (_retriever_cache w = None /\ exists cs e,
        ingest_docx X = Ok cs /\ new_retriever X cs = Raise e /\
        _load_retriever X w =
        (Raise e, MkWorld (Some cs) None (trace w ++ [EvIngest; EvBuildRetriever])))
  \/ (_retriever_cache w = None /\ exists cs r,
        ingest_docx X = Ok cs /\ new_retriever X cs = Ok r /\
        _load_retriever X w =
        (Ok (r, Some cs),
         MkWorld (Some cs) (Some r) (trace w ++ [EvIngest; EvBuildRetriever]))).
Proof.
  unfold _load_retriever. destruct (_retriever_cache w) as [r|] eqn:Ec.
  { left. exists r. split; reflexivity. }
  right. destruct (ingest_docx X) as [cs|e] eqn:Ei.
  2:{ left. split; [reflexivity|]. exists e. split; reflexivity. }
  right. destruct (new_retriever X cs) as [r|e] eqn:En.
  - right. split; [reflexivity|]. exists cs, r.
    split; [reflexivity|]. split; [exact En|].
    unfold log. cbn. rewrite <- app_assoc. reflexivity.
  - left. split; [reflexivity|]. exists cs, e.
    split; [reflexivity|]. split; [exact En|].
    unfold log. cbn. rewrite Ec, <- app_assoc. reflexivity.
Qed.

Lemma load_Ok_state (w : World) (r : HybridRetriever)
    (cs : option (list chunk)) (w1 : World) :
  _load_retriever X w = (Ok (r, cs), w1) ->
  w1 = w \/ trace w1 = trace w ++ [EvIngest; EvBuildRetriever].
Proof.
  intros H.
  destruct (load_cases w)
    as [(r0 & Hc & E)|[(_ & e & _ & E)|[(_ & cs0 & e & _ & _ & E)
                                       |(_ & cs0 & r0 & _ & _ & E)]]];
    rewrite E in H; try discriminate; injection H as <- <- <-.
  - left. reflexivity.
  - right. reflexivity.
Qed.

(** Either every generation call is refused, or every one posts one
    request. *)
Lemma llm_generate_cases :
  (forall p t f w, exists msg, _llm_generate X p t f w = (Raise (RuntimeError msg), w))
  \/ (forall p t f w, exists u b,
        snd (_llm_generate X p t f w) = log (EvPost u b t) w).
Proof.
  unfold _llm_generate.
  destruct (String.eqb _ "ollama").
  - right. intros p t f w. unfold bind, post, ret.
    destruct (requests_post X (trace w) _ _ t); eexists _, _; reflexivity.
  - left. intros p t f w. eexists. reflexivity.
Qed.

Lemma recover_state (raw : string) (w : World) :
  snd (recover X raw w) = w \/
  (json_loads X raw = Raise JSONDecodeError /\ extract_loads X raw = None /\
   snd (recover X raw w) = snd (_repair_json_with_llm X raw w)).
Proof.
  rewrite recover_eq.
  destruct (json_loads X raw) as [v|e1]; [left; reflexivity|].
  destruct (is_JSONDecodeError e1) eqn:D1; [|left; reflexivity].
  destruct e1; try discriminate D1.
  destruct (extract_loads X raw); [left; reflexivity|].
  right. split; [reflexivity|]. split; [reflexivity|].
  destruct (_repair_json_with_llm X raw w) as [[repaired|e] w']; [|reflexivity].
  destruct (json_loads X repaired) as [v|e3]; [reflexivity|].
  destruct (is_JSONDecodeError e3); [|reflexivity].
  destruct (_extract_json_object repaired) as [t|e]; reflexivity.
Qed.

(** The calls one generation makes, and that it leaves the caches
    alone. *)
Lemma generate_state (ctx : list chunk) (age_range income_type : string)
    (w : World) :
  exists evs,
    snd (generate_with_llm X ctx age_range income_type w) =
      MkWorld (_chunks_cache w) (_retriever_cache w) (trace w ++ evs) /\
    (evs = [] \/ (exists u b, evs = [EvPost u b 300]) \/
     exists u b raw u' b',
       evs = [EvPost u b 300; EvRepair raw; EvPost u' b' 120]).
Proof.
  unfold generate_with_llm, bind.
  set (p := generation_prompt _ age_range income_type).
  destruct llm_generate_cases as [Hno|Hyes].
  - destruct (Hno p 300 true w) as [msg ->]. exists []. cbn [snd].
    rewrite app_nil_r. destruct w; split; [reflexivity | left; reflexivity].
  - destruct (Hyes p 300 true w) as (u & b & H1).
    destruct (_llm_generate X p 300 true w) as [[raw|e] w1]; cbn [snd] in H1;
      subst w1.
    2:{ exists [EvPost u b 300]. split; [reflexivity | right; left; eauto]. }
    destruct (recover_state raw (log (EvPost u b 300) w)) as [->|(_ & _ & ->)].
    { exists [EvPost u b 300]. split; [reflexivity | right; left; eauto]. }
    unfold _repair_json_with_llm, bind, emit.
    destruct (Hyes (repair_prompt raw) 120 false
                (log (EvRepair raw) (log (EvPost u b 300) w))) as (u' & b' & H2).
    destruct (_llm_generate X (repair_prompt raw) 120 false _) as [[rep|e] w2];
      cbn [snd] in *; subst w2;
      (exists [EvPost u b 300; EvRepair raw; EvPost u' b' 120];
       split; [unfold log; cbn; rewrite <- !app_assoc; reflexivity
              | right; right; eauto 10]).
Qed.

End WithExternals.

End PipelineFacts.

(** * Properties of the pipeline ([src/pipeline.py]) *)

Module PipelineProps.
Import PyStr Config Assembler Props Examples Views Generator Retrieval Pipeline.
Import AssemblerFacts RecoveryFacts PipelineFacts.

Section WithExternals.
Variable X : Externals.

(** X11.  Once [_load_retriever] has returned, calling it again
    returns the same retriever and chunks, ingests nothing and changes
    nothing; the first call either found the retriever cached or
    ingested and built once. *)
Theorem load_retriever_cached (w : World) (r : HybridRetriever)
    (cs : option (list chunk)) (w' : World) :
  _load_retriever X w = (Ok (r, cs), w') ->
  _load_retriever X w' = (Ok (r, cs), w') /\
  _retriever_cache w' = Some r /\ _chunks_cache w' = cs /\
  (w' = w \/ trace w' = trace w ++ [EvIngest; EvBuildRetriever]).
Proof.
  intros H.
  destruct (load_cases X w)
    as [(r0 & Hc & E)|[(_ & e & _ & E)|[(_ & cs0 & e & _ & _ & E)
                                       |(_ & cs0 & r0 & _ & _ & E)]]];
    rewrite E in H; try discriminate; injection H as <- <- <-.
  - split; [exact E|]. split; [exact Hc|]. split; [reflexivity | left; reflexivity].
  - split; [reflexivity|]. split; [reflexivity|]. split; [reflexivity|].
    right. reflexivity.
Qed.

(** X12.  A failed load caches no retriever, so the next call ingests
    again.  If ingestion failed nothing was cached; if the constructor
    failed the chunks stay cached without a retriever. *)
Theorem load_retriever_failure (w : World) (e : exn) (w' : World) :
  _load_retriever X w = (Raise e, w') ->
  _retriever_cache w' = None /\
  ((ingest_docx X = Raise e /\ _chunks_cache w' = _chunks_cache w /\
    trace w' = trace w ++ [EvIngest])
   \/ (exists cs, ingest_docx X = Ok cs /\ new_retriever X cs = Raise e /\
                  _chunks_cache w' = Some cs /\
                  trace w' = trace w ++ [EvIngest; EvBuildRetriever])) /\
  exists evs,
    trace (snd (_load_retriever X w')) = trace w' ++ EvIngest :: evs.
Proof.
  intros H.
  destruct (load_cases X w)
    as [(r0 & Hc & E)|[(Hc & e0 & Hi & E)|[(Hc & cs0 & e0 & Hi & Hn & E)
                                          |(_ & cs0 & r0 & _ & _ & E)]]];
    rewrite E in H; try discriminate; injection H as <- <-.
  - split; [exact Hc|]. split; [left; auto|].
    unfold _load_retriever. cbn [log _retriever_cache]. rewrite Hc, Hi.
    exists []. reflexivity.
  - split; [reflexivity|]. split; [right; exists cs0; auto|].
    unfold _load_retriever. cbn [_retriever_cache]. rewrite Hi, Hn.
    exists [EvBuildRetriever]. unfold log. cbn. rewrite <- app_assoc. reflexivity.
Qed.

(** X13.  The no-evidence answer is not given on a first run.  With
    the libraries as documented, an index that refuses an empty corpus
    and an argsort that lists every position, a retriever that was
    built has a corpus and returns a chunk to every query: a run on a
    supported profile that starts with an empty cache and returns has
    ingested a document with a chunk and leaves [insufficient_context]
    and the clarifying questions unset. *)
Theorem no_evidence_unreachable (age_range income_type : string) (w : World)
    (res : result) (w' : World) :
  documented X ->
  age_range ∈ SUPPORTED_AGE_RANGES -> income_type ∈ SUPPORTED_INCOME_TYPES ->
  _retriever_cache w = None ->
  generate_pathfinder_suggestions X age_range income_type w = (Ok res, w') ->
  insufficient_context res = None /\ clarifying_questions res = None /\
  exists cs, ingest_docx X = Ok cs /\ cs <> [].
Proof.
  intros Hdoc Ha Hi Hcold H. rewrite pipeline_eq in H by assumption.
  destruct (load_cases X w)
    as [(r0 & Hc & E)|[(_ & e & _ & E)|[(_ & cs0 & e & _ & _ & E)
                                       |(_ & cs & r & Hin & Hb & E)]]];
    [congruence | rewrite E in H; discriminate | rewrite E in H; discriminate |].
  rewrite E in H. cbv zeta in H.
  destruct (RetrieverFacts.built_retrieves X cs r (query_of age_range income_type)
              Hdoc Hb) as (Hne & c & retrieved & Hr).
  rewrite Hr in H.
  destruct (generate_with_llm X _ age_range income_type _) as [[gen|e] w3];
    [|discriminate].
  destruct (obind (gen_get gen "suggestions") first_five) as [sugg|e];
    [|discriminate].
  destruct (gen_get gen "follow_up_questions") as [fups|e]; [|discriminate].
  injection H as <- <-. split; [reflexivity|]. split; [reflexivity|].
  exists cs. split; assumption.
Qed.

(** X14.  The calls one run of the pipeline makes, in order: at most
    one ingestion followed by at most one index construction, none of
    them when the retriever is cached; then at most one retrieval,
    with the configured sizes; then at most one generation request,
    and after it at most one repair with its request.  No request is
    posted unless the retrieval ran. *)
Theorem pipeline_calls (age_range income_type : string) (w : World) :
  exists load retr gen,
    trace (snd (generate_pathfinder_suggestions X age_range income_type w)) =
      trace w ++ load ++ retr ++ gen /\
    (load = [] \/ load = [EvIngest] \/ load = [EvIngest; EvBuildRetriever]) /\
    (retr = [] \/
     retr = [EvRetrieve (query_of age_range income_type) TOP_K BM25_TOP_N]) /\
    (gen = [] \/ (exists u b, gen = [EvPost u b 300]) \/
     exists u b raw u' b',
       gen = [EvPost u b 300; EvRepair raw; EvPost u' b' 120]) /\
    (retr = [] -> gen = []) /\
    (_retriever_cache w <> None -> load = []).
Proof.
  destruct (decide (age_range ∈ SUPPORTED_AGE_RANGES)) as [Ha|Ha].
  2:{ exists [], [], []. unfold generate_pathfinder_suggestions.
      rewrite (bool_decide_eq_false_2 _ Ha). cbn. rewrite app_nil_r. auto 10. }
  destruct (decide (income_type ∈ SUPPORTED_INCOME_TYPES)) as [Hi|Hi].
  2:{ exists [], [], []. unfold generate_pathfinder_suggestions.
      rewrite (bool_decide_eq_false_2 _ Hi), orb_true_r. cbn.
      rewrite app_nil_r. auto 10. }
  rewrite pipeline_eq by assumption.
  assert (Hload : exists o w1 load,
            _load_retriever X w = (o, w1) /\ trace w1 = trace w ++ load /\
            (load = [] \/ load = [EvIngest] \/ load = [EvIngest; EvBuildRetriever]) /\
            (_retriever_cache w <> None -> load = [])).
  { destruct (load_cases X w)
      as [(r0 & Hc & E)|[(Hc & e0 & _ & E)|[(Hc & cs0 & e0 & _ & _ & E)
                                           |(Hc & cs0 & r0 & _ & _ & E)]]];
      rewrite E; eexists _, _, _; (split; [reflexivity|]).
    - instantiate (1 := []). rewrite app_nil_r. auto.
    - split; [reflexivity|]. split; [auto | congruence].
    - split; [reflexivity|]. split; [auto | congruence].
    - split; [reflexivity|]. split; [auto | congruence]. }
  destruct Hload as (o & w1 & load & El & Ht & Hshape & Hcached). rewrite El.
  destruct o as [[r all_chunks]|e].
  2:{ exists load, [], []. cbn [snd]. rewrite Ht, !app_nil_r. auto 10. }
  cbv zeta. set (q := query_of age_range income_type).
  assert (Hstop : forall (o : outcome result),
            exists load' retr gen,
              trace (snd (o, log (EvRetrieve q TOP_K BM25_TOP_N) w1)) =
                trace w ++ load' ++ retr ++ gen /\
              (load' = [] \/ load' = [EvIngest] \/
               load' = [EvIngest; EvBuildRetriever]) /\
              (retr = [] \/ retr = [EvRetrieve q TOP_K BM25_TOP_N]) /\
              (gen = [] \/ (exists u b, gen = [EvPost u b 300]) \/
               exists u b raw u' b',
                 gen = [EvPost u b 300; EvRepair raw; EvPost u' b' 120]) /\
              (retr = [] -> gen = []) /\
              (_retriever_cache w <> None -> load' = [])).
  { intros o. exists load, [EvRetrieve q TOP_K BM25_TOP_N], [].
    cbn [snd log trace]. rewrite Ht, app_nil_r, <- app_assoc. auto 10. }
  destruct (retrieve X r q TOP_K BM25_TOP_N) as [[|c retrieved]|e];
    [apply Hstop| |apply Hstop].
  destruct all_chunks as [cs|]; [|apply Hstop].
  set (ctx := final_context_of cs (c :: retrieved) age_range income_type).
  destruct (generate_state X ctx age_range income_type
              (log (EvRetrieve q TOP_K BM25_TOP_N) w1)) as (gen & Hg & Hgs).
  assert (Hend : trace (snd (generate_with_llm X ctx age_range income_type
                               (log (EvRetrieve q TOP_K BM25_TOP_N) w1))) =
                 trace w ++ load ++ [EvRetrieve q TOP_K BM25_TOP_N] ++ gen).
  { rewrite Hg. cbn [trace log]. rewrite Ht, <- !app_assoc. reflexivity. }
  exists load, [EvRetrieve q TOP_K BM25_TOP_N], gen.
  split.
  - destruct (generate_with_llm X ctx age_range income_type _) as [[g|e] w3];
      cbn [snd] in Hend; [|exact Hend].
    destruct (obind (gen_get g "suggestions") first_five); [|exact Hend].
    destruct (gen_get g "follow_up_questions"); exact Hend.
  - split; [exact Hshape|]. split; [right; reflexivity|]. split; [exact Hgs|].
    split; [discriminate | exact Hcached].
Qed.

(** X15.  A result without [insufficient_context] comes from a
    supported profile and echoes it.  Its evidence is that of the
    assembled context: at most five pieces, each under a non-empty
    identifier and no identifier twice.  The answer of the model was a
    JSON object; the follow-up questions are what it has under
    [follow_up_questions], and the suggestions are the first five
    items of the array, or the first five characters of the string, it
    has under [suggestions]; a key that is missing counts as the empty
    array. *)
Theorem pipeline_success_shape (age_range income_type : string) (w : World)
    (res : result) (w' : World) :
  generate_pathfinder_suggestions X age_range income_type w = (Ok res, w') ->
  insufficient_context res = None ->
  age_range ∈ SUPPORTED_AGE_RANGES /\ income_type ∈ SUPPORTED_INCOME_TYPES /\
  profile res = (age_range, income_type) /\ clarifying_questions res = None /\
  (length (retrieved_evidence res) <= 5)%nat /\
  Forall (fun ev => exists cid, ev_chunk_id ev = VStr cid /\ cid <> "")
         (retrieved_evidence res) /\
  NoDup (map ev_chunk_id (retrieved_evidence res)) /\
  exists r cs w1 retrieved fields,
    _load_retriever X w = (Ok (r, Some cs), w1) /\
    retrieve X r (query_of age_range income_type) TOP_K BM25_TOP_N = Ok retrieved /\
    retrieved <> [] /\
    generate_with_llm X (final_context_of cs retrieved age_range income_type)
      age_range income_type
      (log (EvRetrieve (query_of age_range income_type) TOP_K BM25_TOP_N) w1) =
      (Ok (JObj fields), w') /\
    retrieved_evidence res =
      map evidence_of (final_context_of cs retrieved age_range income_type) /\
    follow_up_questions res =
      default (JArr []) (json_lookup "follow_up_questions" fields) /\
    ((exists l, default (JArr []) (json_lookup "suggestions" fields) = JArr l /\
                suggestions res = JArr (take 5 l))
     \/ exists t, default (JArr []) (json_lookup "suggestions" fields) = JStr t /\
                  suggestions res = JStr (take_chars 5 t)).
Proof.
  intros H Hnone.
  destruct (decide (age_range ∈ SUPPORTED_AGE_RANGES)) as [Ha|Ha].
  2:{ unfold generate_pathfinder_suggestions in H.
      rewrite (bool_decide_eq_false_2 _ Ha) in H. cbn in H.
      injection H as <- <-. discriminate. }
  destruct (decide (income_type ∈ SUPPORTED_INCOME_TYPES)) as [Hi|Hi].
  2:{ unfold generate_pathfinder_suggestions in H.
      rewrite (bool_decide_eq_false_2 _ Hi), orb_true_r in H. cbn in H.
      injection H as <- <-. discriminate. }
  split; [exact Ha|]. split; [exact Hi|].
  rewrite pipeline_eq in H by assumption.
  destruct (_load_retriever X w) as [[[r all_chunks]|e] w1] eqn:El; [|discriminate].
  cbv zeta in H.
  destruct (retrieve X r _ TOP_K BM25_TOP_N) as [[|c retrieved]|e] eqn:Er;
    [injection H as <- <-; discriminate| |discriminate].
  destruct all_chunks as [cs|]; [|discriminate].
  destruct (generate_with_llm X _ age_range income_type _) as [[gen|e] w3] eqn:Eg;
    [|discriminate].
  destruct (obind (gen_get gen "suggestions") first_five) as [sugg|e] eqn:Es;
    [|discriminate].
  destruct (gen_get gen "follow_up_questions") as [fups|e] eqn:Ef; [|discriminate].
  injection H as <- <-. cbn [profile clarifying_questions retrieved_evidence
                              suggestions follow_up_questions].
  destruct (final_context_ids cs (c :: retrieved) age_range income_type)
    as (Hlen & Hvalid & Hnd).
  split; [reflexivity|]. split; [reflexivity|].
  split; [rewrite length_map; exact Hlen|]. split; [|split].
  - apply Forall_fmap. eapply Forall_impl; [exact Hvalid|].
    intros d [cid Hd]. apply chunk_id_of_Some in Hd as [Hd Hne].
    exists cid. split; [|exact Hne].
    unfold evidence_of, get_default. cbn [ev_chunk_id]. rewrite Hd. reflexivity.
  - rewrite evidence_ids by exact Hvalid.
    apply NoDup_fmap_2; [|exact Hnd]. intros x y Hxy. congruence.
  - destruct gen as [| | | | |fields]; try discriminate Ef.
    exists r, cs, w1, (c :: retrieved), fields.
    split; [reflexivity|]. split; [exact Er|]. split; [discriminate|].
    split; [exact Eg|]. split; [reflexivity|].
    cbn [gen_get] in Es, Ef. split.
    + destruct (json_lookup "follow_up_questions" fields);
        injection Ef as <-; reflexivity.
    + assert (Ev : first_five (default (JArr []) (json_lookup "suggestions" fields))
                   = Ok sugg).
      { destruct (json_lookup "suggestions" fields); exact Es. }
      destruct (default (JArr []) (json_lookup "suggestions" fields)) as [| | |t|l|];
        try discriminate Ev; injection Ev as <-; eauto.
Qed.

(** X16.  When the decoded answer of the model is not a JSON object
    the pipeline raises [AttributeError], after the requests were
    made: recovery accepts any JSON value, the pipeline only an
    object. *)
Theorem pipeline_answer_not_object (age_range income_type : string) (w : World)
    (r : HybridRetriever) (cs retrieved : list chunk) (w1 : World)
    (gen : json) (w3 : World) :
  age_range ∈ SUPPORTED_AGE_RANGES -> income_type ∈ SUPPORTED_INCOME_TYPES ->
  _load_retriever X w = (Ok (r, Some cs), w1) ->
  retrieve X r (query_of age_range income_type) TOP_K BM25_TOP_N = Ok retrieved ->
  retrieved <> [] ->
  generate_with_llm X (final_context_of cs retrieved age_range income_type)
    age_range income_type
    (log (EvRetrieve (query_of age_range income_type) TOP_K BM25_TOP_N) w1) =
    (Ok gen, w3) ->
  (forall fields, gen <> JObj fields) ->
  generate_pathfinder_suggestions X age_range income_type w =
  (Raise AttributeError, w3).
Proof.
  intros Ha Hi Hl Hr Hne Hg Hobj.
  rewrite pipeline_eq by assumption. rewrite Hl. cbv zeta. rewrite Hr.
  destruct retrieved as [|c retrieved]; [contradiction|].
  rewrite Hg.
  destruct gen; try reflexivity. exfalso. eapply Hobj. reflexivity.
Qed.

End WithExternals.

Lemma load_retriever_cached_witness :
  exists r cs w',
    _load_retriever X_list world0 = (Ok (r, cs), w') /\
    _load_retriever X_list w' = (Ok (r, cs), w').
Proof.
  destruct (_load_retriever X_list world0) as [[[r cs]|e] w'] eqn:E;
    [|vm_compute in E; discriminate].
  exists r, cs, w'. split; [reflexivity|].
  apply (load_retriever_cached X_list world0 r cs w' E).
Defined.

Lemma load_retriever_failure_witness :
  exists evs,
    trace (snd (_load_retriever X_no_document (log EvIngest world0))) =
    trace (log EvIngest world0) ++ EvIngest :: evs.
Proof.
  apply (load_retriever_failure X_no_document world0 OSError (log EvIngest world0)).
  vm_compute. reflexivity.
Defined.

Lemma no_evidence_unreachable_witness :
  exists res w',
    generate_pathfinder_suggestions X_six "18-24" "Commission" world0 = (Ok res, w') /\
    insufficient_context res = None.
Proof.
  destruct (generate_pathfinder_suggestions X_six "18-24" "Commission" world0)
    as [[res|e] w'] eqn:E; [|vm_compute in E; discriminate].
  exists res, w'. split; [reflexivity|].
  apply (no_evidence_unreachable X_six "18-24" "Commission" world0 res w').
  - apply RetrieverFacts.externals_documented.
  - vm_compute. repeat constructor.
  - vm_compute. repeat constructor.
  - reflexivity.
  - exact E.
Defined.

Lemma pipeline_success_shape_witness :
  exists res w' l,
    generate_pathfinder_suggestions X_six "18-24" "Commission" world0 = (Ok res, w') /\
    suggestions res = JArr (take 5 l).
Proof.
  destruct (generate_pathfinder_suggestions X_six "18-24" "Commission" world0)
    as [[res|e] w'] eqn:E; [|vm_compute in E; discriminate].
  destruct (pipeline_success_shape X_six "18-24" "Commission" world0 res w' E)
    as (_ & _ & _ & _ & _ & _ & _ & r & cs & w1 & retrieved & fields &
        _ & _ & _ & _ & _ & _ & [(l & _ & Hs)|(t & _ & Hs)]).
  - vm_compute in E. injection E as <- _. reflexivity.
  - exists res, w', l. split; [reflexivity | exact Hs].
  - exfalso. vm_compute in E. injection E as <- _. discriminate Hs.
Defined.

Lemma pipeline_answer_not_object_witness :
  fst (generate_pathfinder_suggestions X_list "18-24" "Commission" world0) =
  Raise AttributeError.
Proof.
  let v := eval vm_compute in (_load_retriever X_list world0) in
  match v with
  | (Ok (?r, Some ?cs), ?w1) =>
      let g := eval vm_compute in
        (retrieve X_list r (query_of "18-24" "Commission") TOP_K BM25_TOP_N) in
      match g with
      | Ok ?retrieved =>
          rewrite (pipeline_answer_not_object X_list "18-24" "Commission" world0
                     r cs retrieved w1 (JArr [JNum 1; JNum 2])
                     (snd (generate_pathfinder_suggestions X_list "18-24"
                             "Commission" world0)));
          [reflexivity
          | vm_compute; repeat constructor | vm_compute; repeat constructor
          | vm_compute; reflexivity | vm_compute; reflexivity
          | discriminate | vm_compute; reflexivity | discriminate]
      end
  end.
Defined.

End PipelineProps.

(** * More facts about the context assembler *)

Module ContextFacts.
Import Assembler Props AssemblerFacts.

Lemma omap_valid_length {A B} (f : A -> option B) (l : list A) :
  Forall (fun x => is_Some (f x)) l -> length (omap f l) = length l.
Proof.
  induction 1 as [|x l [y Hy] _ IH]; [reflexivity|].
  change (omap f (x :: l)) with
    (match f x with Some y => y :: omap f l | None => omap f l end).
  rewrite Hy. cbn [length]. rewrite IH. reflexivity.
Qed.

Lemma id_set_app (l1 l2 : list chunk) :
  id_set (l1 ++ l2) = id_set l1 ∪ id_set l2.
Proof. unfold id_set. rewrite omap_app, list_to_set_app_L. reflexivity. Qed.

Lemma id_set_dedup_eq (l : list chunk) : id_set (dedup_ids l ∅) = id_set l.
Proof. rewrite <- id_set_dedup. apply (right_id_L ∅ (∪)). Qed.

(** The deduplicated list has one chunk per identifier. *)
Lemma dedup_ids_length (l : list chunk) :
  length (dedup_ids l ∅) = size (id_set l).
Proof.
  rewrite <- id_set_dedup_eq. unfold id_set.
  rewrite size_list_to_set by apply dedup_ids_NoDup.
  symmetry. apply omap_valid_length, dedup_ids_valid.
Qed.

Lemma found_length (a i r : option chunk) : (length (found a i r) <= 3)%nat.
Proof. destruct a, i, r; cbn; lia. Qed.

(** A found age chunk with an identifier comes first. *)
Lemma safe_context_head (retrieved : list chunk) (c : chunk)
    (i r : option chunk) (k : Z) :
  1 <= k -> is_Some (chunk_id_of c) ->
  head (_safe_context_set retrieved (Some c) i r k) = Some c.
Proof.
  intros Hk [cid Hc]. rewrite safe_context_set_eq by lia.
  change (found (Some c) i r ++ retrieved) with (c :: (found None i r ++ retrieved)).
  cbn [dedup_ids]. rewrite Hc.
  rewrite bool_decide_eq_false_2 by set_solver.
  destruct (Z.to_nat k) as [|n] eqn:E; [lia|]. reflexivity.
Qed.

End ContextFacts.

(** * Properties of the context assembler ([src/pipeline.py]) *)

Module AssemblerProps.
Import Assembler Props Examples Views.
Import AssemblerFacts ContextFacts.

(** X17.  A smaller [top_k] gives a prefix of the context a larger
    one gives: raising the limit only appends chunks. *)
Theorem safe_context_set_prefix (retrieved : list chunk)
    (a i r : option chunk) (k k' : Z) :
  0 <= k <= k' ->
  _safe_context_set retrieved a i r k =
  take (Z.to_nat k) (_safe_context_set retrieved a i r k').
Proof.
  intros Hk. rewrite !safe_context_set_eq by lia. rewrite take_take.
  f_equal. lia.
Qed.

(** X18.  The context has exactly as many chunks as there are distinct
    non-empty identifiers among the priority chunks and the retrieved
    ones, up to [top_k]. *)
Theorem safe_context_set_length (retrieved : list chunk)
    (a i r : option chunk) (k : Z) :
  0 <= k ->
  length (_safe_context_set retrieved a i r k) =
  Nat.min (Z.to_nat k) (size (id_set (found a i r ++ retrieved))).
Proof.
  intros Hk. rewrite safe_context_set_eq by exact Hk.
  rewrite length_take, dedup_ids_length. reflexivity.
Qed.

(** X19.  With room for three, no priority chunk is lost to the
    limit: the context starts with the found priority chunks, less
    those without an identifier or with one already met, and every
    priority identifier is in the context. *)
Theorem priority_chunks_kept (retrieved : list chunk)
    (a i r : option chunk) (k : Z) :
  3 <= k ->
  (exists rest,
     _safe_context_set retrieved a i r k = dedup_ids (found a i r) ∅ ++ rest /\
     sublist rest retrieved)
  /\ id_set (found a i r) ⊆ id_set (_safe_context_set retrieved a i r k).
Proof.
  intros Hk. rewrite safe_context_set_eq by lia. rewrite dedup_ids_app.
  set (P := dedup_ids (found a i r) ∅).
  set (R := dedup_ids retrieved (id_set (found a i r) ∪ ∅)).
  assert (Hlen : (length P <= Z.to_nat k)%nat).
  { pose proof (sublist_length _ _ (dedup_ids_sublist (found a i r) ∅)) as H1.
    pose proof (found_length a i r). fold P in H1. lia. }
  rewrite take_app_ge by exact Hlen. split.
  - eexists. split; [reflexivity|].
    etransitivity; [apply sublist_take | apply dedup_ids_sublist].
  - rewrite id_set_app. unfold P. rewrite id_set_dedup_eq. set_solver.
Qed.

(** X20.  The age chunk, when one was found and it has an identifier,
    is the first chunk of every context with room for one. *)
Theorem age_chunk_first (retrieved : list chunk) (c : chunk)
    (i r : option chunk) (k : Z) :
  1 <= k -> is_Some (chunk_id_of c) ->
  head (_safe_context_set retrieved (Some c) i r k) = Some c.
Proof.
  apply safe_context_head.
Qed.

Lemma safe_context_set_prefix_witness :
  _safe_context_set [chunk_age; chunk_general; chunk_no_id] (Some chunk_age)
    (Some chunk_income) (Some chunk_rationale) 2 =
  take 2 (_safe_context_set [chunk_age; chunk_general; chunk_no_id]
            (Some chunk_age) (Some chunk_income) (Some chunk_rationale) 5).
Proof.
  apply (safe_context_set_prefix [chunk_age; chunk_general; chunk_no_id]
           (Some chunk_age) (Some chunk_income) (Some chunk_rationale) 2 5).
  lia.
Defined.

Lemma safe_context_set_length_witness :
  length (_safe_context_set [chunk_age; chunk_general; chunk_no_id]
            (Some chunk_age) (Some chunk_income) (Some chunk_rationale) 5) =
  Nat.min 5 (size (id_set (found (Some chunk_age) (Some chunk_income)
                             (Some chunk_rationale) ++
                           [chunk_age; chunk_general; chunk_no_id]))).
Proof.
  apply (safe_context_set_length [chunk_age; chunk_general; chunk_no_id]
           (Some chunk_age) (Some chunk_income) (Some chunk_rationale) 5).
  lia.
Defined.

Lemma priority_chunks_kept_witness :
  id_set (found (Some chunk_age) (Some chunk_income) (Some chunk_rationale)) ⊆
  id_set (_safe_context_set [chunk_general; chunk_mixed; chunk_55; chunk_em]
            (Some chunk_age) (Some chunk_income) (Some chunk_rationale) 3).
Proof.
  apply (priority_chunks_kept [chunk_general; chunk_mixed; chunk_55; chunk_em]
           (Some chunk_age) (Some chunk_income) (Some chunk_rationale) 3).
  lia.
Defined.

Lemma age_chunk_first_witness :
  head (_safe_context_set [chunk_general; chunk_mixed] (Some chunk_age)
          (Some chunk_income) None 1) = Some chunk_age.
Proof.
  apply (age_chunk_first [chunk_general; chunk_mixed] chunk_age
           (Some chunk_income) None 1); [lia|].
  vm_compute. eauto.
Defined.

End AssemblerProps.

(** * Facts about ingestion *)

Module IngestFacts.
Import PyStr Props Ingest IngestViews StrFacts ScanFacts.

(** ** Trimmed texts and [join] *)

Lemma append_nonempty_r (x b : string) : b <> "" -> x +:+ b <> "".
Proof. destruct x; [rewrite append_nil_l; auto | rewrite append_cons; discriminate]. Qed.

Lemma trimmed_start (s : string) : trimmed s -> after_space s = None.
Proof. intros (_ & Hl & _). rewrite <- Hl. apply lstrip_done. Qed.

Lemma strip_trimmed (s : string) : trimmed s -> strip s = s.
Proof. intros (_ & Hl & Hr). unfold strip. rewrite Hl. exact Hr. Qed.

Lemma strip_result (x : string) : strip x <> "" -> trimmed (strip x).
Proof.
  intros Hne. split; [exact Hne|]. unfold strip. split.
  - apply lstrip_fixed, rstrip_start, lstrip_done.
  - apply rstrip_idem.
Qed.

Lemma trimmed_sep (a b : string) :
  trimmed a -> trimmed b -> trimmed (a +:+ " " +:+ b).
Proof.
  intros Ha Hb. split; [|split].
  - apply append_nonempty_r. discriminate.
  - apply lstrip_fixed. apply after_space_sep; [apply Ha | apply trimmed_start, Ha].
  - destruct Hb as (Hne & _ & Hr). apply rstrip_sep; assumption.
Qed.

Lemma join_cons2 (sep x y : string) (l : list string) :
  join sep (x :: y :: l) = x +:+ sep +:+ join sep (y :: l).
Proof. reflexivity. Qed.

Lemma trimmed_join (l : list string) :
  Forall trimmed l -> l <> [] -> trimmed (join " " l).
Proof.
  induction 1 as [|x l Hx Hl IH]; intros Hne; [contradiction|].
  destruct l as [|y l]; [exact Hx|].
  rewrite join_cons2. apply trimmed_sep; [exact Hx | apply IH; discriminate].
Qed.

Lemma join_app (l1 l2 : list string) :
  l1 <> [] -> l2 <> [] ->
  join " " (l1 ++ l2) = join " " l1 +:+ " " +:+ join " " l2.
Proof.
  intros H1 H2. induction l1 as [|x l1 IH]; [contradiction|].
  destruct l1 as [|y l1].
  - destruct l2 as [|z l2]; [contradiction|]. reflexivity.
  - change ((x :: y :: l1) ++ l2) with (x :: y :: (l1 ++ l2)).
    rewrite !join_cons2.
    change (y :: l1 ++ l2) with ((y :: l1) ++ l2). rewrite IH by discriminate.
    rewrite !append_assoc. reflexivity.
Qed.

(** Joining the joined groups is joining everything. *)
Lemma join_groups (groups : list (list string)) :
  Forall (fun g => g <> []) groups ->
  join " " (map (join " ") groups) = join " " (concat groups).
Proof.
  induction 1 as [|g groups Hg Hgs IH]; [reflexivity|].
  destruct groups as [|g2 groups].
  - cbn [map concat]. rewrite app_nil_r. reflexivity.
  - change (map (join " ") (g :: g2 :: groups))
      with (join " " g :: join " " g2 :: map (join " ") groups).
    rewrite join_cons2.
    change (join " " g2 :: map (join " ") groups)
      with (map (join " ") (g2 :: groups)).
    rewrite IH. change (concat (g :: g2 :: groups)) with (g ++ concat (g2 :: groups)).
    rewrite join_app; [reflexivity | exact Hg |].
    inversion Hgs as [|? ? Hg2 _]; subst. destruct g2; [contradiction | discriminate].
Qed.

(** ** Identifiers *)

Lemma uint_digits (d : Decimal.uint) : all_digits (NilEmpty.string_of_uint d) = true.
Proof. induction d; cbn [NilEmpty.string_of_uint all_digits]; rewrite ?IHd; reflexivity. Qed.

Lemma fmt02_uint (n : nat) :
  exists d, fmt02 n = NilEmpty.string_of_uint d /\ Nat.of_uint d = n.
Proof.
  unfold fmt02. destruct (String.length _ <? 2)%nat.
  - exists (Decimal.D0 (Nat.to_uint n)). split; [reflexivity|].
    transitivity (Nat.of_uint (Nat.to_uint n)); [reflexivity | apply Unsigned.of_to].
  - exists (Nat.to_uint n). split; [reflexivity | apply Unsigned.of_to].
Qed.

Lemma fmt02_digits (n : nat) : all_digits (fmt02 n) = true.
Proof. destruct (fmt02_uint n) as (d & -> & _). apply uint_digits. Qed.

Lemma fmt02_inj (n m : nat) : fmt02 n = fmt02 m -> n = m.
Proof.
  destruct (fmt02_uint n) as (d & -> & <-), (fmt02_uint m) as (e & -> & <-).
  intros H. f_equal.
  pose proof (NilEmpty.usu d) as Hd. rewrite H, NilEmpty.usu in Hd. congruence.
Qed.

Lemma not_digits_sep (x y : string) : all_digits (x +:+ "_" +:+ y) = false.
Proof.
  induction x as [|c x IH]; [reflexivity|].
  rewrite append_cons. cbn [all_digits]. rewrite IH. apply andb_false_r.
Qed.

(** The prefix and the number of an identifier are determined by the
    identifier. *)
Lemma id_inj (p1 p2 d1 d2 : string) :
  all_digits d1 = true -> all_digits d2 = true ->
  p1 +:+ "_" +:+ d1 = p2 +:+ "_" +:+ d2 -> p1 = p2 /\ d1 = d2.
Proof.
  intros H1 H2. revert p2. induction p1 as [|c p1 IH]; intros [|c2 p2] H.
  - change (String "_" d1 = String "_" d2) in H. injection H as H. auto.
  - change (String "_" d1 = String c2 (p2 +:+ "_" +:+ d2)) in H.
    injection H as _ H. rewrite H, not_digits_sep in H1. discriminate.
  - change (String c (p1 +:+ "_" +:+ d1) = String "_" d2) in H.
    injection H as _ H. rewrite <- H, not_digits_sep in H2. discriminate.
  - rewrite !append_cons in H. injection H as -> H.
    destruct (IH _ H) as [-> ->]. auto.
Qed.

End IngestFacts.

Module IngestLoop.
Import PyStr Props Ingest IngestViews StrFacts ScanFacts IngestFacts.

Lemma body_texts_app (l : list paragraph) (p : paragraph) :
  body_texts (l ++ [p]) =
  body_texts l ++
  (if negb (is_blank p) && negb (_is_heading p) then [stripped_text p] else []).
Proof.
  unfold body_texts. rewrite List.filter_app, map_app. cbn [List.filter].
  destruct (negb (is_blank p) && negb (_is_heading p)); reflexivity.
Qed.

Lemma heading_texts_app (l : list paragraph) (p : paragraph) :
  heading_texts (l ++ [p]) =
  heading_texts l ++
  (if negb (is_blank p) && _is_heading p then [stripped_text p] else []).
Proof.
  unfold heading_texts. rewrite List.filter_app, map_app. cbn [List.filter].
  destruct (negb (is_blank p) && _is_heading p); reflexivity.
Qed.

Section WithRe.
Variable R : ReLib.

Lemma entries_ok_heads (heads heads' : list string) cnt entries :
  (forall h, h ∈ heads -> h ∈ heads') ->
  entries_ok R heads cnt entries -> entries_ok R heads' cnt entries.
Proof.
  intros Hsub [Hall Hrest]. split; [|exact Hrest].
  eapply Forall_impl; [exact Hall|]. intros e (Hn & Hh & Hin & Hp).
  split; [exact Hn|]. split; [exact Hh|]. split; [|exact Hp].
  apply elem_of_cons in Hin as [->|Hin]; [left | right; apply Hsub, Hin].
Qed.

Lemma with_prefix_app (p : string) (l1 l2 : list entry) :
  with_prefix R p (l1 ++ l2) = (with_prefix R p l1 + with_prefix R p l2)%nat.
Proof. unfold with_prefix. rewrite List.filter_app, length_app. reflexivity. Qed.

Lemma counted_add cnt entries (h : string) (parts : list string) :
  counted R cnt entries ->
  let p := _semantic_prefix R h (join " " parts) in
  let n := S (default O (cnt !! p)) in
  counted R (<[p := n]> cnt) (entries ++ [(n, h, parts)]).
Proof.
  intros [Hcnt Hnum] p n.
  assert (Hp : entry_prefix R (n, h, parts) = p) by reflexivity.
  split.
  - intros q. rewrite with_prefix_app. unfold with_prefix at 2.
    cbn [List.filter]. rewrite Hp.
    destruct (decide (p = q)) as [<-|Hne].
    + rewrite lookup_insert_eq, String.eqb_refl.
      change (default O (Some n)) with n. subst n. rewrite Hcnt. cbn. lia.
    + rewrite lookup_insert_ne by exact Hne.
      replace (String.eqb p q) with false
        by (symmetry; apply String.eqb_neq; exact Hne).
      rewrite Hcnt. cbn. lia.
  - intros i e He.
    destruct (lookup_app_Some entries [(n, h, parts)] i e) as [Hl _].
    destruct (Hl He) as [Hin|[Hge Hlast]].
    + rewrite take_app_le by (apply lookup_lt_Some in Hin; lia).
      apply Hnum, Hin.
    + destruct (i - length entries)%nat as [|k] eqn:Ek; [|destruct k; discriminate].
      injection Hlast as <-. assert (i = length entries) as -> by lia.
      rewrite take_app_length. rewrite Hp. cbn [fst]. subst n.
      rewrite Hcnt. reflexivity.
Qed.

(** A new entry gets the next number of its prefix. *)
Lemma entries_ok_add (heads : list string) cnt entries
    (h : string) (parts : list string) :
  entries_ok R heads cnt entries ->
  h <> "" -> h ∈ "Untitled Section" :: heads ->
  parts <> [] -> Forall trimmed parts ->
  let p := _semantic_prefix R h (join " " parts) in
  let n := S (default O (cnt !! p)) in
  entries_ok R heads (<[p := n]> cnt) (entries ++ [(n, h, parts)]).
Proof.
  intros (Hall & Hnd & Hcount) Hh Hin Hne Htr p n.
  split; [|split; [|apply counted_add; exact Hcount]].
  - apply Forall_app. split.
    + eapply Forall_impl; [exact Hall|]. intros e (Hn & Hrest).
      split; [|exact Hrest].
      destruct (decide (entry_prefix R e = p)) as [E|E].
      * rewrite E in *. rewrite lookup_insert_eq.
        change (default O (Some n)) with n. subst n. lia.
      * rewrite lookup_insert_ne by congruence. exact Hn.
    + constructor; [|constructor].
      change (entry_prefix R (n, h, parts)) with p. cbn [fst snd].
      rewrite lookup_insert_eq. change (default O (Some n)) with n.
      split; [lia|]. auto.
  - rewrite map_app. apply NoDup_app. split; [exact Hnd|]. split.
    + intros k Hk Hk'. apply list_elem_of_singleton in Hk'. subst k.
      apply list_elem_of_fmap in Hk as (e & He & Hin').
      rewrite Forall_forall in Hall. destruct (Hall e Hin') as ((_ & Hn) & _).
      unfold entry_key in He. cbn [fst snd] in He.
      change (entry_prefix R (n, h, parts)) with p in He.
      injection He as Hp Hn'. rewrite <- Hp in Hn. subst n. lia.
    + apply NoDup_singleton.
Qed.

(** [add_chunk] on trimmed parts never takes the early return. *)
Lemma add_chunk_eq (h : string) (parts : list string) (st : state) :
  parts <> [] -> Forall trimmed parts ->
  let p := _semantic_prefix R h (join " " parts) in
  let n := S (default O (counters st !! p)) in
  add_chunk R h parts st =
  State (chunks st ++ [entry_chunk R (n, h, parts)])
        (current_heading st) (current_text st) (<[p := n]> (counters st)).
Proof.
  intros Hne Htr p n. unfold add_chunk.
  pose proof (trimmed_join parts Htr Hne) as Hj.
  rewrite (strip_trimmed _ Hj).
  destruct (String.eqb (join " " parts) "") eqn:E.
  - apply String.eqb_eq in E. destruct Hj as [Hj _]. contradiction.
  - reflexivity.
Qed.

Lemma open_section_nil (st : state) :
  current_text st = [] -> open_section st = None.
Proof. unfold open_section. intros ->. destruct (current_heading st); reflexivity. Qed.

Lemma open_section_cons (st : state) (h t : string) (ts : list string) :
  current_heading st = Some h -> h <> "" -> current_text st = t :: ts ->
  open_section st = Some h.
Proof.
  unfold open_section. intros -> Hh ->.
  destruct (String.eqb h "") eqn:E; [apply String.eqb_eq in E; contradiction|].
  reflexivity.
Qed.

Lemma elem_of_heads_app (h : string) (heads more : list string) :
  h ∈ "Untitled Section" :: heads -> h ∈ "Untitled Section" :: heads ++ more.
Proof.
  intros H. apply elem_of_cons in H as [->|H]; [left | right].
  apply elem_of_app. left. exact H.
Qed.

Lemma open_none (paras : list paragraph) (st : state) :
  loop_inv R paras st -> open_section st = None -> current_text st = [].
Proof.
  intros (_ & _ & _ & _ & _ & Hcur & Hhead) Eo.
  destruct (current_text st) as [|t ts] eqn:Et; [reflexivity|]. exfalso.
  destruct (current_heading st) as [h|] eqn:Eh.
  - destruct (Hhead h eq_refl) as [Hne _].
    rewrite (open_section_cons _ _ _ _ Eh Hne Et) in Eo. discriminate.
  - apply Hcur; [discriminate | reflexivity].
Qed.

Lemma open_some (paras : list paragraph) (st : state) (h : string) :
  loop_inv R paras st -> open_section st = Some h ->
  current_heading st = Some h /\ current_text st <> [] /\ h <> "" /\
  h ∈ "Untitled Section" :: heading_texts paras.
Proof.
  intros (_ & _ & _ & _ & _ & _ & Hhead) Eo. unfold open_section in Eo.
  destruct (current_heading st) as [h'|] eqn:Eh; [|discriminate].
  destruct (current_text st) as [|t ts]; [discriminate|].
  destruct (String.eqb h' ""); [discriminate|]. injection Eo as ->.
  destruct (Hhead h eq_refl) as [Hne Hin]. split; [reflexivity|].
  split; [discriminate|]. split; assumption.
Qed.

(** Closing the open section. *)
Lemma close_inv (paras : list paragraph) (st : state) (h : string) :
  loop_inv R paras st -> open_section st = Some h ->
  let st' := add_chunk R h (current_text st) st in
  exists entries,
    chunks st' = map (entry_chunk R) entries /\
    entries_ok R (heading_texts paras) (counters st') entries /\
    concat (map entry_parts entries) = body_texts paras.
Proof.
  intros Hinv Eo. destruct (open_some _ _ _ Hinv Eo) as (Eh & Hne & Hh & Hin).
  destruct Hinv as (entries & Hc & Hok & Hbody & Htr & _).
  cbv zeta. rewrite add_chunk_eq by assumption. cbn [chunks counters].
  exists (entries ++
          [(S (default O (counters st !!
                            _semantic_prefix R h (join " " (current_text st)))),
            h, current_text st)]).
  split; [rewrite map_app, Hc; reflexivity|]. split.
  - apply entries_ok_add; assumption.
  - rewrite map_app, concat_app. cbn [map concat entry_parts snd].
    rewrite app_nil_r. exact Hbody.
Qed.

Lemma step_inv (paras : list paragraph) (st : state) (para : paragraph) :
  loop_inv R paras st -> loop_inv R (paras ++ [para]) (step R st para).
Proof.
  intros Hinv. unfold step, loop_inv.
  rewrite body_texts_app, heading_texts_app. unfold is_blank, stripped_text.
  destruct (String.eqb (strip (para_text para)) "") eqn:Eb.
  { cbn [negb andb]. rewrite !app_nil_r. exact Hinv. }
  assert (Htext : trimmed (strip (para_text para))).
  { apply strip_result. intros E. rewrite E in Eb. discriminate. }
  set (text := strip (para_text para)) in *.
  cbn [negb andb]. destruct (_is_heading para); cbn [negb].
  - rewrite app_nil_r.
    assert (Hnew : text <> "" /\
                   text ∈ "Untitled Section" :: heading_texts paras ++ [text]).
    { destruct Htext as [Hne _]. split; [exact Hne|].
      right. apply elem_of_app. right. left. }
    destruct (open_section st) as [h|] eqn:Eo.
    + destruct (close_inv paras st h Hinv Eo) as (entries & Hc & Hok & Hbody).
      cbv zeta in Hc, Hok.
      exists entries. cbn [chunks counters current_text current_heading].
      split; [exact Hc|]. split.
      { eapply entries_ok_heads; [|exact Hok]. intros x Hx. apply elem_of_app. auto. }
      split; [rewrite app_nil_r; exact Hbody|]. split; [constructor|].
      split; [intros H; contradiction|].
      intros x Hx. injection Hx as <-. exact Hnew.
    + pose proof (open_none _ _ Hinv Eo) as Et.
      destruct Hinv as (entries & Hc & Hok & Hbody & Htr & _).
      exists entries. cbn [chunks counters current_text current_heading].
      split; [exact Hc|]. split.
      { eapply entries_ok_heads; [|exact Hok]. intros x Hx. apply elem_of_app. auto. }
      split; [exact Hbody|]. split; [exact Htr|].
      split; [intros H; contradiction|].
      intros x Hx. injection Hx as <-. exact Hnew.
  - rewrite app_nil_r.
    destruct Hinv as (entries & Hc & Hok & Hbody & Htr & Hcur & Hhead).
    exists entries. cbn [chunks counters current_text current_heading].
    split; [exact Hc|]. split; [exact Hok|].
    split; [rewrite app_assoc, Hbody; reflexivity|].
    split; [apply Forall_app; split; [exact Htr | constructor; [exact Htext | constructor]]|].
    split; [intros _; destruct (current_heading st); discriminate|].
    intros x Hx. destruct (current_heading st) as [h|] eqn:Eh.
    + injection Hx as <-. apply Hhead. reflexivity.
    + injection Hx as <-. split; [discriminate | left].
Qed.

Lemma loop_inv_init : loop_inv R [] (State [] None [] ∅).
Proof.
  exists []. cbn. split; [reflexivity|].
  split; [split; [constructor|split; [constructor|]]|].
  { split; [intros p; rewrite lookup_empty; reflexivity|].
    intros i e H. rewrite lookup_nil in H. discriminate. }
  split; [reflexivity|]. split; [constructor|].
  split; [intros H; contradiction | intros h H; discriminate].
Qed.

Lemma loop_inv_fold (paras : list paragraph) :
  loop_inv R paras (fold_left (step R) paras (State [] None [] ∅)).
Proof.
  induction paras as [|para paras IH] using rev_ind; [apply loop_inv_init|].
  rewrite fold_left_app. cbn [fold_left]. apply step_inv, IH.
Qed.

Lemma fold_blank (paras : list paragraph) (st : state) :
  fold_left (step R) (List.filter (fun p => negb (is_blank p)) paras) st =
  fold_left (step R) paras st.
Proof.
  revert st. induction paras as [|p paras IH]; intros st; [reflexivity|].
  cbn [List.filter fold_left]. unfold is_blank at 1.
  destruct (String.eqb (strip (para_text p)) "") eqn:E; cbn [negb fold_left].
  - rewrite IH. f_equal. unfold step. rewrite E. reflexivity.
  - apply IH.
Qed.

(** The chunks of a document, by their entries. *)
Lemma ingest_entries (paras : list paragraph) :
  exists entries cnt,
    ingest_docx R paras = map (entry_chunk R) entries /\
    entries_ok R (heading_texts paras) cnt entries /\
    concat (map entry_parts entries) = body_texts paras.
Proof.
  unfold ingest_docx. cbv zeta.
  pose proof (loop_inv_fold paras) as Hinv.
  set (st := fold_left (step R) paras (State [] None [] ∅)) in *.
  destruct (open_section st) as [h|] eqn:Eo.
  - destruct (close_inv paras st h Hinv Eo) as (entries & Hc & Hok & Hbody).
    eexists entries, _. split; [exact Hc|]. split; [exact Hok | exact Hbody].
  - pose proof (open_none _ _ Hinv Eo) as Et.
    destruct Hinv as (entries & Hc & Hok & Hbody & _).
    rewrite Et, app_nil_r in Hbody.
    eexists entries, _. split; [exact Hc|]. split; [exact Hok | exact Hbody].
Qed.

End WithRe.

End IngestLoop.

Module IngestChunks.
Import PyStr Props Ingest IngestViews StrFacts ScanFacts IngestFacts IngestLoop.

Lemma mk_chunk_id (cid h t : string) : mk_chunk cid h t !! "chunk_id" = Some (VStr cid).
Proof. unfold mk_chunk. apply lookup_insert_eq. Qed.


Lemma mk_chunk_text (cid h t : string) : mk_chunk cid h t !! "text" = Some (VStr t).
Proof.
  unfold mk_chunk. rewrite !lookup_insert_ne by discriminate. apply lookup_insert_eq.
Qed.


Lemma NoDup_fmap_inj {A B} (f : A -> B) (l : list A) (x y : A) :
  NoDup (f <$> l) -> x ∈ l -> y ∈ l -> f x = f y -> x = y.
Proof.
  intros Hnd Hx Hy Hf.
  apply list_elem_of_lookup in Hx as [i Hi]. apply list_elem_of_lookup in Hy as [j Hj].
  assert (i = j) as ->.
  { eapply NoDup_lookup; [exact Hnd| |].
    - rewrite list_lookup_fmap, Hi. reflexivity.
    - rewrite list_lookup_fmap, Hj. cbn. f_equal. symmetry. exact Hf. }
  congruence.
Qed.

Lemma drop_app (l b : string) : drop (String.length l) (l +:+ b) = b.
Proof.
  induction l as [|x l IH]; [destruct b; reflexivity|].
  rewrite append_cons. cbn [String.length drop]. exact IH.
Qed.

Lemma match_one_prefix (lits : list string) (s g r : string) :
  match_one lits s = Some (g, r) -> g ∈ lits /\ s = g +:+ r.
Proof.
  induction lits as [|l lits IH]; [discriminate|]. cbn [match_one].
  destruct (String.prefix l s) eqn:E.
  - intros H. injection H as <- <-. split; [left|].
    destruct (prefix_inv _ _ E) as [b ->]. rewrite drop_app. reflexivity.
  - intros H. destruct (IH H) as [Hin Hs]. split; [right; exact Hin | exact Hs].
Qed.

Section WithRe.
Variable R : ReLib.


Lemma entry_chunk_id (e : entry) :
  entry_chunk R e !! "chunk_id" = Some (VStr (entry_id R e)).
Proof. apply mk_chunk_id. Qed.

Lemma entry_id_nonempty (e : entry) : entry_id R e <> "".
Proof. unfold entry_id. apply append_nonempty_r. discriminate. Qed.

Lemma entry_id_inj (e1 e2 : entry) :
  entry_id R e1 = entry_id R e2 -> entry_key R e1 = entry_key R e2.
Proof.
  unfold entry_id, entry_key. intros H.
  apply id_inj in H as [Hp Hn]; [|apply fmt02_digits..].
  apply fmt02_inj in Hn. rewrite Hp, Hn. reflexivity.
Qed.

Lemma ingest_valid_ids (paras : list paragraph) :
  Forall (fun c => is_Some (chunk_id_of c)) (ingest_docx R paras).
Proof.
  destruct (ingest_entries R paras) as (entries & cnt & -> & _).
  apply Forall_fmap, Forall_forall. intros e _. cbn.
  exists (entry_id R e). apply AssemblerFacts.chunk_id_of_Some.
  split; [apply entry_chunk_id | apply entry_id_nonempty].
Qed.

End WithRe.

(** ** The pattern of [65+] *)

Lemma search_plus_found (b : bool) (s : string) :
  search_plus_from b s = true ->
  exists pre rest, s = pre +:+ rest /\ plus_at rest = true.
Proof.
  revert b. induction s as [|c s IH]; intros b; cbn [search_plus_from].
  - rewrite orb_false_r. intros H. apply andb_true_iff in H as [_ H].
    exists "", "". split; [reflexivity | exact H].
  - intros H. apply orb_true_iff in H as [H|H].
    + apply andb_true_iff in H as [_ H]. exists "", (String c s).
      split; [reflexivity | exact H].
    + destruct (IH _ H) as (pre & rest & -> & Hr).
      exists (String c pre), rest. split; [reflexivity | exact Hr].
Qed.

Lemma plus_at_shape (s : string) :
  plus_at s = true ->
  exists sp c post,
    s = "65" +:+ sp +:+ "+" +:+ String c post /\ lstrip sp = "" /\ is_word c = true.
Proof.
  unfold plus_at. destruct (match_one ["65"] s) as [[g r1]|] eqn:E; [|discriminate].
  apply match_one_prefix in E as [Hg ->].
  apply list_elem_of_singleton in Hg. subst g.
  destruct (lstrip_split r1) as (sp & Hr1 & Hsp).
  destruct (lstrip r1) as [|p r2]; [discriminate|].
  destruct (decide (p = "+"%char)) as [->|Hp].
  - destruct r2 as [|c post]; [discriminate|]. cbn [next_is_word]. intros Hc.
    exists sp, c, post. rewrite Hr1. auto.
  - intros H. exfalso.
    destruct p as [[] [] [] [] [] [] [] []]; try discriminate H. apply Hp. reflexivity.
Qed.

Lemma search_band_groups (b : bool) (s g1 g2 : string) :
  search_band_from b s = Some (g1, g2) ->
  g1 ∈ ["18"; "25"; "35"; "45"; "55"] /\ g2 ∈ ["24"; "34"; "44"; "54"; "64"].
Proof.
  revert b. induction s as [|c s IH]; intros b; cbn [search_band_from].
  - destruct b; [discriminate|]. cbn. discriminate.
  - assert (Hat : band_at (String c s) = Some (g1, g2) ->
                  g1 ∈ ["18"; "25"; "35"; "45"; "55"] /\
                  g2 ∈ ["24"; "34"; "44"; "54"; "64"]).
    { unfold band_at.
      destruct (match_one _ (String c s)) as [[h1 r1]|] eqn:E1; [|discriminate].
      destruct (lstrip r1) as [|p r2]; [discriminate|].
      destruct (match_one _ (lstrip r2)) as [[h2 r3]|] eqn:E2.
      2:{ destruct p as [[] [] [] [] [] [] [] []]; discriminate. }
      apply match_one_prefix in E1 as [H1 _]. apply match_one_prefix in E2 as [H2 _].
      destruct p as [[] [] [] [] [] [] [] []]; try discriminate.
      destruct (next_is_word r3); [discriminate|].
      intros H. injection H as <- <-. auto. }
    destruct b.
    + apply IH.
    + destruct (band_at (String c s)) as [[h1 h2]|] eqn:E.
      * intros H. injection H as <- <-. apply Hat. reflexivity.
      * apply IH.
Qed.

End IngestChunks.

(** * Properties of ingestion ([src/ingest.py]) *)

Module IngestProps.
Import PyStr Props Examples Views Ingest IngestViews Retrieval.
Import StrFacts ScanFacts AssemblerFacts IngestFacts IngestLoop IngestChunks.

Section WithRe.
Variable R : ReLib.

(** X21.  Every chunk of [ingest_docx] has the three keys: an
    identifier made of a prefix, an underscore and a number from 1 in
    at least two digits, the prefix being the semantic prefix of its
    heading and text when these are in ASCII; as heading the stripped
    text of a heading paragraph, or [Untitled Section]; and a text
    that is not empty and has no white space at either end. *)
Theorem ingest_chunk_shape (paras : list paragraph) (c : chunk) :
  c ∈ ingest_docx R paras ->
  exists prefix n heading text,
    c = mk_chunk (prefix +:+ "_" +:+ fmt02 n) heading text /\
    (is_ascii_text heading = true -> is_ascii_text text = true ->
     prefix = _semantic_prefix R heading text) /\
    (1 <= n)%nat /\ heading <> "" /\
    heading ∈ "Untitled Section" :: heading_texts paras /\
    trimmed text.
Proof.
  destruct (ingest_entries R paras) as (entries & cnt & -> & (Hall & _) & _).
  intros Hc. apply list_elem_of_fmap in Hc as (e & -> & He).
  rewrite Forall_forall in Hall.
  destruct (Hall e He) as ((Hn & _) & Hh & Hin & Hne & Htr).
  destruct e as [[n h] parts]. cbn [fst snd] in *.
  exists (_semantic_prefix R h (join " " parts)), n, h, (join " " parts).
  split; [reflexivity|]. split; [reflexivity|].
  split; [exact Hn|]. split; [exact Hh|]. split; [exact Hin|].
  apply trimmed_join; assumption.
Qed.

(** X22.  The identifiers of the chunks of a document are all
    different and none is empty: two chunks with the same [chunk_id]
    are the same chunk, and the assembler, which drops a chunk without
    an identifier, drops none of them for that. *)
Theorem ingest_ids_unique (paras : list paragraph) :
  NoDup ((fun c : chunk => c !! "chunk_id") <$> ingest_docx R paras) /\
  Forall (fun c => is_Some (chunk_id_of c)) (ingest_docx R paras) /\
  (forall i j c d,
     ingest_docx R paras !! i = Some c -> ingest_docx R paras !! j = Some d ->
     c !! "chunk_id" = d !! "chunk_id" -> i = j).
Proof.
  pose proof (ingest_valid_ids R paras) as Hv.
  destruct (ingest_entries R paras) as (entries & cnt & E & (_ & Hnd & _) & _).
  rewrite E in *. clear E.
  assert (Hids : NoDup ((fun c : chunk => c !! "chunk_id") <$>
                        map (entry_chunk R) entries)).
  { rewrite <- list_fmap_compose.
    apply (NoDup_fmap_2_strong _ entries).
    2:{ eapply NoDup_fmap_1, Hnd. }
    intros e1 e2 H1 H2 H. cbn in H. rewrite !entry_chunk_id in H.
    injection H as H. apply entry_id_inj in H.
    eapply (NoDup_fmap_inj (entry_key R)); eassumption. }
  split; [exact Hids|]. split.
  - exact Hv.
  - intros i j c d Hi Hj Heq.
    eapply NoDup_lookup; [exact Hids| |].
    + rewrite list_lookup_fmap, Hi. reflexivity.
    + rewrite list_lookup_fmap, Hj. cbn. f_equal. symmetry. exact Heq.
Qed.

(** X23.  No body text is lost, repeated or reordered: the texts of
    the chunks, joined by spaces, are the stripped texts of the body
    paragraphs of the document, joined by spaces. *)
Theorem ingest_body_round_trip (paras : list paragraph) :
  join " " (map chunk_text (ingest_docx R paras)) = join " " (body_texts paras).
Proof.
  destruct (ingest_entries R paras) as (entries & cnt & -> & (Hall & _) & <-).
  rewrite map_map.
  replace (map (fun e => chunk_text (entry_chunk R e)) entries)
    with (map (join " ") (map entry_parts entries)).
  - apply join_groups. apply Forall_fmap. eapply Forall_impl; [exact Hall|].
    intros e (_ & _ & _ & Hne & _). exact Hne.
  - rewrite map_map. apply map_ext. intros e.
    unfold chunk_text, get_or_empty, entry_chunk. rewrite mk_chunk_text. reflexivity.
Qed.

(** X24.  Paragraphs whose text is empty or white space do not count,
    whatever their style: the document without them gives the same
    chunks. *)
Theorem ingest_blank_ignored (paras : list paragraph) :
  ingest_docx R paras =
  ingest_docx R (List.filter (fun p => negb (is_blank p)) paras).
Proof.
  unfold ingest_docx. rewrite fold_blank. reflexivity.
Qed.


(** X26.  Over the chunks of a document the constructor does not fail
    on a chunk: every chunk has a text that is a string, so every text
    is read and split into tokens, for a text in ASCII its words in
    lower case.  What the constructor raises, if it raises, is what
    [BM25Okapi], [SentenceTransformer] or the [encode] of the texts
    raised; otherwise the retriever holds the chunks with their texts
    and embeddings. *)
Theorem ingested_chunks_index (X : Externals) (paras : list paragraph) :
  let cs := ingest_docx R paras in
  exists corpus,
    Forall2 (fun c ws => is_ascii_text (chunk_text c) = true ->
                         ws = split (lower (chunk_text c))) cs corpus /\
    new_retriever X cs =
    obind (BM25Okapi X corpus) (fun index =>
    obind (SentenceTransformer X "all-MiniLM-L6-v2") (fun _ =>
    obind (encode_all X (map chunk_text cs)) (fun embeddings =>
    Ok (Retriever cs (map (fun c => VStr (chunk_text c)) cs) index embeddings)))).
Proof.
  cbv zeta.
  destruct (ingest_entries R paras) as (entries & cnt & -> & _ & _).
  unfold new_retriever.
  set (cs := map (entry_chunk R) entries).
  exists (map (fun c => split (lower (chunk_text c))) cs). split.
  { apply Forall2_fmap_r, Forall_Forall2_diag, Forall_forall. auto. }
  assert (H1 : omapM text_of cs = Ok (map (fun c => VStr (chunk_text c)) cs)).
  { subst cs. induction entries as [|e entries IH]; [reflexivity|].
    cbn [map omapM]. rewrite IH. unfold text_of at 1, chunk_text at 1, get_or_empty.
    unfold entry_chunk at 1 2. rewrite mk_chunk_text. reflexivity. }
  rewrite H1. cbn [obind].
  assert (H2 : omapM tokens_of (map (fun c => VStr (chunk_text c)) cs) =
               Ok (map (fun c => split (lower (chunk_text c))) cs)).
  { generalize cs. intros l. induction l as [|c l IH]; [reflexivity|].
    cbn [map omapM tokens_of]. rewrite IH. reflexivity. }
  rewrite H2. cbn [obind]. rewrite map_map. reflexivity.
Qed.

(** X29.  Across the stages: when the age chunk is searched in the
    chunks of a document and found, it is the first chunk of the
    context the pipeline assembles, whatever was retrieved. *)
Theorem ingested_age_chunk_leads (paras : list paragraph)
    (retrieved : list chunk) (age_range income_type : string) (c : chunk) :
  Assembler._best_chunk_by_text (ingest_docx R paras)
    (Assembler._age_variants age_range) = Some c ->
  head (final_context_of (ingest_docx R paras) retrieved age_range income_type) =
  Some c.
Proof.
  intros H. unfold final_context_of. rewrite H.
  apply ContextFacts.safe_context_head; [unfold Config.TOP_K; lia|].
  apply MatcherFacts.best_chunk_Some in H as (pre & post & E & _).
  pose proof (ingest_valid_ids R paras) as Hv. rewrite E in Hv.
  apply Forall_app in Hv as [_ Hv]. inversion Hv. assumption.
Qed.

End WithRe.

(** X27.  On ASCII text the pattern of [65+] asks for a word
    character right after the plus sign: [_extract_age_band] answers
    [65_plus] only if the normalized text has [65], white space or
    none, a plus sign and then a letter, a digit or an underscore.  A
    text where [65+] ends the text or stands before a space or a
    punctuation mark gets no band from it. *)
Theorem age_65_plus_needs_word (text : string) :
  is_ascii_text text = true ->
  _extract_age_band re_ascii text = Some "65_plus" ->
  exists pre sp c post,
    _normalize_text re_ascii text = pre +:+ "65" +:+ sp +:+ "+" +:+ String c post /\
    lstrip sp = "" /\ is_word c = true.
Proof.
  intros _. unfold _extract_age_band.
  set (t := _normalize_text re_ascii text).
  destruct (search_band re_ascii t) as [[g1 g2]|] eqn:Eb.
  - intros H. exfalso. apply search_band_groups in Eb as [H1 _].
    injection H as H.
    repeat (apply elem_of_cons in H1 as [->|H1]; [discriminate H|]).
    inversion H1.
  - destruct (search_65_plus re_ascii t) eqn:Ep; [|discriminate]. intros _.
    apply search_plus_found in Ep as (pre & rest & Et & Hr).
    apply plus_at_shape in Hr as (sp & c & post & -> & Hsp & Hc).
    exists pre, sp, c, post. split; [exact Et|]. split; assumption.
Qed.

(** X28.  On ASCII text the semantic prefix is [misc], [income_type],
    [age_65_plus], or [age_] with one of the five lower bounds, an
    underscore and one of the five upper bounds; the two bounds need
    not belong to the same band. *)
Theorem semantic_prefix_range (heading body : string) :
  is_ascii_text heading = true -> is_ascii_text body = true ->
  _semantic_prefix re_ascii heading body ∈ ["misc"; "income_type"; "age_65_plus"]
  \/ exists g1 g2,
       g1 ∈ ["18"; "25"; "35"; "45"; "55"] /\ g2 ∈ ["24"; "34"; "44"; "54"; "64"] /\
       _semantic_prefix re_ascii heading body = "age_" +:+ g1 +:+ "_" +:+ g2.
Proof.
  intros _ _. unfold _semantic_prefix, _extract_age_band.
  set (combined := _normalize_text re_ascii (heading +:+ " " +:+ body)).
  set (t := _normalize_text re_ascii combined).
  assert (Hother : (if contains "income type" combined then "income_type" else "misc")
                   ∈ ["misc"; "income_type"; "age_65_plus"]).
  { destruct (contains "income type" combined); [right; left | left]. }
  destruct (search_band re_ascii t) as [[g1 g2]|] eqn:Eb.
  - apply search_band_groups in Eb as [H1 H2]. right.
    destruct (String.eqb (g1 +:+ "_" +:+ g2) "") eqn:E.
    + apply String.eqb_eq in E. exfalso. revert E.
      apply append_nonempty_r. discriminate.
    + exists g1, g2. auto.
  - left. destruct (search_65_plus re_ascii t).
    + cbn. right. right. left.
    + exact Hother.
Qed.

Lemma semantic_prefix_range_witness :
  exists g1 g2,
    _semantic_prefix re_ascii "Ages 25 - 24" "A misprint." =
    "age_" +:+ g1 +:+ "_" +:+ g2.
Proof.
  destruct (semantic_prefix_range "Ages 25 - 24" "A misprint.")
    as [H|(g1 & g2 & _ & _ & H)]; try (vm_compute; reflexivity).
  - exfalso. vm_compute in H.
    repeat (apply elem_of_cons in H as [H|H]; [discriminate H|]). inversion H.
  - exists g1, g2. exact H.
Defined.

Lemma ingested_age_chunk_leads_witness :
  head (final_context_of (ingest_docx re_ascii doc_example) [] "18-24" "Salary") =
  Some (mk_chunk "age_18_24_01" "Age 18-24"
                 "First-time buyers. Save for a deposit.").
Proof.
  apply (ingested_age_chunk_leads re_ascii doc_example [] "18-24" "Salary").
  vm_compute. reflexivity.
Defined.

Lemma ingest_chunk_shape_witness :
  exists prefix n heading text,
    mk_chunk "age_18_24_01" "Age 18-24" "First-time buyers. Save for a deposit." =
    mk_chunk (prefix +:+ "_" +:+ fmt02 n) heading text /\ (1 <= n)%nat.
Proof.
  destruct (ingest_chunk_shape re_ascii doc_example
              (mk_chunk "age_18_24_01" "Age 18-24"
                        "First-time buyers. Save for a deposit."))
    as (p & n & h & t & E & _ & Hn & _).
  - vm_compute. right. left.
  - exists p, n, h, t. split; [exact E | exact Hn].
Defined.


Lemma age_65_plus_needs_word_witness :
  exists pre sp c post,
    _normalize_text re_ascii "Aged 65 +Plus" =
    pre +:+ "65" +:+ sp +:+ "+" +:+ String c post /\
    lstrip sp = "" /\ is_word c = true.
Proof.
  apply (age_65_plus_needs_word "Aged 65 +Plus"); vm_compute; reflexivity.
Defined.

End IngestProps.

